(** * swagger-mongoose: the schema compiler of [lib/index.js]

    A shallow embedding of the compiler that turns the [definitions] of a
    Swagger document into mongoose schema descriptions, followed by the
    properties of it that are proved.

    How the JavaScript is modelled.

    - Values.  [val] is a JavaScript value.  Objects of the input graph (the
      decoded document, the extra definitions, and every object the compiler
      installs into that graph or passes on as a definition or a property) are
      cells of a store and are named by reference ([VRef]); they are shared and
      mutated in place, as in the source.  Objects the compiler builds for its
      output ([props], [ret], the type descriptors) are held by a single
      variable until they are stored in their parent; they are values
      ([VObj], [VArr]) and updating one returns the new value.
    - Objects are association lists in enumeration order; a write to an
      existing key keeps its place and a write to a new key goes last; the
      special order JavaScript gives to integer-like keys is outside the
      model.
    - Prototypes.  A read finds the properties an object has of its own:
      the members every object inherits from [Object.prototype]
      ([constructor], [toString], ..., which a read under a computed name
      finds when the object has no such property) are outside the model.
      One prototype is modelled: the one the object [props] of
      [getSchemaProperty] is given by [props[key] = v] when the key is
      [__proto__] (see [inherited]).  Everywhere else the model takes a
      property named [__proto__] for a property like any other, which it is
      in an object that [JSON.parse] or [_.extend] has made (not in one
      written by assignment or by [Object.assign]).
    - Strings are sequences of characters with codes below 256.
    - Numbers are rationals, with NaN and the two infinities apart.  A
      number of the model is exact where the program has the double
      nearest to it; the one comparison of the source, with 2, takes the
      rounding into account (see [ge2]).  [Number(v)] reads an object
      through its text and can throw; functions are values that the model
      never calls (see [no_primitive]).
    - Effects.  [M] is a state-and-exception monad over [state], the
      module-level variables of the source together with the store.  A
      [throw] keeps the state it happened in.
    - Recursion.  [getSchema], [getSchemaProperty] and [processRef] call each
      other and need not terminate (an indirect cycle of references), so they
      take fuel; running out is the error [OutOfFuel].  A computation that
      runs out of fuel whatever the fuel is one that, in the program,
      recurses until the stack overflows.
    - Collaborators.  [JSON.parse] and [require] are parameters.
      [new mongoose.Schema(object, options)], [schema.index] and
      [mongoose.model] only record their arguments: what mongoose itself
      refuses (a field bound to [undefined], a facet [required] inside a
      nested map) is outside the model. *)

From Stdlib Require Import List String Ascii ZArith QArith Bool Lia Arith.
From Stdlib Require Import DecimalString Decimal DecimalNat Finite.
Import ListNotations.
Local Open Scope string_scope.
Local Open Scope list_scope.
Local Open Scope nat_scope.
Set Warnings "-register-all".

(** ** Values *)

(** The storage types: [Number], [String], [Boolean], [Date], the array
    [[T]] that [propertyMap] builds, and [Schema.Types.ObjectId]. *)
Inductive stype : Type :=
| SNumber
| SString
| SBoolean
| SDate
| SObjectId
| SArrayOf (t : stype).

Inductive val : Type :=
| VUndef
| VNull
| VBool (b : bool)
| VNum (q : Q)
| VNaN
| VStr (s : string)
| VRef (l : nat)
| VObj (fs : list (string * val))
| VArr (es : list val) (fs : list (string * val))
| VType (t : stype)
| VFun (name : string)
| VBuffer (bytes : string)
| VSchema (object options : val) (index : option (val * bool))
| VModel (name : string) (schema : val)
| VInf (negative : bool).

Definition obj := list (string * val).

(** The key a [_.forEach] callback receives: the property name of an object,
    the index (a number) of an array or of an array-like collection. *)
Inductive pkey : Type :=
| KStr (s : string)
| KIdx (i : nat).

Definition string_of_nat (n : nat) : string :=
  NilZero.string_of_uint (Nat.to_uint n).

(** The canonical array index a property name denotes, if any. *)
Definition index_of_key (k : string) : option nat :=
  match NilEmpty.uint_of_string k with
  | Some u => let n := Nat.of_uint u in
              if String.eqb (string_of_nat n) k then Some n else None
  | None => None
  end.

Definition key_name (k : pkey) : string :=
  match k with KStr s => s | KIdx i => string_of_nat i end.

Definition key_val (k : pkey) : val :=
  match k with KStr s => VStr s | KIdx i => VNum (inject_Z (Z.of_nat i)) end.

(** ** Association lists *)

Fixpoint assoc (k : string) (fs : obj) : option val :=
  match fs with
  | [] => None
  | (k', v) :: fs' => if String.eqb k' k then Some v else assoc k fs'
  end.

Fixpoint obj_set (k : string) (v : val) (fs : obj) : obj :=
  match fs with
  | [] => [(k, v)]
  | (k', v') :: fs' =>
      if String.eqb k' k then (k, v) :: fs' else (k', v') :: obj_set k v fs'
  end.

Fixpoint obj_delete (k : string) (fs : obj) : obj :=
  match fs with
  | [] => []
  | (k', v') :: fs' =>
      if String.eqb k' k then obj_delete k fs' else (k', v') :: obj_delete k fs'
  end.

(** The keys of an object, each once, in the order of their first binding
    (the binding [assoc] reads). *)
Definition obj_keys (fs : obj) : list string := nodup string_dec (map fst fs).

(** [Object.assign(target, entries)]: one write per entry, in order. *)
Definition obj_assign (target : obj) (entries : obj) : obj :=
  fold_left (fun acc kv => obj_set (fst kv) (snd kv) acc) entries target.

(** ** Primitive operations on values *)

Definition truthy (v : val) : bool :=
  match v with
  | VUndef | VNull | VNaN => false
  | VBool b => b
  | VNum q => negb (Qeq_bool q 0%Q)
  | VStr s => negb (String.eqb s "")
  | _ => true
  end.

(** [v === 'literal'] *)
Definition is_str (v : val) (lit : string) : bool :=
  match v with VStr s => String.eqb s lit | _ => false end.

(** [v === k] for a key [k] (a string or an index), as [indexOf] compares. *)
Definition strict_eq_key (v : val) (k : pkey) : bool :=
  match v, k with
  | VStr s, KStr s' => String.eqb s s'
  | VNum q, KIdx i => Qeq_bool q (inject_Z (Z.of_nat i))
  | _, _ => false
  end.

Fixpoint chars_of (s : string) : list val :=
  match s with
  | EmptyString => []
  | String c s' => VStr (String c EmptyString) :: chars_of s'
  end.

Definition indexed (es : list val) : obj :=
  combine (map string_of_nat (seq 0 (List.length es))) es.

Definition len_val {A} (l : list A) : val :=
  VNum (inject_Z (Z.of_nat (List.length l))).

(** The own property [k] of a value that is not a reference. *)
Definition own_get (d : val) (k : string) : val :=
  match d with
  | VObj fs => match assoc k fs with Some v => v | None => VUndef end
  | VArr es fs =>
      if String.eqb k "length" then len_val es
      else match index_of_key k with
           | Some i => nth i es VUndef
           | None => match assoc k fs with Some v => v | None => VUndef end
           end
  | VStr s =>
      if String.eqb k "length" then len_val (chars_of s)
      else match index_of_key k with
           | Some i => nth i (chars_of s) VUndef
           | None => VUndef
           end
  | _ => VUndef
  end.

(** The own enumerable properties of a value that is not a reference, as
    [Object.assign], [_.extend] and [for..in] see them. *)
Definition own_entries (d : val) : obj :=
  match d with
  | VObj fs => fs
  | VArr es fs => indexed es ++ fs
  | VStr s => indexed (chars_of s)
  | _ => []
  end.

(** [d[k] = v] on a value that is not a reference; a write to a primitive is
    dropped (the module is not in strict mode). *)
Definition own_set (d : val) (k : string) (v : val) : val :=
  match d with
  | VObj fs => VObj (obj_set k v fs)
  | VArr es fs => VArr es (obj_set k v fs)
  | _ => d
  end.

Definition own_delete (d : val) (k : string) : val :=
  match d with
  | VObj fs => VObj (obj_delete k fs)
  | VArr es fs => VArr es (obj_delete k fs)
  | _ => d
  end.

Definition is_array (d : val) : bool :=
  match d with VArr _ _ => true | _ => false end.

(** lodash's [isLength]: a non-negative integer up to 2^53 - 1. *)
Definition is_length (v : val) : option nat :=
  match v with
  | VNum q =>
      let r := Qred q in
      if (Pos.eqb (Qden r) 1 && (0 <=? Qnum r)%Z && (Qnum r <=? 9007199254740991)%Z)%bool
      then Some (Z.to_nat (Qnum r)) else None
  | _ => None
  end.

(** [s] without its prefix [p], if it has it. *)
Fixpoint strip_prefix (p s : string) : option string :=
  match p, s with
  | EmptyString, _ => Some s
  | String a p', String b s' => if Ascii.eqb a b then strip_prefix p' s' else None
  | String _ _, EmptyString => None
  end.

(** [Number(s)] on a string.  White space is dropped at both ends: TAB, LF,
    VT, FF, CR, SP and NBSP (the characters of the model have codes below
    256).  What is left is empty (zero), a decimal literal with an optional
    sign ([Infinity], or digits with an optional fraction and an optional
    exponent), or an unsigned literal in base 16, 8 or 2 ([0x], [0o],
    [0b]); anything else is NaN.  The value is exact. *)
Definition is_space (c : ascii) : bool :=
  let n := nat_of_ascii c in
  ((9 <=? n) && (n <=? 13) || (n =? 32) || (n =? 160))%nat.

Fixpoint trim_left (s : string) : string :=
  match s with
  | String c s' => if is_space c then trim_left s' else s
  | EmptyString => s
  end.

Fixpoint trim_right (s : string) : string :=
  match s with
  | EmptyString => EmptyString
  | String c s' =>
      match trim_right s' with
      | EmptyString => if is_space c then EmptyString else String c EmptyString
      | r => String c r
      end
  end.

Definition digit_in (base : Z) (c : ascii) : option Z :=
  let n := Z.of_nat (nat_of_ascii c) in
  let d := (if (48 <=? n) && (n <=? 57) then Some (n - 48)
            else if (97 <=? n) && (n <=? 102) then Some (n - 87)
            else if (65 <=? n) && (n <=? 70) then Some (n - 55)
            else None)%Z in
  match d with
  | Some d => if (d <? base)%Z then Some d else None
  | None => None
  end.

(** The longest run of digits at the head of [s]: its value on top of
    [acc], its length on top of [n], and what follows it. *)
Fixpoint read_digits (base : Z) (s : string) (acc : Z) (n : nat)
  : Z * nat * string :=
  match s with
  | String c s' =>
      match digit_in base c with
      | Some d => read_digits base s' (acc * base + d)%Z (S n)
      | None => (acc, n, s)
      end
  | EmptyString => (acc, n, s)
  end.

Definition pow10 (k : Z) : Q :=
  if (0 <=? k)%Z then inject_Z (10 ^ k) else (1 # Z.to_pos (10 ^ (- k)))%Q.

(** The exponent part that ends a decimal literal, if [s] is one or is
    empty. *)
Definition exponent_of (s : string) : option Z :=
  match s with
  | EmptyString => Some 0%Z
  | String c s' =>
      if Ascii.eqb c "e"%char || Ascii.eqb c "E"%char then
        let '(neg, body) :=
          match s' with
          | String c' b => if Ascii.eqb c' "-"%char then (true, b)
                           else if Ascii.eqb c' "+"%char then (false, b)
                           else (false, s')
          | EmptyString => (false, s')
          end in
        match read_digits 10 body 0%Z 0 with
        | (x, S _, EmptyString) => Some (if neg then (- x)%Z else x)
        | _ => None
        end
      else None
  end.

(** The positive infinity, [false], and the negative one are numbers on
    their own. *)
Definition decimal_of (s : string) : val :=
  if String.eqb s "Infinity" then VInf false else
  let '(i, ni, r1) := read_digits 10 s 0%Z 0 in
  let '(m, nf, r2) :=
    match r1 with
    | String c r => if Ascii.eqb c "."%char then read_digits 10 r i 0
                    else (i, 0, r1)
    | EmptyString => (i, 0, r1)
    end in
  if (ni + nf =? 0)%nat then VNaN else
  match exponent_of r2 with
  | Some e => VNum (inject_Z m * pow10 (e - Z.of_nat nf))
  | None => VNaN
  end.

Definition radix_literal (t : string) : option val :=
  match t with
  | String z (String x body) =>
      let base :=
        if negb (Ascii.eqb z "0"%char) then None
        else if Ascii.eqb x "x"%char || Ascii.eqb x "X"%char then Some 16%Z
        else if Ascii.eqb x "o"%char || Ascii.eqb x "O"%char then Some 8%Z
        else if Ascii.eqb x "b"%char || Ascii.eqb x "B"%char then Some 2%Z
        else None in
      match base with
      | Some b => Some match read_digits b body 0%Z 0 with
                       | (n, S _, EmptyString) => VNum (inject_Z n)
                       | _ => VNaN
                       end
      | None => None
      end
  | _ => None
  end.

Definition negated (v : val) : val :=
  match v with
  | VNum q => VNum (Qopp q)
  | VInf neg => VInf (negb neg)
  | _ => v
  end.

Definition number_of_string (s : string) : val :=
  match trim_right (trim_left s) with
  | EmptyString => VNum 0%Q
  | String c t' as t =>
      if Ascii.eqb c "-"%char then negated (decimal_of t')
      else if Ascii.eqb c "+"%char then decimal_of t'
      else match radix_literal t with
           | Some v => v
           | None => decimal_of t
           end
  end.

(** [Number(buffer)] reads the text the bytes encode in UTF-8.  No literal
    has a character beyond ASCII, so only the white space at both ends
    needs decoding; [spaces] are the encodings of the white space
    characters that take more than one byte, [spaces_reversed] the same
    read backwards. *)
Definition bytes (codes : list nat) : string :=
  fold_right (fun n s => String (ascii_of_nat n) s) EmptyString codes.

Definition spaces : list string :=
  map bytes
    ([[194; 160]; [225; 154; 128]; [226; 128; 168]; [226; 128; 169];
      [226; 128; 175]; [226; 129; 159]; [227; 128; 128]; [239; 187; 191]]
     ++ map (fun n => [226; 128; n]) (seq 128 11)).

Fixpoint reversed (s acc : string) : string :=
  match s with
  | EmptyString => acc
  | String c s' => reversed s' (String c acc)
  end.

Definition strip_space (encodings : list string) (s : string) : option string :=
  match s with
  | EmptyString => None
  | String c s' =>
      if is_space c && (nat_of_ascii c <? 128)%nat then Some s'
      else fold_right (fun e found =>
                         match strip_prefix e s with
                         | Some rest => Some rest
                         | None => found
                         end) None encodings
  end.

Fixpoint strip_spaces (n : nat) (encodings : list string) (s : string) : string :=
  match n with
  | O => s
  | S n' => match strip_space encodings s with
            | Some rest => strip_spaces n' encodings rest
            | None => s
            end
  end.

Fixpoint all_ascii (s : string) : bool :=
  match s with
  | EmptyString => true
  | String c s' => (nat_of_ascii c <? 128)%nat && all_ascii s'
  end.

Definition number_of_bytes (b : string) : val :=
  let n := String.length b in
  let t := strip_spaces n spaces b in
  let t := reversed (strip_spaces n (map (fun e => reversed e "") spaces)
                       (reversed t "")) "" in
  if all_ascii t then number_of_string t else VNaN.

(** [Number(v)] for a [v] that is a primitive or a buffer; any other object
    is read through [numeric_text] below. *)
Definition Number (v : val) : val :=
  match v with
  | VUndef => VNaN
  | VNull => VNum 0%Q
  | VBool b => VNum (if b then 1%Q else 0%Q)
  | VNum q => VNum q
  | VStr s => number_of_string s
  | VInf neg => VInf neg
  | VBuffer b => number_of_bytes b
  | _ => VNaN
  end.

(** [v >= 2].  The model keeps the exact value of a literal where the
    program has the double nearest to it; the doubles next to 2 are
    2 - 2^-52 and 2, and what lies halfway goes to 2. *)
Definition ge2 (v : val) : bool :=
  match Number v with
  | VNum q => Qle_bool (2 - (1 # 9007199254740992))%Q q
  | VInf neg => negb neg
  | _ => false
  end.

(** ** The reference pattern

    [refRegExp] accepts the strings made of [#/definitions/] and then word
    characters only (letters, digits, underscore), possibly none, up to the
    end; the group it captures is that name. *)

Definition is_word_char (c : ascii) : bool :=
  let n := nat_of_ascii c in
  ((48 <=? n) && (n <=? 57) || (65 <=? n) && (n <=? 90)
   || (97 <=? n) && (n <=? 122) || (n =? 95))%nat.

Fixpoint all_word (s : string) : bool :=
  match s with
  | EmptyString => true
  | String c s' => is_word_char c && all_word s'
  end.

(** [refString.match(refRegExp)]: the captured name, or [None] for [null]. *)
Definition match_ref (refString : string) : option string :=
  match strip_prefix "#/definitions/" refString with
  | Some name => if all_word name then Some name else None
  | None => None
  end.

(** [s.replace(p, '')]: the first occurrence of [p] is removed. *)
Fixpoint remove_first (p s : string) : string :=
  match strip_prefix p s with
  | Some rest => rest
  | None => match s with
            | EmptyString => EmptyString
            | String c s' => String c (remove_first p s')
            end
  end.

(** ** The session state and the monad *)

(** The registries of the module-level constant [xSwaggerMongoose]. *)
Record registries : Type := mkRegistries {
  schemaOptions : obj;
  additionalProperties : obj;
  excludeSchema : obj;
  documentIndex : obj
}.

(** The module-level variables, and the store of the input graph.
    [validators] is the validator module seen through its lookup
    [k => validators[k]]. *)
Record state : Type := mkState {
  heap : list val;
  definitions : val;
  swaggerVersion : val;
  xSwaggerMongoose : registries;
  validators : val -> val
}.

Definition initial_registries : registries := mkRegistries [] [] [] [].

(** The module as it is when it has just been loaded. *)
Definition initial_state : state :=
  mkState [] VNull VNull initial_registries (fun _ => VUndef).

Inductive error : Type :=
| InvalidInput (message : string)
| UnrecognizedFormat (format : val)
| UnrecognizedType (type : val)
| MalformedReference (refString : string)
| TypeError (reading : string)
| SyntaxError
| ModuleNotFound (path : string)
| OutOfFuel.

Inductive res (A : Type) : Type :=
| Rok (a : A)
| Rerr (e : error).
Arguments Rok {A} a.
Arguments Rerr {A} e.

Inductive outcome (A : Type) : Type :=
| Ret (a : A) (st : state)
| Throw (e : error) (st : state).
Arguments Ret {A} a st.
Arguments Throw {A} e st.

Definition M (A : Type) : Type := state -> outcome A.

Definition ret {A} (a : A) : M A := fun st => Ret a st.
Definition throw {A} (e : error) : M A := fun st => Throw e st.
Definition bind {A B} (c : M A) (k : A -> M B) : M B :=
  fun st => match c st with
            | Ret a st' => k a st'
            | Throw e st' => Throw e st'
            end.

Declare Scope js_scope.
Delimit Scope js_scope with js.
Notation "x <- c ;; k" := (bind c (fun x => k))
  (at level 61, c at next level, right associativity) : js_scope.
Notation "c ;; k" := (bind c (fun _ => k))
  (at level 61, right associativity) : js_scope.
Local Open Scope js_scope.

Definition lift {A} (r : res A) : M A :=
  match r with Rok a => ret a | Rerr e => throw e end.

Definition get_heap : M (list val) := fun st => Ret (heap st) st.
Definition get_definitions : M val := fun st => Ret (definitions st) st.
Definition get_registries : M registries := fun st => Ret (xSwaggerMongoose st) st.
(** [validators[name]] *)
Definition get_validator (name : val) : M val := fun st => Ret (validators st name) st.
Definition with_heap (f : list val -> list val) : M unit :=
  fun st => Ret tt (mkState (f (heap st)) (definitions st) (swaggerVersion st)
                            (xSwaggerMongoose st) (validators st)).
Definition with_registries (f : registries -> registries) : M unit :=
  fun st => Ret tt (mkState (heap st) (definitions st) (swaggerVersion st)
                            (f (xSwaggerMongoose st)) (validators st)).
Definition set_definitions (d : val) : M unit :=
  fun st => Ret tt (mkState (heap st) d (swaggerVersion st)
                            (xSwaggerMongoose st) (validators st)).
Definition set_swaggerVersion (v : val) : M unit :=
  fun st => Ret tt (mkState (heap st) (definitions st) v
                            (xSwaggerMongoose st) (validators st)).
Definition set_validators (f : val -> val) : M unit :=
  fun st => Ret tt (mkState (heap st) (definitions st) (swaggerVersion st)
                            (xSwaggerMongoose st) f).

(** ** The store *)

Definition nullish (v : val) : bool :=
  match v with VUndef | VNull => true | _ => false end.

Definition deref (h : list val) (v : val) : val :=
  match v with VRef l => nth l h VUndef | _ => v end.

Fixpoint update {A} (l : nat) (x : A) (h : list A) : list A :=
  match h, l with
  | [], _ => []
  | _ :: h', O => x :: h'
  | y :: h', S l' => y :: update l' x h'
  end.

(** The size of a value, an array counted with its elements. *)
Fixpoint weight (v : val) : nat :=
  match v with
  | VArr es _ => S (fold_right (fun e n => weight e + n) 0 es)
  | _ => 1
  end.

(** A value that can be called: a constructor, a function, a model. *)
Definition callable (v : val) : bool :=
  match v with
  | VType (SArrayOf _) => false
  | VType _ | VFun _ | VModel _ _ => true
  | _ => false
  end.

(** Whether the conversion of an object with the members [fs] to a
    primitive gives up.  A member [toString] hides the inherited one: when
    it is no function the conversion ends in a TypeError (the inherited
    [valueOf] returns the object itself, and a member [valueOf] that is no
    function is passed over).  A member that is a function would be called,
    [valueOf] first when a number is asked for ([number_hint]): the model
    has no such calls and takes the conversion to give up there too. *)
Definition no_primitive (number_hint : bool) (fs : obj) : bool :=
  match assoc "toString" fs with
  | Some _ => true
  | None =>
      number_hint &&
      match assoc "valueOf" fs with
      | Some x => callable x
      | None => false
      end
  end.

(** A text with the [Number] of [String(v)], for [v] an object or an
    element of an array, or nothing when the conversion throws.  An array
    is read through [join], unless it has a member of that name: it
    converts its elements, reads as its element when it has one, and as
    the empty text when it is met again inside itself; with more elements
    its text has a comma.  A number other than zero stands for its
    literal. *)
Fixpoint numeric_text (fuel : nat) (h : list val) (number_hint : bool) (v : val)
  : option val :=
  match deref h v with
  | VUndef | VNull => Some (VStr "")
  | VBool b => Some (VStr (if b then "true" else "false"))
  | VNum q => Some (if Qeq_bool q 0 then VStr "0" else VNum q)
  | VNaN => Some (VStr "NaN")
  | VArr es fs =>
      if no_primitive number_hint fs then None else
      match assoc "join" fs with
      | Some x => if callable x then None else Some (VStr "[object Array]")
      | None =>
          match fuel with
          | O => Some (VStr "")
          | S n =>
              let texts := map (numeric_text n h false) es in
              if forallb (fun t => match t with Some _ => true | None => false end)
                   texts
              then match texts with
                   | [] => Some (VStr "")
                   | [t] => t
                   | _ => Some (VStr ",")
                   end
              else None
          end
      end
  | VObj fs =>
      if no_primitive number_hint fs then None else Some (VStr "[object Object]")
  | VSchema _ _ _ => Some (VStr "[object Object]")
  | VFun _ | VModel _ _ | VType _ => Some (VStr "function")
  | d => Some d
  end.

(** [Number(v)] for any [v], or nothing when it throws a TypeError: an
    object is read through its text.  The fuel is the number of arrays
    there are, so that it runs out only inside a cycle. *)
Definition ToNumber (h : list val) (v : val) : option val :=
  match v with
  | VRef _ | VObj _ | VArr _ _ | VType _ | VFun _ | VSchema _ _ _ | VModel _ _ =>
      option_map Number
        (numeric_text (weight v + fold_right (fun c n => weight c + n) 0 h)
           h true v)
  | _ => Some (Number v)
  end.

(** [v[k]] for a [v] that is neither [undefined] nor [null]. *)
Definition get (h : list val) (v : val) (k : string) : val :=
  own_get (deref h v) k.

(** [collection[k]] as [_.forEach] reads it. *)
Definition get_key (h : list val) (v : val) (k : pkey) : val :=
  match k with
  | KStr s => get h v s
  | KIdx i => match deref h v with
              | VArr es _ => nth i es VUndef
              | VStr s => nth i (chars_of s) VUndef
              | d => own_get d (string_of_nat i)
              end
  end.

(** [v[k]]: a TypeError on [undefined] and [null]. *)
Definition getp (v : val) (k : string) : M val :=
  fun st => if nullish v then Throw (TypeError k) st
            else Ret (get (heap st) v k) st.

(** [v[k] = x], returning the object written to: the cell of a reference is
    updated in place, a value is rebuilt. *)
Definition setp (v : val) (k : string) (x : val) : M val :=
  match v with
  | VUndef | VNull => throw (TypeError k)
  | VRef l =>
      with_heap (fun h => update l (own_set (nth l h VUndef) k x) h) ;; ret v
  | _ => ret (own_set v k x)
  end.

(** [delete v[k]] *)
Definition deletep (v : val) (k : string) : M val :=
  match v with
  | VUndef | VNull => throw (TypeError k)
  | VRef l =>
      with_heap (fun h => update l (own_delete (nth l h VUndef) k) h) ;; ret v
  | _ => ret (own_delete v k)
  end.

(** A new object of the input graph. *)
Definition alloc (d : val) : M val :=
  fun st => bind (with_heap (fun h => h ++ [d]))
                 (fun _ => ret (VRef (List.length (heap st)))) st.

(** The decoded form of a document. *)
Inductive json : Type :=
| JNull
| JBool (b : bool)
| JNum (q : Q)
| JStr (s : string)
| JArr (es : list json)
| JObj (fs : list (string * json)).

(** A member of a JSON object in front of the members [fs] that follow it:
    a name that comes again keeps its first place and takes its last
    value. *)
Definition member_first (k : string) (v : val) (fs : obj) : obj :=
  match assoc k fs with
  | Some v' => (k, v') :: obj_delete k fs
  | None => (k, v) :: fs
  end.

(** The object graph [JSON.parse] builds: a tree, every object and array in
    a cell of its own. *)
Fixpoint load (j : json) (h : list val) : val * list val :=
  match j with
  | JNull => (VNull, h)
  | JBool b => (VBool b, h)
  | JNum q => (VNum q, h)
  | JStr s => (VStr s, h)
  | JArr es =>
      let '(vs, h1) :=
        (fix load_all (l : list json) (h : list val) : list val * list val :=
           match l with
           | [] => ([], h)
           | e :: l' => let '(v, h1) := load e h in
                        let '(vs, h2) := load_all l' h1 in
                        (v :: vs, h2)
           end) es h in
      (VRef (List.length h1), h1 ++ [VArr vs []])
  | JObj fs =>
      let '(vs, h1) :=
        (fix load_fields (l : list (string * json)) (h : list val)
           : obj * list val :=
           match l with
           | [] => ([], h)
           | (k, e) :: l' => let '(v, h1) := load e h in
                             let '(vs, h2) := load_fields l' h1 in
                             (member_first k v vs, h2)
           end) fs h in
      (VRef (List.length h1), h1 ++ [VObj vs])
  end.

Definition load_json (j : json) : M val :=
  fun st => let '(v, h) := load j (heap st) in
            bind (with_heap (fun _ => h)) (fun _ => ret v) st.

(** ** lodash and built-in helpers *)

(** [_.extend(target, ...sources)] for a [target] the caller owns: a source
    that is falsy is skipped. *)
Definition extend (h : list val) (target : obj) (sources : list val) : obj :=
  fold_left (fun acc s => if truthy s then obj_assign acc (own_entries (deref h s))
                          else acc) sources target.

Definition _extend (target : obj) (sources : list val) : M obj :=
  fun st => Ret (extend (heap st) target sources) st.

(** The object [getSchemaProperty] returns, as [_.extend] reads it.
    lodash's [extend] is [assignIn]: it copies the enumerable properties a
    source has and those it inherits.  The other sources of the compiler
    inherit none.  [getSchemaProperty] writes its [props] by
    [props[key] = v] only, and for the key [__proto__] that makes [v], an
    object, the prototype of [props] and gives [props] no property: [props]
    never has a property of its own under that name, and the model keeps
    under it the prototype [props] was given.  The properties [props] has
    come first, those of its prototype that they do not hide after them. *)
Definition inherited (h : list val) (props : val) : val :=
  match props with
  | VObj fs =>
      match assoc "__proto__" fs with
      | Some p =>
          let own := obj_delete "__proto__" fs in
          let hidden (kv : string * val) :=
            match assoc (fst kv) own with Some _ => true | None => false end in
          match deref h p with
          | VObj _ | VArr _ _ =>
              VObj (own ++ filter (fun kv => negb (hidden kv))
                             (own_entries (deref h p)))
          | _ => VObj own
          end
      | None => props
      end
  | _ => props
  end.

(** [Object.assign(target, source)] *)
Definition Object_assign (target : obj) (source : val) : M obj :=
  fun st => Ret (if nullish source then target
                 else obj_assign target (own_entries (deref (heap st) source))) st.

(** [_.isEmpty(v)] *)
Definition isEmpty (h : list val) (v : val) : bool :=
  match deref h v with
  | VObj fs => match fs with [] => true | _ => false end
  | VArr es _ => match es with [] => true | _ => false end
  | VStr s => String.eqb s ""
  | _ => true
  end.

(** The keys [_.forEach(collection, ...)] visits: the indices of an array or
    of an array-like collection (a string, an object with a valid [length]),
    the own keys of any other object; they are fixed when the loop starts. *)
Definition forEach_keys (h : list val) (collection : val) : list pkey :=
  match deref h collection with
  | VArr es _ => map KIdx (seq 0 (List.length es))
  | VStr s => map KIdx (seq 0 (String.length s))
  | VObj fs => match is_length (own_get (VObj fs) "length") with
               | Some n => map KIdx (seq 0 n)
               | None => map KStr (obj_keys fs)
               end
  | _ => []
  end.

Fixpoint for_keys {A} (ks : list pkey) (body : pkey -> A -> M A) (a : A) : M A :=
  match ks with
  | [] => ret a
  | k :: ks' => a' <- body k a ;; for_keys ks' body a'
  end.

(** [_.forEach(collection, iteratee)], with the variable the iteratee updates
    made explicit; each value is read when its turn comes. *)
Definition forEach_over {A} (keys : list pkey) (collection : val)
  (iteratee : val -> pkey -> A -> M A) (a : A) : M A :=
  for_keys keys
    (fun k a => h <- get_heap ;; iteratee (get_key h collection k) k a) a.

Definition forEach {A} (collection : val) (iteratee : val -> pkey -> A -> M A)
  (a : A) : M A :=
  h <- get_heap ;;
  forEach_over (forEach_keys h collection) collection iteratee a.

Fixpoint fold_M {A B} (f : B -> A -> M A) (l : list B) (a : A) : M A :=
  match l with
  | [] => ret a
  | x :: l' => a' <- f x a ;; fold_M f l' a'
  end.

(** SameValueZero, the equality of a [Set], on the values a store cell
    holds. *)
Definition same_value (a b : val) : bool :=
  match a, b with
  | VUndef, VUndef | VNull, VNull | VNaN, VNaN => true
  | VBool x, VBool y => Bool.eqb x y
  | VNum x, VNum y => Qeq_bool x y
  | VStr x, VStr y => String.eqb x y
  | VRef x, VRef y => Nat.eqb x y
  | VInf x, VInf y => Bool.eqb x y
  | _, _ => false
  end.

(** [set.add(v)], the set kept in insertion order. *)
Definition set_add (set : list val) (v : val) : list val :=
  if existsb (same_value v) set then set else set ++ [v].

(** ** The source, function by function *)

Definition allowedTypes : list string :=
  ["number"; "integer"; "long"; "float"; "double"; "string"; "password";
   "boolean"; "date"; "dateTime"; "array"].

Definition v2MongooseProperty : string := "x-swagger-mongoose".
Definition v1MongooseProperty : string := "_mongoose".

Fixpoint propertyMap (fuel : nat) (h : list val) (property : val) : res stype :=
  match fuel with
  | O => Rerr OutOfFuel
  | S fuel' =>
      if nullish property then Rerr (TypeError "type") else
      let type := get h property "type" in
      if is_str type "number" then
        let format := get h property "format" in
        if is_str format "integer" || is_str format "long"
           || is_str format "float" || is_str format "double"
        then Rok SNumber
        else Rerr (UnrecognizedFormat format)
      else if is_str type "integer" || is_str type "long"
              || is_str type "float" || is_str type "double"
      then Rok SNumber
      else if is_str type "string" || is_str type "password" then Rok SString
      else if is_str type "boolean" then Rok SBoolean
      else if is_str type "date" || is_str type "dateTime" then Rok SDate
      else if is_str type "array" then
        match propertyMap fuel' h (get h property "items") with
        | Rok t => Rok (SArrayOf t)
        | Rerr e => Rerr e
        end
      else Rerr (UnrecognizedType type)
  end.

(** [propertyMap] as the compiler calls it, on the store of the moment. *)
Definition propertyMapM (fuel : nat) (property : val) : M stype :=
  h <- get_heap ;; lift (propertyMap fuel h property).

Definition isAllowedType (type : val) : bool :=
  existsb (is_str type) allowedTypes.

Definition isSimpleSchema (schema : val) : M bool :=
  type <- getp schema "type" ;;
  ret (truthy type && isAllowedType type).

Definition isPropertyHasRef (property : val) : M bool :=
  r <- getp property "$ref" ;;
  if truthy r then ret true
  else type <- getp property "type" ;;
       if is_str type "array"
       then items <- getp property "items" ;;
            r' <- getp items "$ref" ;;
            ret (truthy r')
       else ret false.

(** [object[key].f = x] for an [object] the caller owns. *)
Definition assign_in (object : obj) (key : pkey) (f : string) (x : val) : M obj :=
  v <- setp (own_get (VObj object) (key_name key)) f x ;;
  ret (obj_set (key_name key) v object).

Definition fillRequired (object : obj) (key : pkey) (template : val) : M obj :=
  h <- get_heap ;;
  let inArray := match deref h template with
                 | VArr es _ => existsb (fun e => strict_eq_key e key) es
                 | _ => false
                 end in
  if truthy template && inArray then assign_in object key "required" (VBool true)
  else match template with
       | VBool b => assign_in object key "required" (VBool b)
       | _ => ret object
       end.

Definition isAtLeastSwagger2 (st : state) : bool := ge2 (swaggerVersion st).

Definition getMongooseProperty (st : state) : string :=
  if isAtLeastSwagger2 st then v2MongooseProperty else v1MongooseProperty.

Definition mongooseProperty : M string :=
  fun st => Ret (getMongooseProperty st) st.

Definition atLeastSwagger2 : M bool :=
  fun st => Ret (isAtLeastSwagger2 st) st.

Definition isMongooseProperty (property : val) : M bool :=
  mp <- mongooseProperty ;;
  v <- getp property mp ;;
  ret (truthy v).

Definition isMongooseArray (property : val) : M val :=
  items <- getp property "items" ;;
  if truthy items then mp <- mongooseProperty ;; getp items mp
  else ret items.

Definition applyExtraDefinitions (defs _extraDefinitions : val) : M unit :=
  if truthy _extraDefinitions then
    mongooseProperty <- mongooseProperty ;;
    d <- getp _extraDefinitions "default" ;;
    _extraDefinitions <-
    (if negb (truthy d) then ret _extraDefinitions
     else
       let defaultDefs := d in
       _extraDefinitions <- deletep _extraDefinitions "default" ;;
       forEach defs (fun val _ _ =>
         setp val mongooseProperty defaultDefs ;; ret tt) tt ;;
       ret _extraDefinitions) ;;
    let extraDefinitions := _extraDefinitions in
    forEach extraDefinitions (fun val key _ =>
      def <- getp defs (key_name key) ;;
      setp def mongooseProperty val ;; ret tt) tt
  else ret tt.

(** [ref.replace('#/definitions/', '')] *)
Definition replace_definitions (ref : val) : M val :=
  match ref with
  | VStr s => ret (VStr (remove_first "#/definitions/" s))
  | _ => throw (TypeError "replace")
  end.

Definition getMongooseSpecific (fuel : nat) (props : obj) (property : val) : M val :=
  mongooseProperty <- mongooseProperty ;;
  v2 <- atLeastSwagger2 ;;
  mongooseSpecific <- getp property mongooseProperty ;;
  ref <- (if v2 && truthy mongooseSpecific then getp mongooseSpecific "$ref"
          else getp property "$ref") ;;
  isArr <- (if negb (truthy mongooseSpecific)
            then a <- isMongooseArray property ;; ret (truthy a)
            else ret false) ;;
  sr <- (if isArr then
           items <- getp property "items" ;;
           ms <- getp items mongooseProperty ;;
           r <- (if v2 then getp ms "$ref" else getp items "$ref") ;;
           ret (ms, r)
         else ret (mongooseSpecific, ref)) ;;
  let '(mongooseSpecific, ref) := sr in
  if negb (truthy mongooseSpecific) then ret (VObj props) else
  if truthy ref then
    if negb v2 then
      type <- getp mongooseSpecific "type" ;;
      if is_str type "objectId" then
        include <- getp mongooseSpecific "includeSwaggerRef" ;;
        match include with
        | VBool false => ret (VObj [("type", VType SObjectId)])
        | _ => r <- replace_definitions ref ;;
               ret (VObj [("type", VType SObjectId); ("ref", r)])
        end
      else ret (VObj [])
    else
      r <- replace_definitions ref ;;
      ret (VObj [("type", VType SObjectId); ("ref", r)])
  else
    name <- getp mongooseSpecific "validator" ;;
    if truthy name then
      validator <- get_validator name ;;
      ret' <- _extend [] [property; VObj [("validate", validator)]] ;;
      ret (VObj (obj_delete mongooseProperty ret'))
    else
      ret' <- _extend [] [property; mongooseSpecific] ;;
      let ret' := obj_delete mongooseProperty ret' in
      simple <- isSimpleSchema (VObj ret') ;;
      if simple then
        type <- propertyMapM fuel (VObj ret') ;;
        ret (VObj (obj_set "type" (VType type) ret'))
      else ret (VObj ret').

Definition isMongodbReserved (fieldKey : pkey) : bool :=
  match fieldKey with
  | KStr s => String.eqb s "_id" || String.eqb s "__v"
  | KIdx _ => false
  end.

Definition isPolymorphic (def : val) : M val := getp def "allOf".

(** [refString.match(refRegExp)[1]] *)
Definition match_definition (refString : val) : M string :=
  match refString with
  | VStr s => match match_ref s with
              | Some propType => ret propType
              | None => throw (MalformedReference s)
              end
  | _ => throw (TypeError "match")
  end.

(** What [processPolymorphic] does with the definition or the fragment
    [object]: its properties go into [mergedProps], the entries of its
    [required] into [mergedReqs]. *)
Definition merge_from (object : val) (merged : obj * list val)
  : M (obj * list val) :=
  let '(mergedProps, mergedReqs) := merged in
  properties <- getp object "properties" ;;
  mergedProps <- Object_assign mergedProps properties ;;
  required <- getp object "required" ;;
  if truthy required then
    h <- get_heap ;;
    match deref h required with
    | VArr es _ => ret (mergedProps, fold_left set_add es mergedReqs)
    | _ => throw (TypeError "forEach")
    end
  else ret (mergedProps, mergedReqs).

Definition merge_fragment (polyDef : val) (merged : obj * list val)
  : M (obj * list val) :=
  r <- getp polyDef "$ref" ;;
  if truthy r then
    let refString := r in
    propType <- match_definition refString ;;
    definitions <- get_definitions ;;
    object <- getp definitions propType ;;
    merge_from object merged
  else merge_from polyDef merged.

Definition processPolymorphic (definition : val) : M unit :=
  allOf <- getp definition "allOf" ;;
  h <- get_heap ;;
  match deref h allOf with
  | VArr fragments _ =>
      merged <- fold_M merge_fragment fragments ([], []) ;;
      let '(mergedProps, mergedReqs) := merged in
      (match mergedProps with
       | [] => ret tt
       | _ => o <- alloc (VObj mergedProps) ;;
              setp definition "properties" o ;; ret tt
       end) ;;
      (match mergedReqs with
       | [] => ret tt
       | _ => a <- alloc (VArr mergedReqs []) ;;
              setp definition "required" a ;; ret tt
       end) ;;
      deletep definition "allOf" ;; ret tt
  | _ => throw (TypeError "forEach")
  end.

(** The bodies of the three functions that call each other, over the
    functions they call. *)
Section Bodies.
Variable fuel : nat.
Variable getSchema_rec : val -> val -> M val.
Variable getSchemaProperty_rec : val -> pkey -> val -> val -> val -> M val.

Definition processRef (property objectName : val) (props : obj) (key : pkey)
  (required : val) : M obj :=
  r <- getp property "$ref" ;;
  refString <- (if truthy r then ret r
                else items <- getp property "items" ;; getp items "$ref") ;;
  propType <- match_definition refString ;;
  props <-
    (if negb (is_str objectName propType) then
       definitions <- get_definitions ;;
       object <- getp definitions propType ;;
       type <- getp object "type" ;;
       if is_str type "array" || is_str type "object" then
         properties <- getp object "properties" ;;
         schema <- getSchema_rec (VStr propType)
                     (if truthy properties then properties else object) ;;
         items <- getp property "items" ;;
         type <- getp object "type" ;;
         ret (obj_set (key_name key)
                (if truthy items || is_str type "array"
                 then VArr [schema] [] else schema) props)
       else
         clone <- _extend [] [object] ;;
         mongooseProperty <- mongooseProperty ;;
         clone <- alloc (VObj (obj_delete mongooseProperty clone)) ;;
         r <- getSchemaProperty_rec clone key VUndef VUndef VUndef ;;
         schemaProp <- getp r (key_name key) ;;
         items <- getp property "items" ;;
         ret (obj_set (key_name key)
                (if truthy items then VArr [schemaProp] [] else schemaProp)
                props)
     else if negb (String.eqb propType "") then
       ret (obj_set (key_name key)
              (VObj [("type", VType SObjectId); ("ref", VStr propType)]) props)
     else ret props) ;;
  fillRequired props key required.

Definition getSchema_iteratee (required objectName object : val)
  (property : val) (key : pkey) (props : obj) : M obj :=
  schemaProperty <- getSchemaProperty_rec property key required objectName object ;;
  h <- get_heap ;;
  _extend props [inherited h schemaProperty].

(** The second half of [getSchema], from the choice of [object] on. *)
Definition compile_properties (required objectName fullObject : val) : M val :=
  let props : obj := [] in
  properties <- getp fullObject "properties" ;;
  let object := if truthy properties then properties else fullObject in
  props <- forEach object (getSchema_iteratee required objectName object) props ;;
  ret (VObj props).

Definition getSchema_body (objectName fullObject : val) : M val :=
  r <- getp fullObject "required" ;;
  let required := if truthy r then r else VArr [] [] in
  allOf <- isPolymorphic fullObject ;;
  (if truthy allOf then processPolymorphic fullObject else ret tt) ;;
  compile_properties required objectName fullObject.

Definition getSchemaProperty_body (property : val) (key : pkey)
  (required objectName object : val) : M val :=
  let props : obj := [] in
  if isMongodbReserved key then ret VUndef else
  isMongoose <- isMongooseProperty property ;;
  props <-
    (if isMongoose then
       v <- getMongooseSpecific fuel props property ;;
       ret (obj_set (key_name key) v props)
     else
     mongooseArray <- isMongooseArray property ;;
     if truthy mongooseArray then
       v <- getMongooseSpecific fuel props property ;;
       ret (obj_set (key_name key) (VArr [v] []) props)
     else
     hasRef <- isPropertyHasRef property ;;
     if hasRef then processRef property objectName props key required
     else
     allOf <- isPolymorphic property ;;
     if truthy allOf then processPolymorphic property ;; ret props
     else
     type <- getp property "type" ;;
     if negb (truthy type) || is_str type "object" then
       schema <- getSchema_rec (key_val key) property ;;
       ret (obj_set (key_name key) schema props)
     else if negb (is_str type "object") then
       type <- propertyMapM fuel property ;;
       enum <- getp property "enum" ;;
       h <- get_heap ;;
       if truthy enum && is_array (deref h enum)
       then ret (obj_set (key_name key)
                   (VObj [("type", VType type); ("enum", enum)]) props)
       else ret (obj_set (key_name key) (VObj [("type", VType type)]) props)
     else if is_str type "object" then
       schema <- getSchema_rec (key_val key) property ;;
       ret (obj_set (key_name key) schema props)
     else
       simple <- isSimpleSchema object ;;
       if simple then
         type <- propertyMapM fuel object ;;
         ret [("type", VType type)]
       else ret props) ;;
  props <- (if truthy required then fillRequired props key required
            else ret props) ;;
  default <- getp property "default" ;;
  match default with
  | VUndef => ret (VObj props)
  | _ => props <- assign_in props key "default" default ;; ret (VObj props)
  end.
End Bodies.

(** [fuel] bounds how deep the calls of [getSchemaProperty] nest. *)
Fixpoint getSchemaProperty (fuel : nat)
  : val -> pkey -> val -> val -> val -> M val :=
  getSchemaProperty_body (S fuel)
    match fuel with
    | O => fun _ _ => throw OutOfFuel
    | S n => getSchema_body (getSchemaProperty n)
    end
    match fuel with
    | O => fun _ _ _ _ _ => throw OutOfFuel
    | S n => getSchemaProperty n
    end.

Definition getSchema (fuel : nat) : val -> val -> M val :=
  getSchema_body (getSchemaProperty fuel).

Definition processDocumentIndex (schema index : val) : M val :=
  h <- get_heap ;;
  if isEmpty h index then ret schema else
  unique <- getp index "unique" ;;
  let isUniqueIndex := truthy unique in
  index <- deletep index "unique" ;;
  match schema with
  | VSchema object options _ =>
      ret (VSchema object options (Some (index, isUniqueIndex)))
  | _ => throw (TypeError "index")
  end.

Section Collaborators.
(** [JSON.parse], and [require] of a validators module at a path resolved
    against the working directory ([None]: it throws). *)
Variable JSON_parse : string -> option json.
Variable require : string -> option (val -> val).

Definition parse (text : string) : M val :=
  match JSON_parse text with
  | Some j => load_json j
  | None => throw SyntaxError
  end.

Definition convertToJSON (spec : val) : M val :=
  match spec with
  | VBuffer bytes => parse bytes
  | VNull | VRef _ | VObj _ | VArr _ _ | VSchema _ _ _ | VModel _ _ => ret spec
  | VStr text => parse text
  | _ => throw (InvalidInput "Unknown or invalid spec object")
  end.

Definition processMongooseDefinition (key : string) (customOptions : val)
  : M unit :=
  if truthy customOptions then
    o <- getp customOptions "schema-options" ;;
    (if truthy o then
       with_registries (fun x =>
         mkRegistries (obj_set key o (schemaOptions x)) (additionalProperties x)
                      (excludeSchema x) (documentIndex x))
     else ret tt) ;;
    e <- getp customOptions "exclude-schema" ;;
    (if truthy e then
       with_registries (fun x =>
         mkRegistries (schemaOptions x) (additionalProperties x)
                      (obj_set key e (excludeSchema x)) (documentIndex x))
     else ret tt) ;;
    a <- getp customOptions "additional-properties" ;;
    (if truthy a then
       with_registries (fun x =>
         mkRegistries (schemaOptions x) (obj_set key a (additionalProperties x))
                      (excludeSchema x) (documentIndex x))
     else ret tt) ;;
    i <- getp customOptions "index" ;;
    (if truthy i then
       with_registries (fun x =>
         mkRegistries (schemaOptions x) (additionalProperties x)
                      (excludeSchema x) (obj_set key i (documentIndex x)))
     else ret tt) ;;
    v <- getp customOptions "validators" ;;
    if truthy v then
      match v with
      | VStr path => match require path with
                     | Some module => set_validators module
                     | None => throw (ModuleNotFound path)
                     end
      | _ => throw (TypeError "path")
      end
    else ret tt
  else ret tt.

Definition processAdditionalProperties (fuel : nat) (additionalProperties : obj)
  (objectName : val) : M obj :=
  let props : obj := [] in
  customMongooseProperty <- mongooseProperty ;;
  forEach (VObj additionalProperties) (fun property key props =>
    modifiedProperty <- alloc (VObj [(customMongooseProperty, property)]) ;;
    required <- getp property "required" ;;
    r <- getSchemaProperty fuel modifiedProperty key required objectName VUndef ;;
    h <- get_heap ;;
    _extend props [inherited h r]) props.

(** The body of the loop of [compile] over the definitions; [schemas] is
    the object it fills. *)
Definition compile_definition (fuel : nat) (customMongooseProperty : string)
  (definition : val) (key : pkey) (schemas : obj) : M obj :=
  custom <- getp definition customMongooseProperty ;;
  (if truthy custom then processMongooseDefinition (key_name key) custom
   else ret tt) ;;
  x <- get_registries ;;
  let excludedSchema := VObj (excludeSchema x) in
  if truthy (own_get excludedSchema (key_name key)) then ret schemas else
  object <- getSchema fuel (key_val key) definition ;;
  x <- get_registries ;;
  let options := VObj (schemaOptions x) in
  let excludedSchema := VObj (excludeSchema x) in
  options <- _extend [] [own_get options customMongooseProperty;
                         own_get options (key_name key)] ;;
  let excludedSchema :=
    let global := own_get excludedSchema customMongooseProperty in
    if truthy global then global else own_get excludedSchema (key_name key) in
  if truthy object && negb (truthy excludedSchema) then
    let registered := VObj (additionalProperties x) in
    additional <- _extend [] [own_get registered customMongooseProperty;
                              own_get registered (key_name key)] ;;
    additional <- processAdditionalProperties fuel additional (key_val key) ;;
    object <- _extend (own_entries object) [VObj additional] ;;
    let schema := VSchema (VObj object) (VObj options) None in
    x <- get_registries ;;
    schema <- processDocumentIndex schema
                (own_get (VObj (documentIndex x)) (key_name key)) ;;
    ret (obj_set (key_name key) schema schemas)
  else ret schemas.

Definition compile_definitions (fuel : nat) (customMongooseProperty : string)
  (defs : val) : M obj :=
  forEach defs (compile_definition fuel customMongooseProperty) [].

(** The loop of [compile] over the schemas:
    [models[key] = mongoose.model(key, schema)]. *)
Definition register_models (schemas : obj) : M obj :=
  forEach (VObj schemas) (fun schema key models =>
    ret (obj_set (key_name key) (VModel (key_name key) schema) models)) [].

Definition compile (fuel : nat) (spec _extraDefinitions : val) : M val :=
  if negb (truthy spec) then throw (InvalidInput "Swagger spec not supplied") else
  swaggerJSON <- convertToJSON spec ;;
  swagger <- getp swaggerJSON "swagger" ;;
  (if truthy swagger
   then h <- get_heap ;;
        match ToNumber h swagger with
        | Some version => set_swaggerVersion version
        | None => throw (TypeError "primitive value")
        end
   else ret tt) ;;
  defs <- getp swaggerJSON "definitions" ;;
  set_definitions defs ;;
  applyExtraDefinitions defs _extraDefinitions ;;
  customMongooseProperty <- mongooseProperty ;;
  global <- getp swaggerJSON customMongooseProperty ;;
  (if truthy global then processMongooseDefinition customMongooseProperty global
   else ret tt) ;;
  schemas <- compile_definitions fuel customMongooseProperty defs ;;
  models <- register_models schemas ;;
  ret (VObj [("schemas", VObj schemas); ("models", VObj models)]).
End Collaborators.

(** ** Reading results

    [resolve n h v] is [v] with the references it holds replaced by the
    objects they name in [h], down to depth [n]. *)
Fixpoint resolve (n : nat) (h : list val) (v : val) : val :=
  match n with
  | O => v
  | S n' =>
      let fields := map (fun kv => (fst kv, resolve n' h (snd kv))) in
      match v with
      | VRef l => match nth l h VUndef with
                  | VObj fs => VObj (fields fs)
                  | VArr es fs => VArr (map (resolve n' h) es) (fields fs)
                  | d => d
                  end
      | VObj fs => VObj (fields fs)
      | VArr es fs => VArr (map (resolve n' h) es) (fields fs)
      | VSchema o opts idx =>
          VSchema (resolve n' h o) (resolve n' h opts)
            match idx with
            | Some (i, u) => Some (resolve n' h i, u)
            | None => None
            end
      | VModel name sch => VModel name (resolve n' h sch)
      | _ => v
      end
  end.

(** The outcome of a run, for reading: the value with its references
    resolved, or the error. *)
Definition run {A} (c : M A) (st : state) : res A * state :=
  match c st with
  | Ret a st' => (Rok a, st')
  | Throw e st' => (Rerr e, st')
  end.

Definition result_of (c : M val) (st : state) : res val :=
  match c st with
  | Ret a st' => Rok (resolve 64 (heap st') a)
  | Throw e _ => Rerr e
  end.

Definition no_parser : string -> option json := fun _ => None.
Definition no_module : string -> option (val -> val) := fun _ => None.

(** Compiling a decoded document in a state. *)
Definition compile_json (fuel : nat) (doc : json) (extra : option json) : M val :=
  spec <- load_json doc ;;
  _extraDefinitions <- match extra with
                       | Some e => load_json e
                       | None => ret VUndef
                       end ;;
  compile no_parser no_module fuel spec _extraDefinitions.

Definition jstr := JStr.
Definition prop (type : string) : json := JObj [("type", JStr type)].
Definition strings (l : list string) : json := JArr (map JStr l).

Definition House : json :=
  JObj [("required", strings ["lng"; "lat"]);
        ("properties", JObj [("description", prop "string");
                             ("lng", prop "double");
                             ("lat", prop "double")])].

Definition Person : json :=
  JObj [("required", strings ["login"]);
        ("properties",
         JObj [("login", prop "string");
               ("houses", JObj [("type", JStr "array");
                                ("items", JObj [("$ref", JStr "#/definitions/House")])])])].

Definition persons : json :=
  JObj [("swagger", JStr "2.0");
        ("definitions", JObj [("House", House); ("Person", Person)])].

(** ** Descriptions used in the statements *)

(** The reference string [processRef] reads: [property.$ref] when it is
    truthy, [property.items.$ref] otherwise. *)
Definition refString_of (h : list val) (property : val) : val :=
  let r := get h property "$ref" in
  if truthy r then r else get h (get h property "items") "$ref".

(** What [fillRequired] adds to a descriptor it is given. *)
Definition required_facet (h : list val) (required : val) (key : pkey) : obj :=
  let inArray := match deref h required with
                 | VArr es _ => existsb (fun e => strict_eq_key e key) es
                 | _ => false
                 end in
  if truthy required && inArray then [("required", VBool true)]
  else match required with
       | VBool b => [("required", VBool b)]
       | _ => []
       end.

(** The foreign-key descriptor of a reference to [name]. *)
Definition reference_descriptor (name : string) : obj :=
  [("type", VType SObjectId); ("ref", VStr name)].

(** The document [persons] without its version. *)
Definition persons_unversioned : json :=
  JObj [("definitions", JObj [("House", House); ("Person", Person)])].

(** The property map a run compiled for the definition [name], if it
    emitted a schema for it. *)
Definition compiled_map (r : res val) (name : string) : option val :=
  match r with
  | Rok v => match own_get (own_get v "schemas") name with
             | VSchema object _ _ => Some object
             | _ => None
             end
  | Rerr _ => None
  end.

(** The names a run emitted a schema, a model for. *)
Definition emitted (facet : string) (r : res val) : list string :=
  match r with
  | Rok v => map fst (own_entries (own_get v facet))
  | Rerr _ => []
  end.

Definition compiled_House : val :=
  VObj [("description", VObj [("type", VType SString)]);
        ("lng", VObj [("type", VType SNumber); ("required", VBool true)]);
        ("lat", VObj [("type", VType SNumber); ("required", VBool true)])].

(** The state once [compile] has read the version of the document [spec]. *)
Definition version_detected (spec : val) (st : state) : state :=
  let swagger := get (heap st) spec "swagger" in
  match (if truthy swagger then ToNumber (heap st) swagger else None) with
  | Some version =>
      mkState (heap st) (definitions st) version
              (xSwaggerMongoose st) (validators st)
  | None => st
  end.

(** A document with no definitions whose extension block names, as its
    validators module, a number. *)
Definition no_definitions_bad_validators : json :=
  JObj [("swagger", JStr "2.0");
        ("x-swagger-mongoose", JObj [("validators", JNum 1)])].

(** A document with no definitions that sets the global exclusion flag. *)
Definition excluding_all : json :=
  JObj [("swagger", JStr "2.0");
        ("x-swagger-mongoose", JObj [("exclude-schema", JBool true)]);
        ("definitions", JObj [])].

Definition numeric_kinds : list string := ["integer"; "long"; "float"; "double"].

(** [describes h p t]: the descriptor [p] is of a supported kind, all the way
    down its [items], and [t] is the storage type of that kind. *)
Inductive describes (h : list val) : val -> stype -> Prop :=
| describes_numeric p k :
    nullish p = false -> get h p "type" = VStr k -> In k numeric_kinds ->
    describes h p SNumber
| describes_number p f :
    nullish p = false -> get h p "type" = VStr "number" ->
    get h p "format" = VStr f -> In f numeric_kinds ->
    describes h p SNumber
| describes_string p k :
    nullish p = false -> get h p "type" = VStr k -> In k ["string"; "password"] ->
    describes h p SString
| describes_boolean p :
    nullish p = false -> get h p "type" = VStr "boolean" ->
    describes h p SBoolean
| describes_date p k :
    nullish p = false -> get h p "type" = VStr k -> In k ["date"; "dateTime"] ->
    describes h p SDate
| describes_array p t :
    nullish p = false -> get h p "type" = VStr "array" ->
    describes h (get h p "items") t ->
    describes h p (SArrayOf t).

(** What the loop of [compile] emits are schemas. *)
Definition schemas_built (schemas : obj) : Prop :=
  forall name s, In (name, s) schemas ->
    exists object options index, s = VSchema object options index.

(** The variables a registration may change are the registries and the
    validators. *)
Definition same_store (st0 st : state) : Prop :=
  heap st = heap st0 /\ definitions st = definitions st0 /\
  swaggerVersion st = swaggerVersion st0.

(** *** The composition [allOf], fragment by fragment

    The object a fragment contributes is the definition it refers to, or the
    fragment itself; [None] stands for the fragments on which
    [processPolymorphic] throws (a reference that is malformed or to nothing,
    a [required] that is not an array). *)
Definition fragment_object (h : list val) (definitions polyDef : val)
  : option val :=
  if nullish polyDef then None else
  let r := get h polyDef "$ref" in
  if truthy r then
    match r with
    | VStr refString =>
        match match_ref refString with
        | Some propType =>
            if nullish definitions then None
            else Some (get h definitions propType)
        | None => None
        end
    | _ => None
    end
  else Some polyDef.

(** The properties and the required entries a fragment contributes. *)
Definition fragment_parts (h : list val) (definitions polyDef : val)
  : option (obj * list val) :=
  match fragment_object h definitions polyDef with
  | Some object =>
      if nullish object then None else
      let properties := get h object "properties" in
      let required := get h object "required" in
      let entries := if nullish properties then []
                     else own_entries (deref h properties) in
      if truthy required then
        match deref h required with
        | VArr es _ => Some (entries, es)
        | _ => None
        end
      else Some (entries, [])
  | None => None
  end.

Fixpoint all_parts (h : list val) (definitions : val) (fragments : list val)
  : option (list (obj * list val)) :=
  match fragments with
  | [] => Some []
  | polyDef :: fragments' =>
      match fragment_parts h definitions polyDef,
            all_parts h definitions fragments' with
      | Some p, Some ps => Some (p :: ps)
      | _, _ => None
      end
  end.

(** The binding of [k] that comes last in a list of entries. *)
Fixpoint last_binding (k : string) (es : obj) : option val :=
  match es with
  | [] => None
  | (k', v) :: es' =>
      match last_binding k es' with
      | Some v' => Some v'
      | None => if String.eqb k' k then Some v else None
      end
  end.

(** [v] is among [vs], for the equality of a [Set]. *)
Definition member (v : val) (vs : list val) : bool := existsb (same_value v) vs.

(** No value comes twice. *)
Fixpoint distinct (vs : list val) : Prop :=
  match vs with
  | [] => True
  | v :: vs' => member v vs' = false /\ distinct vs'
  end.

(** The [required] that [getSchema] reads on entry. *)
Definition required_on_entry (h : list val) (fullObject : val) : val :=
  let r := get h fullObject "required" in
  if truthy r then r else VArr [] [].

(** Two states that differ in their stores at most. *)
Definition same_variables (st st' : state) : Prop :=
  definitions st' = definitions st /\ swaggerVersion st' = swaggerVersion st /\
  xSwaggerMongoose st' = xSwaggerMongoose st /\ validators st' = validators st.

(** The store once the object [d] has been allocated and written under the
    key [k] of the cell [l]. *)
Definition install (l : nat) (k : string) (d : val) (h : list val) : list val :=
  update l (own_set (nth l (h ++ [d]) VUndef) k (VRef (List.length h))) (h ++ [d]).

(** The store as [processPolymorphic] leaves it for the definition in the
    cell [l], given what it has merged. *)
Definition merged_store (l : nat) (mergedProps : obj) (mergedReqs : list val)
  (h : list val) : list val :=
  let h1 := match mergedProps with
            | [] => h
            | _ => install l "properties" (VObj mergedProps) h
            end in
  let h2 := match mergedReqs with
            | [] => h1
            | _ => install l "required" (VArr mergedReqs []) h1
            end in
  update l (own_delete (nth l h2 VUndef) "allOf") h2.

Definition with_store (h : list val) (st : state) : state :=
  mkState h (definitions st) (swaggerVersion st) (xSwaggerMongoose st)
    (validators st).

Definition is_object (d : val) : bool :=
  match d with VObj _ | VArr _ _ => true | _ => false end.

(** A key that is neither [length] nor an array index. *)
Definition plain_key (k : string) : Prop :=
  String.eqb k "length" = false /\ index_of_key k = None.

(** A store holding, in its last cell, a definition composed of two inline
    fragments that both declare the field [b]; the first requires [a], the
    second [b] and [a]. *)
Definition composed_store : list val :=
  [ VObj [("type", VStr "string")];
    VObj [("type", VStr "string")];
    VObj [("a", VRef 0); ("b", VRef 1)];
    VArr [VStr "a"] [];
    VObj [("required", VRef 3); ("properties", VRef 2)];
    VObj [("type", VStr "integer")];
    VObj [("b", VRef 5)];
    VArr [VStr "b"; VStr "a"] [];
    VObj [("required", VRef 7); ("properties", VRef 6)];
    VArr [VRef 4; VRef 8] [];
    VObj [("allOf", VRef 9)] ].

(** [heap_only c]: of the variables of the module, [c] changes the store at
    most, whether it returns or throws. *)
Definition heap_only {A} (c : M A) : Prop :=
  forall st, match c st with
             | Ret _ st' | Throw _ st' => same_variables st st'
             end.

Definition with_registries_of (x : registries) (st : state) : state :=
  mkState (heap st) (definitions st) (swaggerVersion st) x (validators st).

Definition map_state {A} (f : state -> state) (o : outcome A) : outcome A :=
  match o with
  | Ret a st => Ret a (f st)
  | Throw e st => Throw e (f st)
  end.

(** [registry_blind c]: [c] neither reads nor writes the registries of
    [xSwaggerMongoose]: run with other registries, it does the same and
    leaves those registries in place. *)
Definition registry_blind {A} (c : M A) : Prop :=
  forall x st, c (with_registries_of x st) = map_state (with_registries_of x) (c st).

(** *** Session state between runs *)

Definition with_definitions (d : val) (st : state) : state :=
  mkState (heap st) d (swaggerVersion st) (xSwaggerMongoose st) (validators st).

(** Two outcomes of one computation, run from a state and from the same
    state with [d] as its definition registry, agree: same value and same
    final state, or same error and the same final state but perhaps for the
    registry. *)
Definition agree {A} (d : val) (o o' : outcome A) : Prop :=
  match o, o' with
  | Ret a st, Ret a' st' => a = a' /\ st' = st
  | Throw e st, Throw e' st' => e = e' /\ (st' = st \/ st' = with_definitions d st)
  | _, _ => False
  end.

(** [definitions_blind c]: [c] neither reads nor writes the definition
    registry. *)
Definition definitions_blind {A} (c : M A) : Prop :=
  forall d st, c (with_definitions d st) = map_state (with_definitions d) (c st).

(** Every key of the registry [r] is a key of [r']. *)
Definition registry_grows (r r' : obj) : Prop :=
  forall k, assoc k r <> None -> assoc k r' <> None.

(** What a run keeps of the state it started in: the entries of the four
    registries; the validators, unless it has loaded a module; the version,
    unless it has read one. *)
Definition kept_by (require : string -> option (val -> val)) (st st' : state)
  : Prop :=
  registry_grows (schemaOptions (xSwaggerMongoose st))
                 (schemaOptions (xSwaggerMongoose st')) /\
  registry_grows (additionalProperties (xSwaggerMongoose st))
                 (additionalProperties (xSwaggerMongoose st')) /\
  registry_grows (excludeSchema (xSwaggerMongoose st))
                 (excludeSchema (xSwaggerMongoose st')) /\
  registry_grows (documentIndex (xSwaggerMongoose st))
                 (documentIndex (xSwaggerMongoose st')) /\
  (validators st' = validators st \/
   exists path module, require path = Some module /\ validators st' = module) /\
  (swaggerVersion st' = swaggerVersion st \/
   exists v, truthy v = true /\ swaggerVersion st' = Number v).

Definition keeps {A} (require : string -> option (val -> val)) (c : M A) : Prop :=
  forall st, match c st with
             | Ret _ st' | Throw _ st' => kept_by require st st'
             end.

(** Two runs in a row. *)
Definition compile_after (fuel : nat) (first second : json) : M val :=
  compile_json fuel first None ;; compile_json fuel second None.

(** *** Exclusion *)

(** The exclusion registry of the state marks the key [k]. *)
Definition excluded_in (st : state) (k : string) : bool :=
  truthy (own_get (VObj (excludeSchema (xSwaggerMongoose st))) k).

(** What the loop of [compile] maintains, from the state [st0] it started
    in: what was marked stays marked; a schema has been emitted only under
    a name among [names] that is not marked, the global flag not being set
    at the start. *)
Definition exclusion_respected (mp : string) (st0 : state) (names : list string)
  (schemas : obj) (st : state) : Prop :=
  (forall k, excluded_in st0 k = true -> excluded_in st k = true) /\
  (forall name, In name (map fst schemas) ->
     In name names /\ excluded_in st name = false /\ excluded_in st0 mp = false).

Definition exclusion_block : json :=
  JObj [("exclude-schema", JBool true)].

(** The persons document with [House] excluded. *)
Definition persons_without_House : json :=
  JObj [("swagger", JStr "2.0");
        ("definitions",
         JObj [("House",
                JObj [("required", strings ["lng"; "lat"]);
                      ("properties", JObj [("description", prop "string");
                                           ("lng", prop "double");
                                           ("lat", prop "double")]);
                      ("x-swagger-mongoose", exclusion_block)]);
               ("Person", Person)])].

(** [Composed] is a composition of one inline fragment; [Owner] has a field
    that refers to it.  In [composition_excluded] the composition carries
    the exclusion facet. *)
Definition Composed (block : list (string * json)) : json :=
  JObj (("allOf", JArr [JObj [("properties", JObj [("a", prop "string")])]])
        :: block).

Definition Owner : json :=
  JObj [("properties",
         JObj [("x", JObj [("$ref", JStr "#/definitions/Composed")])])].

Definition composition_included : json :=
  JObj [("swagger", JStr "2.0");
        ("definitions", JObj [("Composed", Composed []); ("Owner", Owner)])].

Definition composition_excluded : json :=
  JObj [("swagger", JStr "2.0");
        ("definitions",
         JObj [("Composed", Composed [("x-swagger-mongoose", exclusion_block)]);
               ("Owner", Owner)])].

Definition owner_then_composition : json :=
  JObj [("swagger", JStr "2.0");
        ("definitions", JObj [("Owner", Owner); ("Composed", Composed [])])].

(** The state [compile] is in when it starts its loop over the definitions
    of the decoded document [doc], the module having just been loaded and
    the document having no extension block of its own. *)
Definition at_loop (doc : json) : state :=
  match load_json doc initial_state with
  | Ret spec st =>
      with_definitions (get (heap st) spec "definitions")
        (version_detected spec st)
  | Throw _ st => st
  end.

(** [getSchema] on the definition [name] of the registry, as the loop calls
    it. *)
Definition getSchema_of (fuel : nat) (name : string) : M val :=
  definitions <- get_definitions ;;
  definition <- getp definitions name ;;
  getSchema fuel (VStr name) definition.

(** *** Extra definitions *)

(** The store once [x] has been written under the key [k] of the cell [l]. *)
Definition set_field (k : string) (h : list val) (w : nat * val) : list val :=
  update (fst w) (own_set (nth (fst w) h VUndef) k (snd w)) h.

(** The cell a name of the definitions object [dfs] refers to. *)
Definition cell_of (dfs : obj) (name : string) : nat :=
  match own_get (VObj dfs) name with
  | VRef l => l
  | _ => 0
  end.

(** The definitions are objects of the store, each in a cell of its own that
    is neither the cell [ld] of the definitions object nor the cell [le] of
    the extra definitions. *)
Definition definition_cells (h : list val) (dfs : obj) (ld le : nat) : Prop :=
  (forall name, In name (obj_keys dfs) ->
     own_get (VObj dfs) name = VRef (cell_of dfs name) /\
     is_object (nth (cell_of dfs name) h VUndef) = true /\
     cell_of dfs name <> ld /\ cell_of dfs name <> le) /\
  (forall n1 n2, In n1 (obj_keys dfs) -> In n2 (obj_keys dfs) ->
     cell_of dfs n1 = cell_of dfs n2 -> n1 = n2).

(** The entries of the extra definitions that are installed one by one: all
    of them, but for a truthy [default]. *)
Definition installed (efs : obj) : obj :=
  if truthy (own_get (VObj efs) "default") then obj_delete "default" efs else efs.

(** The extension block of the definition [name] after
    [applyExtraDefinitions], [old] being its block before. *)
Definition block_after (efs : obj) (name : string) (old : val) : val :=
  match assoc name (installed efs) with
  | Some v => v
  | None => let d := own_get (VObj efs) "default" in
            if truthy d then d else old
  end.

Definition timestamps : json :=
  JObj [("schema-options", JObj [("timestamps", JBool true)])].

(** Extra definitions with a default and an entry for [House]. *)
Definition extra_with_default : json :=
  JObj [("default", timestamps);
        ("House", JObj [("schema-options", JObj [("versionKey", JBool false)])])].

(** The options a run resolved for the schema of [name]. *)
Definition resolved_options (r : res val) (name : string) : option val :=
  match r with
  | Rok v => match own_get (own_get v "schemas") name with
             | VSchema _ options _ => Some options
             | _ => None
             end
  | Rerr _ => None
  end.

(** An object lodash iterates key by key: it has no [length] that would make
    it array-like. *)
Definition keyed (fs : obj) : Prop :=
  is_length (own_get (VObj fs) "length") = None.

(** The store [applyExtraDefinitions] leaves: the default removed from the
    extra definitions, then one write per definition for the default, then
    one write per installed entry. *)
Definition applied_store (mp : string) (dfs efs : obj) (le : nat)
  (h : list val) : list val :=
  let d := own_get (VObj efs) "default" in
  let h_a := if truthy d then update le (VObj (installed efs)) h else h in
  let ws1 := if truthy d then map (fun n => (cell_of dfs n, d)) (obj_keys dfs)
             else [] in
  let ws2 := map (fun n => (cell_of dfs n, own_get (VObj (installed efs)) n))
                 (obj_keys (installed efs)) in
  fold_left (set_field mp) ws2 (fold_left (set_field mp) ws1 h_a).

(** Extra definitions with a default only. *)
Definition default_only : json := JObj [("default", timestamps)].

(** Extra definitions with an entry for a definition the document lacks. *)
Definition entry_for_Garage : json := JObj [("Garage", timestamps)].

(** A store with two definitions, of which [Person] has a block of its own,
    and extra definitions with a default and an entry for [House]. *)
Definition extra_store : list val :=
  [ VObj [("type", VStr "object")];
    VObj [("type", VStr "object"); ("_mongoose", VStr "own")];
    VObj [("House", VRef 0); ("Person", VRef 1)];
    VObj [("schema-options", VObj [("timestamps", VBool true)])];
    VObj [("schema-options", VObj [("versionKey", VBool false)])];
    VObj [("default", VRef 3); ("House", VRef 4)] ].

(** *** Options *)

(** The keys the compiler writes or deletes in objects of the input graph. *)
Definition written : list string :=
  ["required"; "default"; "properties"; "allOf"; "unique"].

(** The field [k] is in [d'] what it is in [d], as a read and as a copy see
    it. *)
Definition same_field (k : string) (d d' : val) : Prop :=
  own_get d' k = own_get d k /\
  last_binding k (own_entries d') = last_binding k (own_entries d).

(** The store [h'] has the cells of [h], with the field [k] as it was. *)
Definition field_kept (k : string) (h h' : list val) : Prop :=
  List.length h <= List.length h' /\
  forall l, l < List.length h -> same_field k (nth l h VUndef) (nth l h' VUndef).

(** [spares k c]: whether it returns or throws, [c] leaves the field [k] of
    the objects of the store as it is. *)
Definition spares {A} (k : string) (c : M A) : Prop :=
  forall st, match c st with
             | Ret _ st' | Throw _ st' => field_kept k (heap st) (heap st')
             end.

(** The [schema-options] of the block of the definition [name], in the
    store [h]. *)
Definition declared_options (h : list val) (defs : val) (mp name : string) : val :=
  get h (get h (get h defs name) mp) "schema-options".

(** The field [field] of the options of the schema of [name], if [schemas] has
    one there. *)
Definition option_of (schemas : obj) (name field : string) : option val :=
  match assoc name schemas with
  | Some (VSchema _ (VObj options) _) => assoc field options
  | _ => None
  end.

(** What the loop of [compile] keeps, turn after turn, of the store [h0] it
    started in: the fields it does not write; schemas under the names it has
    seen only; and for [name], once its schema is there, the option
    [field]. *)
Definition options_kept (h0 : list val) (name field : string) (v : val)
  (names : list string) (schemas : obj) (s : state) : Prop :=
  (forall k, ~ In k written -> field_kept k h0 (heap s)) /\
  (forall n, In n (map fst schemas) -> In n names) /\
  (assoc name schemas <> None -> option_of schemas name field = Some v).

(** A store with a document of one definition, and extra definitions with a
    default that declares [timestamps]. *)
Definition options_store : list val :=
  [ VObj [("type", VStr "string")];
    VObj [("a", VRef 0)];
    VObj [("properties", VRef 1)];
    VObj [("House", VRef 2)];
    VObj [("definitions", VRef 3)];
    VObj [("timestamps", VBool true)];
    VObj [("schema-options", VRef 5)];
    VObj [("default", VRef 6)] ].

(** *** The entry points *)

(** [typeof v] *)
Definition typeof (v : val) : string :=
  match v with
  | VUndef => "undefined"
  | VBool _ => "boolean"
  | VNum _ | VNaN | VInf _ => "number"
  | VStr _ => "string"
  | VType _ | VFun _ => "function"
  | VNull | VRef _ | VObj _ | VArr _ _ | VBuffer _ | VSchema _ _ _
  | VModel _ _ => "object"
  end.

(** What [compile] returns when it finds no definition to compile. *)
Definition empty_result : val :=
  VObj [("schemas", VObj []); ("models", VObj [])].

(** A JSON text that is no object, no array and not [null]. *)
Definition json_scalar (j : json) : bool :=
  match j with
  | JBool _ | JNum _ | JStr _ => true
  | _ => false
  end.

(** The two names of the extension property. *)
Definition extension_keys : list string := [v2MongooseProperty; v1MongooseProperty].

(** *** The compiled map *)

(** What [getSchemaProperty] returns for the field [key]: [undefined], or an
    object with at most that one field, which is not reserved. *)
Definition owned (key : pkey) (v : val) : Prop :=
  v = VUndef \/
  exists o, v = VObj o /\ isMongodbReserved key = false /\
            incl (map fst o) [key_name key].

(** The names of the fields among [keys] that are not reserved. *)
Definition declared (keys : list pkey) : list string :=
  map key_name (filter (fun k => negb (isMongodbReserved k)) keys).

(** The model [mongoose.model] registers for a schema under its name. *)
Definition model_of (entry : string * val) : string * val :=
  (fst entry, VModel (fst entry) (snd entry)).

(** *** References that lead nowhere *)

(** The names every object answers to: the members of [Object.prototype],
    which a read finds when the object has no property of that name. *)
Definition prototype_members : list string :=
  ["constructor"; "hasOwnProperty"; "isPrototypeOf"; "propertyIsEnumerable";
   "toLocaleString"; "toString"; "valueOf"; "__proto__";
   "__defineGetter__"; "__defineSetter__"; "__lookupGetter__";
   "__lookupSetter__"].

(** *** Fields that are no descriptors *)

(** A store with one definition, which has a [type] and no [properties]. *)
Definition bare_object_store : list val :=
  [ VObj [("type", VStr "object")] ].

(** *** Plain fields *)

(** The [enum] facet of a descriptor: kept when it is an array. *)
Definition enum_facet (h : list val) (property : val) : obj :=
  let enum := get h property "enum" in
  if truthy enum && is_array (deref h enum) then [("enum", enum)] else [].

(** The [default] facet: kept unless it is [undefined]. *)
Definition default_facet (h : list val) (property : val) : obj :=
  match get h property "default" with
  | VUndef => []
  | v => [("default", v)]
  end.

(** A property that takes none of the special paths of
    [getSchemaProperty]: it has no extension block, of its own or on its
    items, no reference, of its own or (for an array) on its items, no
    composition, and a type that is not [object]. *)
Definition plain_property (st : state) (property : val) : Prop :=
  let h := heap st in
  let mp := getMongooseProperty st in
  let items := get h property "items" in
  let type := get h property "type" in
  nullish property = false /\
  truthy (get h property mp) = false /\
  (truthy items = true -> truthy (get h items mp) = false) /\
  truthy (get h property "$ref") = false /\
  (is_str type "array" = true ->
   nullish items = false /\ truthy (get h items "$ref") = false) /\
  truthy (get h property "allOf") = false /\
  truthy type = true /\ is_str type "object" = false.

(** *** Indexes *)

(** A store with an index block that asks for a unique index on [email]. *)
Definition index_store : list val :=
  [ VObj [("email", VNum 1%Q); ("unique", VBool true)] ].

(** The descriptor of a plain property, when the Type Mapper accepts it. *)
Definition plain_descriptor (fuel : nat) (h : list val) (required : val)
  (key : pkey) (property : val) : val :=
  match propertyMap (S fuel) h property with
  | Rok t =>
      VObj ((("type", VType t) :: enum_facet h property)
            ++ (if truthy required then required_facet h required key else [])
            ++ default_facet h property)
  | Rerr _ => VUndef
  end.

(** The field the plain property under [key] of [object] compiles to. *)
Definition plain_entry (fuel : nat) (h : list val) (required object : val)
  (key : pkey) : string * val :=
  (key_name key, plain_descriptor fuel h required key (get_key h object key)).

(** A store with the definition [House] of the example document. *)
Definition house_store : list val :=
  [ VObj [("type", VStr "string")];
    VObj [("type", VStr "number"); ("format", VStr "double")];
    VObj [("type", VStr "number"); ("format", VStr "double")];
    VObj [("description", VRef 0); ("lng", VRef 1); ("lat", VRef 2)];
    VArr [VStr "lng"; VStr "lat"] [];
    VObj [("required", VRef 4); ("properties", VRef 3)] ].

(** A key that is not reserved. *)
Definition unreserved_key (k : pkey) : bool := negb (isMongodbReserved k).

(** *** Overrides *)

(** The field [k] of a property once its extension block is laid over it:
    the block's, if it has one, else the property's. *)
Definition overridden (h : list val) (property block : val) (k : string)
  : option val :=
  match last_binding k (own_entries (deref h block)) with
  | Some v => Some v
  | None => last_binding k (own_entries (deref h property))
  end.

(** The property with the fields of its extension block written over its
    own, and without its extension property [mp]. *)
Definition overriding (h : list val) (property block : val) (mp : string) : val :=
  VObj (obj_delete mp (extend h [] [property; block])).

(** The reference [getMongooseSpecific] looks at: the block's from version 2
    on, the property's before. *)
Definition consulted_reference (st : state) (property block : val) : val :=
  if isAtLeastSwagger2 st then get (heap st) block "$ref"
  else get (heap st) property "$ref".

(** *** Fields named [__proto__] *)

(** A definition whose only field, [__proto__], has an extension block
    with a facet [_id]; and one with a plain field [__proto__] before a
    plain field [b]. *)
Definition Smuggler : json :=
  JObj [("properties",
         JObj [("__proto__",
                JObj [("x-swagger-mongoose",
                       JObj [("_id", JObj [("type", JStr "string")])])])])].

Definition Shadowed : json :=
  JObj [("properties",
         JObj [("__proto__", prop "string"); ("b", prop "integer")])].

(** The module when it has read the version 2 and nothing else. *)
Definition version2 : state :=
  mkState [] VNull (VNum 2) initial_registries (fun _ => VUndef).

(** [getSchema] on a decoded definition. *)
Definition getSchema_json (fuel : nat) (name : string) (definition : json)
  : M val :=
  fullObject <- load_json definition ;;
  getSchema fuel (VStr name) fullObject.

(** *** References to a definition that refers to itself *)

(** [Node] has a field that refers to [Node]; [Chain] has a field that
    refers to [Node].  [facets] are the other facets of [Node]. *)
Definition Node (facets : list (string * json)) : json :=
  JObj (facets ++
        [("properties",
          JObj [("next", JObj [("$ref", JStr "#/definitions/Node")])])]).

Definition Chain : json :=
  JObj [("properties",
         JObj [("head", JObj [("$ref", JStr "#/definitions/Node")])])].

Definition chain_of_nodes (facets : list (string * json)) : json :=
  JObj [("swagger", JStr "2.0");
        ("definitions", JObj [("Chain", Chain); ("Node", Node facets)])].

Definition node_alone : json :=
  JObj [("swagger", JStr "2.0"); ("definitions", JObj [("Node", Node [])])].

(** The store holds the definitions of [chain_of_nodes []] where the
    decoding puts them, and the registry is its [definitions]. *)
Definition chain_loaded (st : state) : Prop :=
  nth 0 (heap st) VUndef = VObj [("$ref", VStr "#/definitions/Node")] /\
  nth 1 (heap st) VUndef = VObj [("head", VRef 0)] /\
  nth 2 (heap st) VUndef = VObj [("properties", VRef 1)] /\
  nth 3 (heap st) VUndef = VObj [("$ref", VStr "#/definitions/Node")] /\
  nth 4 (heap st) VUndef = VObj [("next", VRef 3)] /\
  nth 5 (heap st) VUndef = VObj [("properties", VRef 4)] /\
  nth 6 (heap st) VUndef = VObj [("Chain", VRef 2); ("Node", VRef 5)] /\
  definitions st = VRef 6.

(** The computation ran out of fuel. *)
Definition runs_out {A} (o : outcome A) : Prop :=
  match o with
  | Throw OutOfFuel _ => True
  | _ => False
  end.

(** With fuel [n], compiling a property that refers to [Node] for an owner
    of another name, and compiling a copy of [Node] as a property, run out
    of fuel. *)
Definition reference_diverges (n : nat) : Prop :=
  forall st l key name required object,
    chain_loaded st -> getMongooseProperty st = v2MongooseProperty ->
    nth l (heap st) VUndef = VObj [("$ref", VStr "#/definitions/Node")] ->
    isMongodbReserved (KStr key) = false -> key <> "Node" -> name <> "Node" ->
    runs_out (getSchemaProperty n (VRef l) (KStr key) required (VStr name)
                object st).

Definition clone_diverges (n : nat) : Prop :=
  forall st c key,
    chain_loaded st -> getMongooseProperty st = v2MongooseProperty ->
    nth c (heap st) VUndef = VObj [("properties", VRef 4)] ->
    isMongodbReserved (KStr key) = false -> key <> "Node" ->
    runs_out (getSchemaProperty n (VRef c) (KStr key) VUndef VUndef VUndef st).

(** *** References to a composition *)

(** [Part] is of type [object], has a field [own] and is composed of two
    fragments; [Whole] has a field that refers to [Part]. *)
Definition Part : json :=
  JObj [("type", JStr "object");
        ("properties", JObj [("own", prop "string")]);
        ("allOf",
         JArr [JObj [("properties", JObj [("a", prop "string");
                                          ("b", prop "string")])];
               JObj [("properties", JObj [("b", prop "integer")])]])].

Definition Whole : json :=
  JObj [("properties",
         JObj [("r", JObj [("$ref", JStr "#/definitions/Part")])])].

Definition whole_then_part : json :=
  JObj [("swagger", JStr "2.0");
        ("definitions", JObj [("Whole", Whole); ("Part", Part)])].

Definition part_then_whole : json :=
  JObj [("swagger", JStr "2.0");
        ("definitions", JObj [("Part", Part); ("Whole", Whole)])].

(** ** Specifications of computations

    [triple P c Q]: from a state where [P] holds, if [c] returns, then [Q]
    holds of its value and final state.  [returns P c Q]: from such a state
    [c] does return, and [Q] holds. *)
Definition triple {A} (P : state -> Prop) (c : M A) (Q : A -> state -> Prop)
  : Prop :=
  forall st, P st ->
    match c st with
    | Ret a st' => Q a st'
    | Throw _ _ => True
    end.

(** [yields c Q]: whenever [c] returns, [Q] holds of its value. *)
Definition yields {A} (c : M A) (Q : A -> Prop) : Prop :=
  forall st a st', c st = Ret a st' -> Q a.

Definition returns {A} (P : state -> Prop) (c : M A) (Q : A -> state -> Prop)
  : Prop :=
  forall st, P st -> exists a st', c st = Ret a st' /\ Q a st'.

(** * Properties *)

Lemma is_str_eq v s : is_str v s = true <-> v = VStr s.
Proof.
  destruct v; simpl; try (split; [discriminate | intros H; discriminate H]).
  rewrite String.eqb_eq. split; [intros -> | intros [= ->]]; reflexivity.
Qed.

Lemma is_str_neq v s : is_str v s = false <-> v <> VStr s.
Proof.
  rewrite <- is_str_eq. destruct (is_str v s); split; congruence.
Qed.

Lemma is_str_refl s : is_str (VStr s) s = true.
Proof. apply is_str_eq. reflexivity. Qed.


(** ** The Type Mapper *)

Lemma propertyMap_unfold h n p :
  propertyMap (S n) h p =
  if nullish p then Rerr (TypeError "type") else
  let type := get h p "type" in
  if is_str type "number" then
    let format := get h p "format" in
    if is_str format "integer" || is_str format "long"
       || is_str format "float" || is_str format "double"
    then Rok SNumber
    else Rerr (UnrecognizedFormat format)
  else if is_str type "integer" || is_str type "long"
          || is_str type "float" || is_str type "double"
  then Rok SNumber
  else if is_str type "string" || is_str type "password" then Rok SString
  else if is_str type "boolean" then Rok SBoolean
  else if is_str type "date" || is_str type "dateTime" then Rok SDate
  else if is_str type "array" then
    match propertyMap n h (get h p "items") with
    | Rok t => Rok (SArrayOf t)
    | Rerr e => Rerr e
    end
  else Rerr (UnrecognizedType type).
Proof. reflexivity. Qed.

(** Rewrites the tests [is_str (VStr k) lit] on literals to their values. *)
Ltac kinds := cbn [is_str String.eqb Ascii.eqb Bool.eqb orb andb negb].

Lemma propertyMap_mono h n : forall p t,
  propertyMap n h p = Rok t -> forall m, n <= m -> propertyMap m h p = Rok t.
Proof.
  induction n as [|n IH]; intros p t H m Hm; [discriminate|].
  destruct m as [|m]; [lia|].
  rewrite propertyMap_unfold in *. cbv zeta in *.
  destruct (nullish p); [discriminate|].
  repeat match type of H with
         | (if ?c then _ else _) = _ => destruct c; [exact H|]
         end.
  destruct (is_str (get h p "type") "array"); [|discriminate].
  destruct (propertyMap n h (get h p "items")) as [t'|e] eqn:E; [|discriminate].
  rewrite (IH _ _ E m) by lia. exact H.
Qed.

Lemma describes_total h p t :
  describes h p t -> exists N, forall n, N <= n -> propertyMap n h p = Rok t.
Proof.
  induction 1 as [p k Hn Ht Hk|p f Hn Ht Hf Hk|p k Hn Ht Hk|p Hn Ht|p k Hn Ht Hk
                 |p t Hn Ht _ [N IH]].
  6: { exists (S N). intros [|n] Hle; [lia|].
       rewrite propertyMap_unfold, Hn, Ht. kinds. rewrite IH by lia. reflexivity. }
  4: { exists 1. intros [|n] Hle; [lia|].
       rewrite propertyMap_unfold, Hn, Ht. reflexivity. }
  all: exists 1; intros [|n] Hle; [lia|]; rewrite propertyMap_unfold, Hn, Ht;
    try rewrite Hf; cbv zeta; simpl in Hk; intuition (subst; reflexivity).
Qed.

(** C1. The Type Mapper, kind by kind.  For a descriptor [property] (any
    value but [undefined] and [null]) read in a store [h]: the kinds integer,
    long, float and double, and the kind number with one of these as its
    format, give [Number]; string and password give [String]; boolean gives
    [Boolean]; date and dateTime give [Date]; array gives the array of what
    its [items] give (and fails as they fail); number with another format
    fails with [UnrecognizedFormat], any kind outside the supported ones with
    [UnrecognizedType].  A descriptor of supported kinds all the way down
    gets its storage type with enough fuel.  The answer is a function of the
    store and the descriptor, and a call leaves the state as it was. *)
Theorem propertyMap_by_kind (h : list val) (property : val) :
  nullish property = false ->
  let type := get h property "type" in
  let format := get h property "format" in
  (forall k n, In k numeric_kinds -> type = VStr k ->
     propertyMap (S n) h property = Rok SNumber) /\
  (forall f n, type = VStr "number" -> In f numeric_kinds -> format = VStr f ->
     propertyMap (S n) h property = Rok SNumber) /\
  (forall k n, In k ["string"; "password"] -> type = VStr k ->
     propertyMap (S n) h property = Rok SString) /\
  (forall n, type = VStr "boolean" ->
     propertyMap (S n) h property = Rok SBoolean) /\
  (forall k n, In k ["date"; "dateTime"] -> type = VStr k ->
     propertyMap (S n) h property = Rok SDate) /\
  (forall n, type = VStr "array" ->
     propertyMap (S n) h property =
     match propertyMap n h (get h property "items") with
     | Rok t => Rok (SArrayOf t)
     | Rerr e => Rerr e
     end) /\
  (forall n, type = VStr "number" ->
     (forall f, In f numeric_kinds -> format <> VStr f) ->
     propertyMap (S n) h property = Rerr (UnrecognizedFormat format)) /\
  (forall n, (forall k, In k allowedTypes -> type <> VStr k) ->
     propertyMap (S n) h property = Rerr (UnrecognizedType type)) /\
  (forall t, describes h property t ->
     exists N, forall n, N <= n -> propertyMap n h property = Rok t) /\
  (forall n st, match propertyMapM n property st with
                | Ret _ st' | Throw _ st' => st' = st
                end).
Proof.
  intros Hn type format. subst type format.
  repeat split.
  - intros k n Hk Ht. rewrite propertyMap_unfold, Hn, Ht. simpl in Hk.
    intuition (subst; reflexivity).
  - intros f n Ht Hk Hf. rewrite propertyMap_unfold, Hn, Ht, Hf. simpl in Hk.
    intuition (subst; reflexivity).
  - intros k n Hk Ht. rewrite propertyMap_unfold, Hn, Ht. simpl in Hk.
    intuition (subst; reflexivity).
  - intros n Ht. rewrite propertyMap_unfold, Hn, Ht. reflexivity.
  - intros k n Hk Ht. rewrite propertyMap_unfold, Hn, Ht. simpl in Hk.
    intuition (subst; reflexivity).
  - intros n Ht. rewrite propertyMap_unfold, Hn, Ht. reflexivity.
  - intros n Ht Hf. rewrite propertyMap_unfold, Hn, Ht. kinds. cbv zeta.
    assert (E : forall f, In f numeric_kinds ->
                          is_str (get h property "format") f = false).
    { intros f Hin. apply is_str_neq. auto. }
    rewrite !E by (simpl; auto). reflexivity.
  - intros n Hk. rewrite propertyMap_unfold, Hn. cbv zeta.
    assert (E : forall k, In k allowedTypes ->
                          is_str (get h property "type") k = false).
    { intros k Hin. apply is_str_neq. auto. }
    rewrite !E by (simpl; auto 12). reflexivity.
  - apply describes_total.
  - intros n st. unfold propertyMapM, bind, get_heap, lift.
    destruct (propertyMap n (heap st) property); reflexivity.
Qed.

Lemma propertyMap_by_kind_witness :
  propertyMap 1 [VObj [("type", VStr "double")]] (VRef 0) = Rok SNumber /\
  propertyMap 2 [VObj [("type", VStr "array");
                       ("items", VObj [("type", VStr "dateTime")])]] (VRef 0)
  = Rok (SArrayOf SDate).
Proof.
  split.
  - apply (proj1 (propertyMap_by_kind [VObj [("type", VStr "double")]] (VRef 0)
                    eq_refl) "double" 0); [simpl; auto | reflexivity].
  - pose proof (propertyMap_by_kind
                  [VObj [("type", VStr "array");
                         ("items", VObj [("type", VStr "dateTime")])]] (VRef 0)
                  eq_refl) as H.
    cbv zeta in H.
    rewrite (proj1 (proj2 (proj2 (proj2 (proj2 (proj2 H))))) 1 eq_refl).
    reflexivity.
Defined.


(** ** Running the monad *)

Lemma bind_Ret {A B} (c : M A) (k : A -> M B) st a st1 :
  c st = Ret a st1 -> bind c k st = k a st1.
Proof. unfold bind. intros ->. reflexivity. Qed.

Lemma bind_Throw {A B} (c : M A) (k : A -> M B) st e st1 :
  c st = Throw e st1 -> bind c k st = Throw e st1.
Proof. unfold bind. intros ->. reflexivity. Qed.

Lemma bind_inv {A B} (c : M A) (k : A -> M B) st b st' :
  bind c k st = Ret b st' -> exists a st1, c st = Ret a st1 /\ k a st1 = Ret b st'.
Proof.
  unfold bind. destruct (c st) as [a st1|e st1]; [eauto|discriminate].
Qed.

Lemma bind_ext {A B} (c : M A) (k1 k2 : A -> M B) st :
  (forall a st1, k1 a st1 = k2 a st1) -> bind c k1 st = bind c k2 st.
Proof. intros H. unfold bind. destruct (c st); [apply H|reflexivity]. Qed.

Lemma getp_ok v k st :
  nullish v = false -> getp v k st = Ret (get (heap st) v k) st.
Proof. unfold getp. intros ->. reflexivity. Qed.

(** ** Association lists *)

Lemma assoc_obj_set_same k v fs : assoc k (obj_set k v fs) = Some v.
Proof.
  induction fs as [|[k' v'] fs IH]; simpl.
  - rewrite String.eqb_refl. reflexivity.
  - destruct (String.eqb k' k) eqn:E; simpl.
    + rewrite String.eqb_refl. reflexivity.
    + rewrite E. exact IH.
Qed.

Lemma assoc_obj_set_other k k' v fs :
  k' <> k -> assoc k' (obj_set k v fs) = assoc k' fs.
Proof.
  intros Hne. induction fs as [|[k0 v0] fs IH]; simpl.
  - destruct (String.eqb k k') eqn:E; [apply String.eqb_eq in E; congruence|reflexivity].
  - destruct (String.eqb k0 k) eqn:E; simpl.
    + apply String.eqb_eq in E. subst k0.
      destruct (String.eqb k k') eqn:E'; [apply String.eqb_eq in E'; congruence|reflexivity].
    + destruct (String.eqb k0 k'); [reflexivity|exact IH].
Qed.

Lemma obj_set_twice k v v' fs : obj_set k v' (obj_set k v fs) = obj_set k v' fs.
Proof.
  induction fs as [|[k0 v0] fs IH]; simpl.
  - rewrite String.eqb_refl. reflexivity.
  - destruct (String.eqb k0 k) eqn:E; simpl.
    + rewrite String.eqb_refl. reflexivity.
    + rewrite E, IH. reflexivity.
Qed.

(** ** The reference pattern *)

Lemma strip_prefix_spec p : forall s r,
  strip_prefix p s = Some r <-> s = (p ++ r)%string.
Proof.
  induction p as [|a p IH]; intros s r; simpl.
  - split; [intros [= ->]|intros ->]; reflexivity.
  - destruct s as [|b s]; [split; discriminate|].
    destruct (Ascii.eqb a b) eqn:E.
    + apply Ascii.eqb_eq in E. subst b. rewrite IH.
      split; [intros ->; reflexivity|intros [= ->]; reflexivity].
    + split; [discriminate|]. intros [= <- _]. rewrite Ascii.eqb_refl in E.
      discriminate.
Qed.

Lemma match_ref_Some s name :
  match_ref s = Some name <-> s = ("#/definitions/" ++ name)%string /\ all_word name = true.
Proof.
  unfold match_ref.
  destruct (strip_prefix "#/definitions/" s) as [r|] eqn:E.
  - apply strip_prefix_spec in E. subst s.
    destruct (all_word r) eqn:W; split.
    + intros [= <-]. auto.
    + intros [H _]. apply strip_prefix_spec in H.
      rewrite (proj2 (strip_prefix_spec _ _ _) eq_refl) in H. exact H.
    + discriminate.
    + intros [H W']. apply strip_prefix_spec in H.
      rewrite (proj2 (strip_prefix_spec _ _ _) eq_refl) in H.
      injection H as ->. congruence.
  - split; [discriminate|]. intros [H _].
    apply strip_prefix_spec in H. congruence.
Qed.

Lemma match_ref_None s :
  match_ref s = None <->
  forall name, s = ("#/definitions/" ++ name)%string -> all_word name = false.
Proof.
  split.
  - intros H name Hs. destruct (all_word name) eqn:W; [|reflexivity].
    rewrite (proj2 (match_ref_Some s name) (conj Hs W)) in H. discriminate.
  - intros H. destruct (match_ref s) as [name|] eqn:E; [|reflexivity].
    apply match_ref_Some in E. destruct E as [Hs W].
    rewrite (H name Hs) in W. discriminate.
Qed.

(** ** The Reference Resolver *)

(** The first two lines of [processRef]: reading the reference string. *)
Ltac read_refString Hn Hi T :=
  unfold processRef, refString_of in *;
  unfold bind at 1 2; rewrite getp_ok by exact Hn;
  match goal with
  | |- context [truthy (get ?h ?p "$ref")] =>
      destruct (truthy (get h p "$ref")) eqn:T;
      [ unfold ret at 1
      | unfold bind at 1; rewrite getp_ok by exact Hn;
        rewrite getp_ok by (apply Hi; reflexivity) ]
  end.

(** C8. A reference string that is not [#/definitions/<name>] with a name of
    word characters makes [processRef] fail with [MalformedReference] (the
    error raised on reading the group of the failed match), whatever the
    functions it would go on to call, at once and with the state untouched. *)
Theorem processRef_malformed_reference
  (gs : val -> val -> M val) (gsp : val -> pkey -> val -> val -> val -> M val)
  (property objectName : val) (props : obj) (key : pkey) (required : val)
  (st : state) (s : string) :
  nullish property = false ->
  (truthy (get (heap st) property "$ref") = false ->
   nullish (get (heap st) property "items") = false) ->
  refString_of (heap st) property = VStr s ->
  (forall name, s = ("#/definitions/" ++ name)%string -> all_word name = false) ->
  processRef gs gsp property objectName props key required st
  = Throw (MalformedReference s) st.
Proof.
  intros Hn Hi Hs Hbad.
  read_refString Hn Hi T; rewrite Hs; unfold bind, match_definition;
    rewrite (proj2 (match_ref_None s) Hbad); reflexivity.
Qed.

Lemma processRef_malformed_reference_witness :
  processRef (fun _ _ => ret VUndef) (fun _ _ _ _ _ => ret VUndef)
    (VObj [("$ref", VStr "#/components/House")]) (VStr "Person") []
    (KStr "home") VUndef initial_state
  = Throw (MalformedReference "#/components/House") initial_state.
Proof.
  apply processRef_malformed_reference.
  - reflexivity.
  - discriminate.
  - reflexivity.
  - intros name H. discriminate H.
Defined.

Lemma fillRequired_descriptor props key required d st :
  assoc "required" d = None ->
  (forall b, obj_set "required" (VBool b) d = d ++ [("required", VBool b)]) ->
  fillRequired (obj_set (key_name key) (VObj d) props) key required st
  = Ret (obj_set (key_name key)
           (VObj (d ++ required_facet (heap st) required key)) props) st.
Proof.
  intros _ Hset. unfold fillRequired, required_facet, bind, get_heap.
  assert (A : forall b,
    assign_in (obj_set (key_name key) (VObj d) props) key "required" (VBool b) st
    = Ret (obj_set (key_name key) (VObj (d ++ [("required", VBool b)])) props) st).
  { intros b. unfold assign_in, bind. simpl own_get.
    rewrite assoc_obj_set_same. simpl. unfold ret.
    rewrite obj_set_twice, Hset. reflexivity. }
  destruct (truthy required && _)%bool; [apply A|].
  destruct required; try (rewrite app_nil_r; reflexivity). apply A.
Qed.

(** X12. A reference to the owner.  A property whose reference (its own
    or that of its items) names the owner [processRef] is given, the name
    being a non-empty word and the key not [__proto__], makes [processRef]
    return at once: whatever the functions it would call for another
    target, they are not called; the property map gets, under the key, the
    descriptor of a foreign key (the [ObjectId] type and the name), with
    the [required] facet [fillRequired] adds; the state is untouched. *)
Theorem processRef_self_reference
  (gs : val -> val -> M val) (gsp : val -> pkey -> val -> val -> val -> M val)
  (property : val) (name : string) (props : obj) (key : pkey) (required : val)
  (st : state) :
  nullish property = false ->
  (truthy (get (heap st) property "$ref") = false ->
   nullish (get (heap st) property "items") = false) ->
  refString_of (heap st) property = VStr ("#/definitions/" ++ name) ->
  all_word name = true ->
  name <> "" ->
  key_name key <> "__proto__" ->
  processRef gs gsp property (VStr name) props key required st
  = Ret (obj_set (key_name key)
           (VObj (reference_descriptor name
                  ++ required_facet (heap st) required key)) props) st.
Proof.
  intros Hn Hi Hs Hw Hne _.
  assert (Hm : match_ref ("#/definitions/" ++ name) = Some name)
    by (apply match_ref_Some; auto).
  assert (He : String.eqb name "" = false)
    by (apply String.eqb_neq; exact Hne).
  read_refString Hn Hi T; rewrite Hs; unfold bind at 1 2;
    unfold match_definition; rewrite Hm; unfold ret at 1;
    rewrite is_str_refl, He; cbn [negb]; unfold ret at 1;
    apply fillRequired_descriptor; reflexivity.
Qed.

Lemma processRef_self_reference_witness :
  processRef (fun _ _ => throw OutOfFuel) (fun _ _ _ _ _ => throw OutOfFuel)
    (VRef 0) (VStr "Node") [] (KStr "next") (VRef 1)
    (mkState [VObj [("$ref", VStr "#/definitions/Node")]; VArr [VStr "next"] []]
       VNull VNull initial_registries (fun _ => VUndef))
  = Ret [("next", VObj [("type", VType SObjectId); ("ref", VStr "Node");
                        ("required", VBool true)])]
      (mkState [VObj [("$ref", VStr "#/definitions/Node")]; VArr [VStr "next"] []]
         VNull VNull initial_registries (fun _ => VUndef)).
Proof.
  apply (processRef_self_reference _ _ (VRef 0) "Node" [] (KStr "next") (VRef 1)).
  - reflexivity.
  - discriminate.
  - reflexivity.
  - reflexivity.
  - discriminate.
  - discriminate.
Defined.

(** ** The scenario of the persons document *)

(** C5. With [House] and [Person] as in the example document, declared as
    Swagger 2.0 or with no version, and fuel for two levels of nesting,
    [compile] succeeds; the property map of [Person] has [login] as a
    required [String] and [houses] as the array of the compiled map of
    [House], in which [description] is a [String] with no [required] facet
    and [lng] and [lat] are required [Number]s; that map is also what is
    compiled for [House] itself. *)
Theorem compile_persons (fuel : nat) (doc : json) :
  2 <= fuel ->
  doc = persons \/ doc = persons_unversioned ->
  let r := result_of (compile_json fuel doc None) initial_state in
  compiled_map r "Person"
  = Some (VObj [("login", VObj [("type", VType SString); ("required", VBool true)]);
                ("houses", VArr [compiled_House] [])]) /\
  compiled_map r "House" = Some compiled_House /\
  emitted "schemas" r = ["House"; "Person"] /\
  emitted "models" r = ["House"; "Person"].
Proof.
  intros Hf Hd.
  destruct fuel as [|[|[|m]]]; try lia; destruct Hd as [-> | ->];
    vm_compute; repeat split; reflexivity.
Qed.

Lemma compile_persons_witness :
  compiled_map (result_of (compile_json 2 persons None) initial_state) "House"
  = Some compiled_House.
Proof.
  apply (compile_persons 2 persons); [apply le_n | left; reflexivity].
Defined.

(** ** Rules for [triple] and [returns] *)

Lemma triple_ret {A} (P : state -> Prop) (a : A) (Q : A -> state -> Prop) :
  (forall st, P st -> Q a st) -> triple P (ret a) Q.
Proof. intros H st HP. apply H, HP. Qed.

Lemma triple_throw {A} (P : state -> Prop) e (Q : A -> state -> Prop) :
  triple P (throw e) Q.
Proof. intros st _. exact I. Qed.

Lemma triple_bind {A B} (P : state -> Prop) (c : M A) (k : A -> M B)
  (Q : A -> state -> Prop) (R : B -> state -> Prop) :
  triple P c Q -> (forall a, triple (Q a) (k a) R) -> triple P (bind c k) R.
Proof.
  intros Hc Hk st HP. unfold bind. specialize (Hc st HP).
  destruct (c st) as [a st1|e st1]; [apply Hk, Hc|exact I].
Qed.

Lemma triple_conseq {A} (P P' : state -> Prop) (c : M A)
  (Q Q' : A -> state -> Prop) :
  triple P' c Q' -> (forall st, P st -> P' st) ->
  (forall a st, Q' a st -> Q a st) -> triple P c Q.
Proof.
  intros H HP HQ st Hst. specialize (H st (HP st Hst)).
  destruct (c st); auto.
Qed.

Lemma triple_inv {A} (P : state -> Prop) (c : M A) (Q : A -> state -> Prop)
  st a st' :
  triple P c Q -> P st -> c st = Ret a st' -> Q a st'.
Proof. intros H HP E. specialize (H st HP). rewrite E in H. exact H. Qed.

Lemma triple_pure {A} (P : state -> Prop) (f : state -> A)
  (Q : A -> state -> Prop) :
  (forall st, P st -> Q (f st) st) -> triple P (fun st => Ret (f st) st) Q.
Proof. intros H st HP. apply H, HP. Qed.

Lemma triple_getp (P : state -> Prop) v k (Q : val -> state -> Prop) :
  (forall st, P st -> nullish v = false -> Q (get (heap st) v k) st) ->
  triple P (getp v k) Q.
Proof.
  intros H st HP. unfold getp. destruct (nullish v) eqn:E; [exact I|].
  apply H; auto.
Qed.

Lemma returns_ret {A} (P : state -> Prop) (a : A) (Q : A -> state -> Prop) :
  (forall st, P st -> Q a st) -> returns P (ret a) Q.
Proof. intros H st HP. exists a, st. split; [reflexivity|apply H, HP]. Qed.

Lemma returns_bind {A B} (P : state -> Prop) (c : M A) (k : A -> M B)
  (Q : A -> state -> Prop) (R : B -> state -> Prop) :
  returns P c Q -> (forall a, returns (Q a) (k a) R) -> returns P (bind c k) R.
Proof.
  intros Hc Hk st HP. destruct (Hc st HP) as (a & st1 & E & HQ).
  destruct (Hk a st1 HQ) as (b & st2 & E2 & HR).
  exists b, st2. split; [|exact HR]. unfold bind. rewrite E. exact E2.
Qed.

Lemma returns_conseq {A} (P P' : state -> Prop) (c : M A)
  (Q Q' : A -> state -> Prop) :
  returns P' c Q' -> (forall st, P st -> P' st) ->
  (forall a st, Q' a st -> Q a st) -> returns P c Q.
Proof.
  intros H HP HQ st Hst. destruct (H st (HP st Hst)) as (a & st' & E & HQ').
  exists a, st'. auto.
Qed.

Lemma returns_pure {A} (P : state -> Prop) (f : state -> A * state)
  (Q : A -> state -> Prop) :
  (forall st, P st -> Q (fst (f st)) (snd (f st))) ->
  returns P (fun st => Ret (fst (f st)) (snd (f st))) Q.
Proof. intros H st HP. do 2 eexists. split; [reflexivity|apply H, HP]. Qed.

Lemma returns_getp (P : state -> Prop) v k (Q : val -> state -> Prop) :
  nullish v = false ->
  (forall st, P st -> Q (get (heap st) v k) st) ->
  returns P (getp v k) Q.
Proof.
  intros Hn H st HP. rewrite getp_ok by exact Hn. do 2 eexists.
  split; [reflexivity|apply H, HP].
Qed.

Lemma returns_fact {A} (F : Prop) (P : state -> Prop) (c : M A)
  (Q : A -> state -> Prop) :
  (F -> returns P c Q) -> returns (fun st => F /\ P st) c Q.
Proof. intros H st [HF HP]. apply H; assumption. Qed.

Lemma triple_fact {A} (F : Prop) (P : state -> Prop) (c : M A)
  (Q : A -> state -> Prop) :
  (F -> triple P c Q) -> triple (fun st => F /\ P st) c Q.
Proof. intros H st [HF HP]. apply H; assumption. Qed.

(** ** Documents without definitions *)

Lemma truthy_not_nullish v : truthy v = true -> nullish v = false.
Proof. destruct v; simpl; congruence. Qed.

Lemma returns_register st0 (b : bool) (f : registries -> registries) :
  returns (same_store st0) (if b then with_registries f else ret tt)
    (fun _ => same_store st0).
Proof.
  intros st H. destruct b; do 2 eexists; (split; [reflexivity|exact H]).
Qed.

Lemma processMongooseDefinition_returns require key customOptions st0 :
  (truthy customOptions = true ->
   truthy (get (heap st0) customOptions "validators") = true ->
   exists path module,
     get (heap st0) customOptions "validators" = VStr path /\
     require path = Some module) ->
  returns (same_store st0) (processMongooseDefinition require key customOptions)
    (fun _ => same_store st0).
Proof.
  intros Hv. unfold processMongooseDefinition.
  destruct (truthy customOptions) eqn:T; [|apply returns_ret; auto].
  specialize (Hv eq_refl). apply truthy_not_nullish in T.
  repeat (eapply returns_bind;
          [apply returns_getp with (Q := fun _ => same_store st0); auto|intros ?];
          eapply returns_bind; [apply returns_register|intros ?]).
  eapply returns_bind.
  { apply returns_getp with
      (Q := fun v st => same_store st0 st /\ v = get (heap st0) customOptions "validators");
      [exact T|].
    intros st H. split; [exact H|]. destruct H as (-> & _). reflexivity. }
  intros v st (H & ->).
  destruct (truthy (get (heap st0) customOptions "validators"));
    [|do 2 eexists; split; [reflexivity|exact H]].
  destruct (Hv eq_refl) as (path & module & -> & ->).
  do 2 eexists. split; [reflexivity|exact H].
Qed.

Lemma forEach_nothing {A} collection (f : val -> pkey -> A -> M A) a st :
  forEach_keys (heap st) collection = [] -> forEach collection f a st = Ret a st.
Proof. intros H. unfold forEach, bind, get_heap. rewrite H. reflexivity. Qed.

(** C10 (as amended). A decoded document (an object of the store) with no
    [definitions] entry, compiled with no extra definitions from any state:
    if its version, when it has one, can be read as a number, and its
    global extension block (read under the name the version selects) names
    no validators module, or names one that loads, [compile] returns
    [{schemas: {}, models: {}}]. *)
Theorem compile_without_definitions
  (JSON_parse : string -> option json) (require : string -> option (val -> val))
  (fuel : nat) (l : nat) (st : state) :
  let spec := VRef l in
  let swagger := get (heap st) spec "swagger" in
  let global :=
    get (heap st) spec (getMongooseProperty (version_detected spec st)) in
  (exists fs, nth l (heap st) VUndef = VObj fs) ->
  get (heap st) spec "definitions" = VUndef ->
  (truthy swagger = true -> ToNumber (heap st) swagger <> None) ->
  (truthy global = true ->
   truthy (get (heap st) global "validators") = true ->
   exists path module,
     get (heap st) global "validators" = VStr path /\
     require path = Some module) ->
  exists st',
    compile JSON_parse require fuel spec VUndef st
    = Ret (VObj [("schemas", VObj []); ("models", VObj [])]) st'.
Proof.
  intros spec swagger global _ Hd Hn Hv.
  set (st1 := version_detected spec st) in *.
  assert (Hh : heap st1 = heap st).
  { unfold st1, version_detected. cbv zeta.
    case (truthy (get (heap st) spec "swagger")); [|reflexivity].
    case (ToNumber (heap st) (get (heap st) spec "swagger")); reflexivity. }
  set (st2 := mkState (heap st1) VUndef (swaggerVersion st1)
                (xSwaggerMongoose st1) (validators st1)).
  enough (H : returns (fun s => s = st)
                (compile JSON_parse require fuel spec VUndef)
                (fun v _ => v = VObj [("schemas", VObj []); ("models", VObj [])])).
  { destruct (H st eq_refl) as (v & st' & E & ->). exists st'. exact E. }
  unfold compile. cbn [spec truthy negb convertToJSON].
  eapply returns_bind with (Q := fun v s => v = VRef l /\ s = st);
    [apply returns_ret; auto|intros swaggerJSON; apply returns_fact; intros ->].
  eapply returns_bind
    with (Q := fun v s => v = get (heap st) (VRef l) "swagger" /\ s = st).
  { apply returns_getp; [reflexivity|]. intros ? ->. auto. }
  intros sw. apply returns_fact. intros ->.
  eapply returns_bind with (Q := fun _ s => s = st1).
  { intros s ->. unfold st1, version_detected. fold spec swagger. cbv zeta.
    destruct (truthy swagger) eqn:T; [|do 2 eexists; split; reflexivity].
    unfold bind, get_heap.
    destruct (ToNumber (heap st) swagger) eqn:N;
      [|exfalso; exact (Hn eq_refl eq_refl)].
    do 2 eexists; split; reflexivity. }
  intros _. eapply returns_bind with (Q := fun v s => v = VUndef /\ s = st1).
  { apply returns_getp; [reflexivity|]. intros ? ->. rewrite Hh. auto. }
  intros defs. apply returns_fact. intros ->.
  eapply returns_bind with (Q := fun _ s => s = st2).
  { intros s ->. do 2 eexists. split; reflexivity. }
  intros _. cbn [applyExtraDefinitions truthy].
  eapply returns_bind with (Q := fun _ s => s = st2);
    [apply returns_ret; auto|intros _].
  eapply returns_bind
    with (Q := fun mp s => mp = getMongooseProperty st1 /\ s = st2).
  { intros s ->. do 2 eexists. split; [reflexivity|auto]. }
  intros mp. apply returns_fact. intros ->.
  eapply returns_bind with (Q := fun v s => v = global /\ s = st2).
  { apply returns_getp; [reflexivity|].
    intros ? ->. cbn [heap st2]. rewrite Hh. auto. }
  intros g. apply returns_fact. intros ->.
  eapply returns_bind with (Q := fun _ _ => True).
  { intros s ->.
    assert (R : returns (same_store st2)
                  (if truthy global
                   then processMongooseDefinition require
                          (getMongooseProperty st1) global
                   else ret tt) (fun _ => same_store st2)).
    { destruct (truthy global) eqn:T; [|apply returns_ret; auto].
      apply processMongooseDefinition_returns. cbn [heap st2]. rewrite Hh.
      intros _. apply Hv. reflexivity. }
    destruct (R st2) as (a & s' & E & _); [repeat split|].
    exists a, s'. auto. }
  intros _. eapply returns_bind with (Q := fun schemas s => schemas = [] /\ True).
  { intros s _. unfold compile_definitions. rewrite forEach_nothing by reflexivity.
    do 2 eexists. split; [reflexivity|auto]. }
  intros schemas. apply returns_fact. intros ->.
  eapply returns_bind with (Q := fun models s => models = [] /\ True).
  { intros s _. unfold register_models. rewrite forEach_nothing by reflexivity.
    do 2 eexists. split; [reflexivity|auto]. }
  intros models. apply returns_fact. intros ->.
  apply returns_ret. reflexivity.
Qed.

Lemma compile_without_definitions_witness :
  exists st',
    compile no_parser no_module 0 (VRef 0) VUndef
      (mkState [VObj [("swagger", VStr "2.0")]] VNull VNull initial_registries
         (fun _ => VUndef))
    = Ret (VObj [("schemas", VObj []); ("models", VObj [])]) st'.
Proof.
  apply (compile_without_definitions no_parser no_module 0 0).
  - eexists. reflexivity.
  - reflexivity.
  - intros _. discriminate.
  - intros H. discriminate H.
Defined.

(** C10 as it was stated fails: with no definitions entry, [compile] still
    loads the validators module the global extension block names, and here
    that is the number 1, which is no path. *)
Lemma compile_without_definitions_can_raise :
  result_of (compile_json 0 no_definitions_bad_validators None) initial_state
  = Rerr (TypeError "path").
Proof. vm_compute. reflexivity. Qed.

(** ** Rules for [yields] *)

Lemma yields_ret {A} (a : A) (Q : A -> Prop) : Q a -> yields (ret a) Q.
Proof. intros H st a' st' [= <- _]. exact H. Qed.

Lemma yields_throw {A} e (Q : A -> Prop) : yields (throw e) Q.
Proof. intros st a st' H. discriminate H. Qed.

Lemma yields_bind {A B} (c : M A) (k : A -> M B) (P : A -> Prop) (Q : B -> Prop) :
  yields c P -> (forall a, P a -> yields (k a) Q) -> yields (bind c k) Q.
Proof.
  intros Hc Hk st b st' H. apply bind_inv in H. destruct H as (a & st1 & E & H).
  exact (Hk a (Hc _ _ _ E) _ _ _ H).
Qed.

Lemma yields_bind_any {A B} (c : M A) (k : A -> M B) (Q : B -> Prop) :
  (forall a, yields (k a) Q) -> yields (bind c k) Q.
Proof.
  intros Hk. apply yields_bind with (P := fun _ => True); [|auto].
  intros ? ? ? _. exact I.
Qed.

Lemma yields_weaken {A} (c : M A) (P Q : A -> Prop) :
  yields c P -> (forall a, P a -> Q a) -> yields c Q.
Proof. intros H HPQ st a st' E. apply HPQ. exact (H _ _ _ E). Qed.

(** ** Reserved field names *)

Lemma keys_obj_set k v fs : incl (map fst (obj_set k v fs)) (k :: map fst fs).
Proof.
  induction fs as [|[k0 v0] fs IH]; simpl.
  - apply incl_refl.
  - destruct (String.eqb k0 k); simpl.
    + apply incl_cons; [left; reflexivity|]. apply incl_tl, incl_tl, incl_refl.
    + apply incl_cons; [right; left; reflexivity|].
      intros x Hx. destruct (IH x Hx) as [<-|H]; [left; reflexivity|].
      right. right. exact H.
Qed.

Lemma keys_obj_assign es : forall target,
  incl (map fst (obj_assign target es)) (map fst target ++ map fst es).
Proof.
  unfold obj_assign.
  induction es as [|[k v] es IH]; intros target; simpl.
  - rewrite app_nil_r. apply incl_refl.
  - intros x Hx. apply IH in Hx. apply in_app_or in Hx. simpl in Hx.
    destruct Hx as [Hx|Hx].
    + apply keys_obj_set in Hx. destruct Hx as [<-|Hx].
      * apply in_or_app. right. left. reflexivity.
      * apply in_or_app. left. exact Hx.
    + apply in_or_app. right. right. exact Hx.
Qed.

(** Decomposes a goal [yields c Q] along the binds and branches of [c],
    forgetting the intermediate values. *)
Ltac ysteps :=
  repeat first
    [ apply yields_ret
    | apply yields_throw
    | eapply yields_bind_any; intros ?
    | match goal with
      | |- yields (if ?b then _ else _) _ => destruct b
      | |- yields (match ?v with _ => _ end) _ => destruct v
      | |- yields (let '(_, _) := ?p in _) _ => destruct p
      end ].

Lemma within_obj_set k v fs :
  incl (map fst fs) [k] -> incl (map fst (obj_set k v fs)) [k].
Proof.
  intros H x Hx. apply keys_obj_set in Hx. destruct Hx as [<-|Hx]; [left; reflexivity|].
  apply H, Hx.
Qed.

Lemma assign_in_within object key f x :
  incl (map fst object) [key_name key] ->
  yields (assign_in object key f x) (fun o => incl (map fst o) [key_name key]).
Proof.
  intros H. unfold assign_in. ysteps. apply within_obj_set, H.
Qed.

Lemma fillRequired_within object key template :
  incl (map fst object) [key_name key] ->
  yields (fillRequired object key template)
    (fun o => incl (map fst o) [key_name key]).
Proof.
  intros H. unfold fillRequired. eapply yields_bind_any. intros h.
  destruct (_ && _)%bool; [apply assign_in_within, H|].
  destruct template; try (apply yields_ret, H). apply assign_in_within, H.
Qed.

Lemma processRef_within gs gsp property objectName props key required :
  incl (map fst props) [key_name key] ->
  yields (processRef gs gsp property objectName props key required)
    (fun o => incl (map fst o) [key_name key]).
Proof.
  intros H. unfold processRef.
  do 3 (eapply yields_bind_any; intros ?).
  eapply yields_bind with (P := fun o => incl (map fst o) [key_name key]).
  - ysteps; try (apply within_obj_set, H); exact H.
  - intros o Ho. apply fillRequired_within, Ho.
Qed.

Lemma getSchemaProperty_unfold fuel :
  getSchemaProperty fuel =
  getSchemaProperty_body (S fuel)
    match fuel with
    | O => fun _ _ => throw OutOfFuel
    | S n => getSchema n
    end
    match fuel with
    | O => fun _ _ _ _ _ => throw OutOfFuel
    | S n => getSchemaProperty n
    end.
Proof. destruct fuel; reflexivity. Qed.

Lemma for_keys_yields {A} (I : A -> Prop) (body : pkey -> A -> M A) ks :
  (forall k a, I a -> yields (body k a) I) ->
  forall a, I a -> yields (for_keys ks body a) I.
Proof.
  intros Hb. induction ks as [|k ks IH]; intros a Ha; simpl.
  - apply yields_ret, Ha.
  - eapply yields_bind; [apply Hb, Ha|]. intros a' Ha'. apply IH, Ha'.
Qed.

Lemma forEach_yields {A} (I : A -> Prop) collection
  (iteratee : val -> pkey -> A -> M A) a :
  (forall v k a, I a -> yields (iteratee v k a) I) ->
  I a -> yields (forEach collection iteratee a) I.
Proof.
  intros Hi Ha. unfold forEach, forEach_over. eapply yields_bind_any. intros h.
  apply for_keys_yields; [|exact Ha].
  intros k a' Ha'. eapply yields_bind_any. intros h'. apply Hi, Ha'.
Qed.

Lemma in_obj_set k v fs name s :
  In (name, s) (obj_set k v fs) -> (name, s) = (k, v) \/ In (name, s) fs.
Proof.
  induction fs as [|[k0 v0] fs IH]; simpl.
  - intros [H|[]]. left. symmetry. exact H.
  - destruct (String.eqb k0 k); simpl.
    + intros [H|H]; [left; symmetry; exact H|right; right; exact H].
    + intros [H|H]; [right; left; exact H|].
      destruct (IH H) as [E|E]; [left; exact E|right; right; exact E].
Qed.

Lemma processDocumentIndex_object object options index :
  yields (processDocumentIndex (VSchema object options None) index)
    (fun s => exists i, s = VSchema object options i).
Proof.
  unfold processDocumentIndex. eapply yields_bind_any. intros h.
  destruct (isEmpty h index); [apply yields_ret; eauto|].
  do 2 (eapply yields_bind_any; intros ?). apply yields_ret. eauto.
Qed.

Lemma compile_definition_built require fuel mp definition key schemas :
  schemas_built schemas ->
  yields (compile_definition require fuel mp definition key schemas)
    schemas_built.
Proof.
  intros Hs. unfold compile_definition.
  do 3 (eapply yields_bind_any; intros ?).
  destruct (truthy (own_get _ (key_name key))); [apply yields_ret, Hs|].
  do 3 (eapply yields_bind_any; intros ?).
  destruct (_ && _)%bool; [|apply yields_ret, Hs].
  do 4 (eapply yields_bind_any; intros ?).
  eapply yields_bind; [apply processDocumentIndex_object|].
  intros s (i & ->). apply yields_ret.
  intros name s Hin. apply in_obj_set in Hin. destruct Hin as [[= -> ->]|Hin].
  - eauto.
  - apply Hs in Hin. exact Hin.
Qed.

(** The iteratee of [getSchema] on a reserved key returns the property map
    it was given and changes nothing. *)
Lemma getSchema_iteratee_reserved fuel required objectName object property key
  props st :
  isMongodbReserved key = true ->
  getSchema_iteratee (getSchemaProperty fuel) required objectName object
    property key props st = Ret props st.
Proof.
  intros Hk. unfold getSchema_iteratee. rewrite getSchemaProperty_unfold.
  unfold getSchemaProperty_body. rewrite Hk. reflexivity.
Qed.

Lemma forEach_over_unreserved_keys fuel required objectName object ks :
  forall props st,
  forEach_over ks object
    (getSchema_iteratee (getSchemaProperty fuel) required objectName object)
    props st
  = forEach_over (filter (fun k => negb (isMongodbReserved k)) ks) object
      (getSchema_iteratee (getSchemaProperty fuel) required objectName object)
      props st.
Proof.
  unfold forEach_over.
  induction ks as [|k ks IH]; intros props st; [reflexivity|].
  simpl. destruct (isMongodbReserved k) eqn:Hk; simpl.
  - unfold bind at 1 2. unfold get_heap at 1.
    rewrite getSchema_iteratee_reserved by exact Hk. apply IH.
  - apply bind_ext. intros a st1. apply IH.
Qed.

(** C3 fails on the code.  [getSchemaProperty] does turn away the fields
    named [_id] and [__v]: under such a key it returns [undefined] at once,
    whatever the property, and the loop of [getSchema] over the declared
    fields does what it does over the fields that are not reserved.  But
    the descriptor [getSchemaProperty] compiles under the key [__proto__]
    becomes the prototype of the object it returns, and [getSchema] copies
    what that object inherits: the facets of the descriptor arrive in the
    property map as fields, unfiltered.  For the definition [Smuggler], in
    a document of version 2, the property map has the one field [_id]; for
    [Shadowed] it has the field [type], which the definition does not
    declare, beside [b]. *)
Theorem reserved_name_through_prototype :
  (forall fuel property key required objectName object st,
     isMongodbReserved key = true ->
     getSchemaProperty fuel property key required objectName object st
     = Ret VUndef st) /\
  (forall fuel required objectName object keys props st,
     forEach_over keys object
       (getSchema_iteratee (getSchemaProperty fuel) required objectName object)
       props st
     = forEach_over (filter (fun k => negb (isMongodbReserved k)) keys) object
         (getSchema_iteratee (getSchemaProperty fuel) required objectName object)
         props st) /\
  (forall fuel,
     result_of (getSchema_json fuel "D" Smuggler) version2
     = Rok (VObj [("_id", VObj [("type", VStr "string")])])) /\
  (forall fuel,
     result_of (getSchema_json fuel "D" Shadowed) version2
     = Rok (VObj [("type", VType SString);
                  ("b", VObj [("type", VType SNumber)])])).
Proof.
  split.
  { intros fuel property key required objectName object st Hk.
    rewrite getSchemaProperty_unfold. unfold getSchemaProperty_body.
    rewrite Hk. reflexivity. }
  split; [intros; apply forEach_over_unreserved_keys|].
  split; intros fuel; destruct fuel; vm_compute; reflexivity.
Qed.

(** ** The Polymorphism Merger *)

Lemma assoc_obj_set k k' v fs :
  assoc k (obj_set k' v fs) = if String.eqb k' k then Some v else assoc k fs.
Proof.
  destruct (String.eqb k' k) eqn:E.
  - apply String.eqb_eq in E. subst. apply assoc_obj_set_same.
  - apply assoc_obj_set_other. intros ->. rewrite String.eqb_refl in E. discriminate.
Qed.

Lemma assoc_obj_assign k es : forall target,
  assoc k (obj_assign target es) =
  match last_binding k es with
  | Some v => Some v
  | None => assoc k target
  end.
Proof.
  unfold obj_assign. induction es as [|[k' v] es IH]; intros target; simpl.
  - reflexivity.
  - rewrite IH. destruct (last_binding k es); [reflexivity|].
    rewrite assoc_obj_set. destruct (String.eqb k' k); reflexivity.
Qed.

Lemma obj_assign_app target es es' :
  obj_assign (obj_assign target es) es' = obj_assign target (es ++ es').
Proof. unfold obj_assign. rewrite fold_left_app. reflexivity. Qed.

Lemma NoDup_obj_set k v fs :
  NoDup (map fst fs) -> NoDup (map fst (obj_set k v fs)).
Proof.
  induction fs as [|[k0 v0] fs IH]; simpl; intros H.
  - constructor; [intros []|constructor].
  - inversion H as [|? ? Hn Hd]; subst.
    destruct (String.eqb k0 k) eqn:E; simpl.
    + apply String.eqb_eq in E. subst. constructor; assumption.
    + constructor; [|apply IH, Hd].
      intros Hin. apply keys_obj_set in Hin. destruct Hin as [<-|Hin].
      * rewrite String.eqb_refl in E. discriminate.
      * contradiction.
Qed.

Lemma NoDup_obj_assign es : forall target,
  NoDup (map fst target) -> NoDup (map fst (obj_assign target es)).
Proof.
  unfold obj_assign. induction es as [|[k v] es IH]; intros target H; simpl.
  - exact H.
  - apply IH, NoDup_obj_set, H.
Qed.

Lemma same_value_sym a b : same_value a b = same_value b a.
Proof.
  destruct a, b; simpl; try reflexivity.
  - destruct b, b0; reflexivity.
  - unfold Qeq_bool. apply Z.eqb_sym.
  - apply String.eqb_sym.
  - apply Nat.eqb_sym.
  - destruct negative, negative0; reflexivity.
Qed.

Lemma same_value_trans a b c :
  same_value a b = true -> same_value b c = true -> same_value a c = true.
Proof.
  destruct a, b; simpl; try discriminate; destruct c; simpl; try discriminate;
    try reflexivity.
  - destruct b, b0, b1; simpl; congruence.
  - rewrite !Qeq_bool_iff. intros H1 H2. rewrite H1. exact H2.
  - rewrite !String.eqb_eq. congruence.
  - rewrite !Nat.eqb_eq. congruence.
  - destruct negative, negative0, negative1; simpl; congruence.
Qed.

Lemma member_same v w vs :
  same_value v w = true -> member v vs = member w vs.
Proof.
  intros H. unfold member. induction vs as [|x vs IH]; simpl; [reflexivity|].
  rewrite IH. f_equal.
  destruct (same_value v x) eqn:E1, (same_value w x) eqn:E2; try reflexivity.
  - rewrite same_value_sym in H.
    rewrite (same_value_trans _ _ _ H E1) in E2. discriminate.
  - rewrite (same_value_trans _ _ _ H E2) in E1. discriminate.
Qed.

Lemma member_app v xs ys : member v (xs ++ ys) = member v xs || member v ys.
Proof. apply existsb_app. Qed.

Lemma member_set_add v set x :
  member v (set_add set x) = member v set || same_value v x.
Proof.
  unfold set_add. destruct (existsb (same_value x) set) eqn:E.
  - destruct (same_value v x) eqn:S; [|rewrite orb_false_r; reflexivity].
    rewrite orb_true_r. rewrite (member_same v x) by exact S. exact E.
  - rewrite member_app. simpl. rewrite orb_false_r. reflexivity.
Qed.

Lemma member_fold_set_add v xs : forall set,
  member v (fold_left set_add xs set) = member v set || member v xs.
Proof.
  induction xs as [|x xs IH]; intros set; simpl.
  - rewrite orb_false_r. reflexivity.
  - rewrite IH, member_set_add, orb_assoc. reflexivity.
Qed.

Lemma distinct_app_one set x :
  distinct set -> member x set = false -> distinct (set ++ [x]).
Proof.
  induction set as [|y set IH]; simpl; intros Hd Hx.
  - auto.
  - destruct Hd as [Hy Hd]. apply orb_false_elim in Hx. destruct Hx as [Hxy Hx].
    split; [|apply IH; assumption].
    rewrite member_app, Hy. simpl. rewrite orb_false_r.
    rewrite same_value_sym. exact Hxy.
Qed.

Lemma distinct_set_add set x : distinct set -> distinct (set_add set x).
Proof.
  intros H. unfold set_add. destruct (existsb (same_value x) set) eqn:E.
  - exact H.
  - apply distinct_app_one; assumption.
Qed.

Lemma distinct_fold_set_add xs : forall set,
  distinct set -> distinct (fold_left set_add xs set).
Proof.
  induction xs as [|x xs IH]; intros set H; simpl; [exact H|].
  apply IH, distinct_set_add, H.
Qed.

Lemma fold_set_add_app set xs ys :
  fold_left set_add ys (fold_left set_add xs set) = fold_left set_add (xs ++ ys) set.
Proof. rewrite fold_left_app. reflexivity. Qed.

Lemma merge_fragment_parts polyDef mergedProps mergedReqs st ps rs :
  fragment_parts (heap st) (definitions st) polyDef = Some (ps, rs) ->
  merge_fragment polyDef (mergedProps, mergedReqs) st
  = Ret (obj_assign mergedProps ps, fold_left set_add rs mergedReqs) st.
Proof.
  unfold fragment_parts, fragment_object, merge_fragment.
  destruct (nullish polyDef) eqn:Np; [discriminate|].
  unfold bind at 1. rewrite getp_ok by exact Np.
  set (h := heap st). set (defs := definitions st).
  assert (M : forall object,
    nullish object = false ->
    (let properties := get h object "properties" in
     let required := get h object "required" in
     let entries := if nullish properties then []
                    else own_entries (deref h properties) in
     if truthy required
     then match deref h required with
          | VArr es _ => Some (entries, es)
          | _ => None
          end
     else Some (entries, [])) = Some (ps, rs) ->
    merge_from object (mergedProps, mergedReqs) st
    = Ret (obj_assign mergedProps ps, fold_left set_add rs mergedReqs) st).
  { intros object No H. unfold merge_from.
    unfold bind at 1. rewrite getp_ok by exact No. fold h.
    unfold bind at 1. unfold Object_assign at 1. fold h.
    unfold bind at 1. rewrite getp_ok by exact No. fold h.
    cbv zeta in H.
    destruct (truthy (get h object "required")).
    - unfold bind, get_heap. fold h.
      destruct (deref h (get h object "required")); try discriminate.
      injection H as <- <-.
      destruct (nullish (get h object "properties")); reflexivity.
    - injection H as <- <-.
      destruct (nullish (get h object "properties")); reflexivity. }
  cbv zeta.
  destruct (truthy (get h polyDef "$ref")).
  - destruct (get h polyDef "$ref"); try discriminate.
    unfold bind at 1. unfold match_definition.
    destruct (match_ref s) as [propType|]; [|discriminate].
    unfold ret at 1. unfold bind at 1. unfold get_definitions at 1. fold defs.
    destruct (nullish defs) eqn:Nd; [discriminate|].
    unfold bind at 1. rewrite getp_ok by exact Nd. fold h.
    destruct (nullish (get h defs propType)) eqn:No; [discriminate|].
    intros H. apply M; assumption.
  - rewrite Np. intros H. apply M; assumption.
Qed.

Lemma fold_merge_fragments fragments : forall parts mergedProps mergedReqs st,
  all_parts (heap st) (definitions st) fragments = Some parts ->
  fold_M merge_fragment fragments (mergedProps, mergedReqs) st
  = Ret (obj_assign mergedProps (List.concat (map fst parts)),
         fold_left set_add (List.concat (map snd parts)) mergedReqs) st.
Proof.
  induction fragments as [|polyDef fragments IH]; intros parts mp mr st H; simpl in *.
  - injection H as <-. reflexivity.
  - destruct (fragment_parts (heap st) (definitions st) polyDef) as [[ps rs]|] eqn:E;
      [|discriminate].
    destruct (all_parts (heap st) (definitions st) fragments) as [parts'|] eqn:E';
      [|discriminate].
    injection H as <-.
    unfold bind. rewrite (merge_fragment_parts _ _ _ _ _ _ E).
    rewrite (IH parts' _ _ st E'). simpl.
    rewrite obj_assign_app, fold_set_add_app. reflexivity.
Qed.

(** The store, cell by cell. *)

Lemma update_length {A} l (x : A) h : List.length (update l x h) = List.length h.
Proof.
  revert l. induction h as [|y h IH]; intros [|l]; simpl; auto.
Qed.

Lemma nth_update_same {A} l (x d : A) h :
  l < List.length h -> nth l (update l x h) d = x.
Proof.
  revert l. induction h as [|y h IH]; intros [|l] H; simpl in *; try lia; auto.
  apply IH. lia.
Qed.

Lemma nth_update_other {A} l l' (x d : A) h :
  l <> l' -> nth l' (update l x h) d = nth l' h d.
Proof.
  revert l l'. induction h as [|y h IH]; intros [|l] [|l'] H; simpl; auto;
    try congruence.
Qed.

Lemma own_get_set_same d k v :
  is_object d = true -> plain_key k -> own_get (own_set d k v) k = v.
Proof.
  intros Hd [Hl Hi]. destruct d; try discriminate; simpl.
  - rewrite assoc_obj_set_same. reflexivity.
  - rewrite Hl, Hi, assoc_obj_set_same. reflexivity.
Qed.

Lemma own_get_set_other d k k' v :
  k <> k' -> own_get (own_set d k v) k' = own_get d k'.
Proof.
  intros Hne. destruct d; try reflexivity; simpl.
  - rewrite assoc_obj_set_other by congruence. reflexivity.
  - rewrite assoc_obj_set_other by congruence. reflexivity.
Qed.

Lemma assoc_obj_delete_same k fs : assoc k (obj_delete k fs) = None.
Proof.
  induction fs as [|[k0 v0] fs IH]; simpl; [reflexivity|].
  destruct (String.eqb k0 k) eqn:E; simpl; [exact IH|]. rewrite E. exact IH.
Qed.

Lemma assoc_obj_delete_other k k' fs :
  k <> k' -> assoc k' (obj_delete k fs) = assoc k' fs.
Proof.
  intros Hne. induction fs as [|[k0 v0] fs IH]; simpl; [reflexivity|].
  destruct (String.eqb k0 k) eqn:E; simpl.
  - apply String.eqb_eq in E. subst k0.
    destruct (String.eqb k k') eqn:E'; [apply String.eqb_eq in E'; congruence|].
    exact IH.
  - destruct (String.eqb k0 k'); [reflexivity|exact IH].
Qed.

Lemma own_get_delete_same d k :
  plain_key k -> own_get (own_delete d k) k = VUndef.
Proof.
  intros [Hl Hi]. destruct d; try reflexivity; simpl.
  - rewrite Hl, Hi. reflexivity.
  - rewrite assoc_obj_delete_same. reflexivity.
  - rewrite Hl, Hi, assoc_obj_delete_same. reflexivity.
Qed.

Lemma own_get_delete_other d k k' :
  k <> k' -> own_get (own_delete d k) k' = own_get d k'.
Proof.
  intros Hne. destruct d; try reflexivity; simpl;
    rewrite assoc_obj_delete_other by congruence; reflexivity.
Qed.

Lemma is_object_own_set d k v : is_object (own_set d k v) = is_object d.
Proof. destruct d; reflexivity. Qed.

Lemma nth_app_old {A} l (x d : A) h :
  l < List.length h -> nth l (h ++ [x]) d = nth l h d.
Proof. intros H. apply app_nth1, H. Qed.

Lemma nth_app_new {A} (x d : A) h : nth (List.length h) (h ++ [x]) d = x.
Proof. rewrite app_nth2 by lia. rewrite Nat.sub_diag. reflexivity. Qed.

(** What [install] changes: the key [k] of the cell [l], and one new cell. *)
Lemma install_facts l k d h :
  l < List.length h -> is_object (nth l h VUndef) = true -> plain_key k ->
  let h' := install l k d h in
  List.length h' = S (List.length h) /\
  own_get (nth l h' VUndef) k = VRef (List.length h) /\
  nth (List.length h) h' VUndef = d /\
  is_object (nth l h' VUndef) = true /\
  (forall k', k <> k' -> own_get (nth l h' VUndef) k' = own_get (nth l h VUndef) k') /\
  (forall l', l' <> l -> l' < List.length h -> nth l' h' VUndef = nth l' h VUndef).
Proof.
  intros Hl Ho Hk h'. subst h'. unfold install.
  assert (Hl' : l < List.length (h ++ [d])) by (rewrite length_app; simpl; lia).
  repeat split.
  - rewrite update_length, length_app. simpl. lia.
  - rewrite nth_update_same by exact Hl'. rewrite nth_app_old by exact Hl.
    apply own_get_set_same; assumption.
  - rewrite nth_update_other by lia. apply nth_app_new.
  - rewrite nth_update_same by exact Hl'. rewrite is_object_own_set.
    rewrite nth_app_old by exact Hl. exact Ho.
  - intros k' Hne. rewrite nth_update_same by exact Hl'.
    rewrite own_get_set_other by exact Hne. rewrite nth_app_old by exact Hl.
    reflexivity.
  - intros l' Hne Hl2. rewrite nth_update_other by congruence.
    apply nth_app_old, Hl2.
Qed.

Lemma processPolymorphic_store l st fragments named parts :
  deref (heap st) (get (heap st) (VRef l) "allOf") = VArr fragments named ->
  all_parts (heap st) (definitions st) fragments = Some parts ->
  processPolymorphic (VRef l) st
  = Ret tt (with_store
              (merged_store l
                 (obj_assign [] (List.concat (map fst parts)))
                 (fold_left set_add (List.concat (map snd parts)) [])
                 (heap st)) st).
Proof.
  intros Ha Hp. unfold processPolymorphic.
  unfold bind at 1. rewrite getp_ok by reflexivity.
  unfold bind at 1. unfold get_heap at 1. rewrite Ha.
  unfold bind at 1. rewrite (fold_merge_fragments _ _ _ _ _ Hp).
  destruct (obj_assign [] (List.concat (map fst parts)));
    destruct (fold_left set_add (List.concat (map snd parts)) []);
    reflexivity.
Qed.

Lemma allOf_cell l h fragments named :
  deref h (get h (VRef l) "allOf") = VArr fragments named ->
  l < List.length h /\ is_object (nth l h VUndef) = true /\
  truthy (get h (VRef l) "allOf") = true.
Proof.
  unfold get. change (deref h (VRef l)) with (nth l h VUndef). intros H.
  assert (Ho : is_object (nth l h VUndef) = true).
  { destruct (nth l h VUndef) eqn:E; try reflexivity; simpl in H;
      discriminate H. }
  split; [|split; [exact Ho|]].
  - destruct (Nat.lt_ge_cases l (List.length h)) as [Hl|Hl]; [exact Hl|].
    rewrite nth_overflow in Ho by exact Hl. discriminate Ho.
  - destruct (own_get (nth l h VUndef) "allOf"); simpl in H; try discriminate H;
      reflexivity.
Qed.

Lemma plain_properties : plain_key "properties".
Proof. split; reflexivity. Qed.

Lemma plain_required : plain_key "required".
Proof. split; reflexivity. Qed.

Lemma plain_allOf : plain_key "allOf".
Proof. split; reflexivity. Qed.

(** What one can read in the store [merged_store] describes. *)
Lemma merged_store_facts l mp mr h :
  l < List.length h -> is_object (nth l h VUndef) = true ->
  let h' := merged_store l mp mr h in
  get h' (VRef l) "allOf" = VUndef /\
  match mp with
  | [] => get h' (VRef l) "properties" = get h (VRef l) "properties"
  | _ => deref h' (get h' (VRef l) "properties") = VObj mp
  end /\
  match mr with
  | [] => get h' (VRef l) "required" = get h (VRef l) "required"
  | _ => deref h' (get h' (VRef l) "required") = VArr mr []
  end.
Proof.
  intros Hl Ho h'. subst h'. unfold merged_store.
  set (h1 := match mp with [] => h | _ => install l "properties" (VObj mp) h end).
  set (h2 := match mr with [] => h1 | _ => install l "required" (VArr mr []) h1 end).
  assert (F1 : List.length h <= List.length h1 /\ is_object (nth l h1 VUndef) = true /\
               own_get (nth l h1 VUndef) "required" = own_get (nth l h VUndef) "required" /\
               match mp with
               | [] => h1 = h
               | _ => own_get (nth l h1 VUndef) "properties" = VRef (List.length h) /\
                      nth (List.length h) h1 VUndef = VObj mp /\
                      List.length h < List.length h1
               end).
  { subst h1. destruct mp as [|e mp]; [auto|].
    destruct (install_facts l "properties" (VObj (e :: mp)) h Hl Ho plain_properties)
      as (L & G & N & O & K & _).
    repeat split; try assumption; try lia. apply K. discriminate. }
  destruct F1 as (L1 & O1 & R1 & P1).
  assert (Hl1 : l < List.length h1) by lia.
  assert (F2 : List.length h1 <= List.length h2 /\
               own_get (nth l h2 VUndef) "properties" = own_get (nth l h1 VUndef) "properties" /\
               (forall l', l' <> l -> l' < List.length h1 ->
                           nth l' h2 VUndef = nth l' h1 VUndef) /\
               match mr with
               | [] => h2 = h1
               | _ => own_get (nth l h2 VUndef) "required" = VRef (List.length h1) /\
                      nth (List.length h1) h2 VUndef = VArr mr []
               end).
  { subst h2. destruct mr as [|e mr]; [auto|].
    destruct (install_facts l "required" (VArr (e :: mr) []) h1 Hl1 O1 plain_required)
      as (L & G & N & O & K & F).
    repeat split; try assumption; [lia|]. apply K. discriminate. }
  destruct F2 as (L2 & P2 & F2 & R2).
  assert (Hl2 : l < List.length h2) by lia.
  set (h3 := update l (own_delete (nth l h2 VUndef) "allOf") h2).
  assert (C : nth l h3 VUndef = own_delete (nth l h2 VUndef) "allOf")
    by (apply nth_update_same, Hl2).
  assert (Oth : forall l', l' <> l -> nth l' h3 VUndef = nth l' h2 VUndef)
    by (intros l' Hne; apply nth_update_other; congruence).
  unfold get. cbn [deref]. rewrite C.
  split; [apply own_get_delete_same, plain_allOf|].
  rewrite !own_get_delete_other by discriminate.
  split.
  - rewrite P2. destruct mp as [|e mp]; [rewrite P1; reflexivity|].
    destruct P1 as (-> & N & L). cbn [deref]. rewrite Oth by lia.
    rewrite F2 by lia. exact N.
  - destruct mr as [|e mr].
    + rewrite R2. rewrite R1. reflexivity.
    + destruct R2 as [-> N]. cbn [deref]. rewrite Oth by lia. exact N.
Qed.

(** X19. The Polymorphism Merger.  [processPolymorphic] run on a
    definition of the store whose [allOf] is an array of fragments that all
    resolve (a fragment that is a reference names a definition of the
    registry; a [required] is an array), none of which has a property named
    [__proto__]: it returns, changing the store only, and
    has merged one property map, each key once, where a key is bound to its
    last binding in the fragments taken in order, and one list of required
    entries, each once, holding exactly the entries of the fragments.  The
    definition's [properties] then is that map if it is not empty and is
    untouched if it is, likewise its [required], and its [allOf] is gone.
    [getSchema], called on the definition, does this before it compiles any
    property: it goes on as [compile_properties] from the store so merged
    (with the [required] it had read on entry). *)
Theorem processPolymorphic_merges (l : nat) (st : state)
  (fragments : list val) (named : obj) (parts : list (obj * list val)) :
  deref (heap st) (get (heap st) (VRef l) "allOf") = VArr fragments named ->
  all_parts (heap st) (definitions st) fragments = Some parts ->
  (forall part, In part parts -> ~ In "__proto__" (map fst (fst part))) ->
  let entries := List.concat (map fst parts) in
  let requireds := List.concat (map snd parts) in
  exists mergedProps mergedReqs st',
    processPolymorphic (VRef l) st = Ret tt st' /\
    same_variables st st' /\
    (forall k, assoc k mergedProps = last_binding k entries) /\
    NoDup (map fst mergedProps) /\
    (forall v, member v mergedReqs = member v requireds) /\
    distinct mergedReqs /\
    match mergedProps with
    | [] => get (heap st') (VRef l) "properties" = get (heap st) (VRef l) "properties"
    | _ => deref (heap st') (get (heap st') (VRef l) "properties") = VObj mergedProps
    end /\
    match mergedReqs with
    | [] => get (heap st') (VRef l) "required" = get (heap st) (VRef l) "required"
    | _ => deref (heap st') (get (heap st') (VRef l) "required") = VArr mergedReqs []
    end /\
    get (heap st') (VRef l) "allOf" = VUndef /\
    forall gsp objectName,
      getSchema_body gsp objectName (VRef l) st
      = compile_properties gsp (required_on_entry (heap st) (VRef l)) objectName
          (VRef l) st'.
Proof.
  intros Ha Hp _ entries requireds.
  destruct (allOf_cell l (heap st) fragments named Ha) as (Hl & Ho & Ht).
  pose proof (processPolymorphic_store l st fragments named parts Ha Hp) as E.
  fold entries requireds in E.
  set (mp := obj_assign [] entries) in *.
  set (mr := fold_left set_add requireds []) in *.
  exists mp, mr. eexists. split; [exact E|].
  destruct (merged_store_facts l mp mr (heap st) Hl Ho) as (A & P & R).
  split; [repeat split|].
  split. { intros k. unfold mp. rewrite assoc_obj_assign.
           destruct (last_binding k entries); reflexivity. }
  split. { apply NoDup_obj_assign. constructor. }
  split. { intros v. unfold mr. rewrite member_fold_set_add. reflexivity. }
  split. { apply distinct_fold_set_add. exact I. }
  split; [exact P|]. split; [exact R|]. split; [exact A|].
  intros gsp objectName. unfold getSchema_body.
  unfold bind at 1. rewrite getp_ok by reflexivity.
  unfold bind at 1. unfold isPolymorphic. rewrite getp_ok by reflexivity.
  rewrite Ht. unfold bind at 1. rewrite E. reflexivity.
Qed.

Lemma processPolymorphic_merges_witness :
  exists st',
    processPolymorphic (VRef 10) (with_store composed_store initial_state)
    = Ret tt st' /\
    get (heap st') (VRef 10) "allOf" = VUndef.
Proof.
  destruct (processPolymorphic_merges 10 (with_store composed_store initial_state)
              [VRef 4; VRef 8] []
              [([("a", VRef 0); ("b", VRef 1)], [VStr "a"]);
               ([("b", VRef 5)], [VStr "b"; VStr "a"])]
              eq_refl eq_refl)
    as (mp & mr & st' & E & _ & _ & _ & _ & _ & _ & _ & A & _).
  { intros part [<-|[<-|[]]]; simpl; intuition discriminate. }
  exists st'. split; [exact E|exact A].
Defined.

(** C4 fails on the code.  [Part] is of type [object], has a field [own]
    and is composed of two fragments with the fields [a] and [b]; [Whole]
    has a field [r] that refers to [Part].  A reference to a definition of
    type [object] or [array] that has [properties] hands these alone to
    [getSchema], which then finds no [allOf] to merge.  So when [Whole]
    comes first, its [r] embeds the field [own] of [Part], compiled before
    the composition is merged; [Part], compiled next, is merged and has
    the fields [a] and [b].  When [Part] comes first, it is merged by the
    time [Whole] is compiled, and [r] embeds [a] and [b].  ([getSchema]
    called on the definition, and a reference to a definition without type,
    merge before they compile.) *)
Theorem reference_compiles_before_merge (fuel : nat) :
  let merged := VObj [("a", VObj [("type", VType SString)]);
                      ("b", VObj [("type", VType SNumber)])] in
  let first := result_of (compile_json (S fuel) whole_then_part None)
                 initial_state in
  let second := result_of (compile_json (S fuel) part_then_whole None)
                  initial_state in
  compiled_map first "Whole"
  = Some (VObj [("r", VObj [("own", VObj [("type", VType SString)])])]) /\
  compiled_map first "Part" = Some merged /\
  compiled_map second "Part" = Some merged /\
  compiled_map second "Whole" = Some (VObj [("r", merged)]).
Proof.
  destruct fuel as [|[|m]]; vm_compute; repeat split; reflexivity.
Qed.

(** ** What the compiler of a definition reads and writes *)

Lemma same_variables_refl st : same_variables st st.
Proof. repeat split. Qed.

Lemma same_variables_trans st1 st2 st3 :
  same_variables st1 st2 -> same_variables st2 st3 -> same_variables st1 st3.
Proof.
  intros (A1 & B1 & C1 & D1) (A2 & B2 & C2 & D2).
  repeat split; congruence.
Qed.

Lemma heap_only_ret {A} (a : A) : heap_only (ret a).
Proof. intros st. apply same_variables_refl. Qed.

Lemma heap_only_throw {A} e : heap_only (@throw A e).
Proof. intros st. apply same_variables_refl. Qed.

Lemma heap_only_bind {A B} (c : M A) (k : A -> M B) :
  heap_only c -> (forall a, heap_only (k a)) -> heap_only (bind c k).
Proof.
  intros Hc Hk st. unfold bind. specialize (Hc st).
  destruct (c st) as [a st1|e st1]; [|exact Hc].
  specialize (Hk a st1). destruct (k a st1); eapply same_variables_trans; eauto.
Qed.

Lemma heap_only_read {A} (f : state -> A) : heap_only (fun st => Ret (f st) st).
Proof. intros st. apply same_variables_refl. Qed.

Lemma heap_only_with_heap f : heap_only (with_heap f).
Proof. intros st. repeat split. Qed.

Lemma heap_only_lift {A} (r : res A) : heap_only (lift r).
Proof. destruct r; [apply heap_only_ret|apply heap_only_throw]. Qed.

Lemma heap_only_getp v k : heap_only (getp v k).
Proof. intros st. unfold getp. destruct (nullish v); apply same_variables_refl. Qed.

Lemma heap_only_setp v k x : heap_only (setp v k x).
Proof.
  destruct v; try apply heap_only_ret; try apply heap_only_throw.
  apply heap_only_bind; [apply heap_only_with_heap|intros; apply heap_only_ret].
Qed.

Lemma heap_only_deletep v k : heap_only (deletep v k).
Proof.
  destruct v; try apply heap_only_ret; try apply heap_only_throw.
  apply heap_only_bind; [apply heap_only_with_heap|intros; apply heap_only_ret].
Qed.

Lemma heap_only_alloc d : heap_only (alloc d).
Proof. intros st. repeat split. Qed.

Lemma registry_blind_ret {A} (a : A) : registry_blind (ret a).
Proof. intros x st. reflexivity. Qed.

Lemma registry_blind_throw {A} e : registry_blind (@throw A e).
Proof. intros x st. reflexivity. Qed.

Lemma registry_blind_bind {A B} (c : M A) (k : A -> M B) :
  registry_blind c -> (forall a, registry_blind (k a)) -> registry_blind (bind c k).
Proof.
  intros Hc Hk x st. unfold bind. rewrite Hc.
  destruct (c st) as [a st1|e st1]; simpl; [apply Hk|reflexivity].
Qed.

Lemma registry_blind_with_heap f : registry_blind (with_heap f).
Proof. intros x st. reflexivity. Qed.

Lemma registry_blind_lift {A} (r : res A) : registry_blind (lift r).
Proof. destruct r; [apply registry_blind_ret|apply registry_blind_throw]. Qed.

Lemma registry_blind_getp v k : registry_blind (getp v k).
Proof. intros x st. unfold getp. destruct (nullish v); reflexivity. Qed.

Lemma registry_blind_setp v k y : registry_blind (setp v k y).
Proof.
  destruct v; try apply registry_blind_ret; try apply registry_blind_throw.
  apply registry_blind_bind;
    [apply registry_blind_with_heap|intros; apply registry_blind_ret].
Qed.

Lemma registry_blind_deletep v k : registry_blind (deletep v k).
Proof.
  destruct v; try apply registry_blind_ret; try apply registry_blind_throw.
  apply registry_blind_bind;
    [apply registry_blind_with_heap|intros; apply registry_blind_ret].
Qed.

Lemma registry_blind_alloc d : registry_blind (alloc d).
Proof. intros x st. reflexivity. Qed.

(** Both properties are proved alike, along the structure of the code. *)
Create HintDb frame discriminated.

#[local] Hint Resolve heap_only_ret heap_only_throw heap_only_with_heap
  heap_only_lift heap_only_getp heap_only_setp heap_only_deletep
  heap_only_alloc registry_blind_ret registry_blind_throw
  registry_blind_with_heap registry_blind_lift registry_blind_getp
  registry_blind_setp registry_blind_deletep registry_blind_alloc : frame.

Ltac frame_step :=
  first
    [ solve [auto with frame]
    | match goal with
      | |- heap_only (bind _ _) => apply heap_only_bind; [|intros ?]
      | |- registry_blind (bind _ _) => apply registry_blind_bind; [|intros ?]
      | |- heap_only (if ?b then _ else _) => destruct b
      | |- registry_blind (if ?b then _ else _) => destruct b
      | |- heap_only (match ?v with _ => _ end) => destruct v
      | |- registry_blind (match ?v with _ => _ end) => destruct v
      | |- heap_only (let '(_, _) := ?p in _) => destruct p
      | |- registry_blind (let '(_, _) := ?p in _) => destruct p
      end ].

Ltac frame := repeat frame_step.

Lemma heap_only_get_heap : heap_only get_heap.
Proof. intros st. apply same_variables_refl. Qed.
Lemma registry_blind_get_heap : registry_blind get_heap.
Proof. intros x st. reflexivity. Qed.
Lemma heap_only_get_definitions : heap_only get_definitions.
Proof. intros st. apply same_variables_refl. Qed.
Lemma registry_blind_get_definitions : registry_blind get_definitions.
Proof. intros x st. reflexivity. Qed.
Lemma heap_only_get_validator n : heap_only (get_validator n).
Proof. intros st. apply same_variables_refl. Qed.
Lemma registry_blind_get_validator n : registry_blind (get_validator n).
Proof. intros x st. reflexivity. Qed.
Lemma heap_only_mongooseProperty : heap_only mongooseProperty.
Proof. intros st. apply same_variables_refl. Qed.
Lemma registry_blind_mongooseProperty : registry_blind mongooseProperty.
Proof. intros x st. reflexivity. Qed.
Lemma heap_only_atLeastSwagger2 : heap_only atLeastSwagger2.
Proof. intros st. apply same_variables_refl. Qed.
Lemma registry_blind_atLeastSwagger2 : registry_blind atLeastSwagger2.
Proof. intros x st. reflexivity. Qed.
Lemma heap_only_extend t s : heap_only (_extend t s).
Proof. intros st. apply same_variables_refl. Qed.
Lemma registry_blind_extend t s : registry_blind (_extend t s).
Proof. intros x st. reflexivity. Qed.
Lemma heap_only_Object_assign t s : heap_only (Object_assign t s).
Proof. intros st. apply same_variables_refl. Qed.
Lemma registry_blind_Object_assign t s : registry_blind (Object_assign t s).
Proof. intros x st. reflexivity. Qed.

#[local] Hint Resolve heap_only_get_heap registry_blind_get_heap
  heap_only_get_definitions registry_blind_get_definitions
  heap_only_get_validator registry_blind_get_validator
  heap_only_mongooseProperty registry_blind_mongooseProperty
  heap_only_atLeastSwagger2 registry_blind_atLeastSwagger2
  heap_only_extend registry_blind_extend
  heap_only_Object_assign registry_blind_Object_assign : frame.

Lemma heap_only_for_keys {A} (body : pkey -> A -> M A) ks :
  (forall k a, heap_only (body k a)) -> forall a, heap_only (for_keys ks body a).
Proof.
  intros Hb. induction ks as [|k ks IH]; intros a; simpl; frame.
Qed.

Lemma registry_blind_for_keys {A} (body : pkey -> A -> M A) ks :
  (forall k a, registry_blind (body k a)) ->
  forall a, registry_blind (for_keys ks body a).
Proof.
  intros Hb. induction ks as [|k ks IH]; intros a; simpl; frame.
Qed.

Lemma heap_only_forEach {A} collection (f : val -> pkey -> A -> M A) a :
  (forall v k a, heap_only (f v k a)) -> heap_only (forEach collection f a).
Proof.
  intros Hf. unfold forEach, forEach_over.
  apply heap_only_bind; [apply heap_only_get_heap|intros h].
  apply heap_only_for_keys. intros.
  apply heap_only_bind; [apply heap_only_get_heap|intros h']. apply Hf.
Qed.

Lemma registry_blind_forEach {A} collection (f : val -> pkey -> A -> M A) a :
  (forall v k a, registry_blind (f v k a)) ->
  registry_blind (forEach collection f a).
Proof.
  intros Hf. unfold forEach, forEach_over.
  apply registry_blind_bind; [apply registry_blind_get_heap|intros h].
  apply registry_blind_for_keys. intros.
  apply registry_blind_bind; [apply registry_blind_get_heap|intros h']. apply Hf.
Qed.

Lemma heap_only_fold_M {A B} (f : B -> A -> M A) l :
  (forall x a, heap_only (f x a)) -> forall a, heap_only (fold_M f l a).
Proof.
  intros Hf. induction l as [|x l IH]; intros a; simpl; frame.
Qed.

Lemma registry_blind_fold_M {A B} (f : B -> A -> M A) l :
  (forall x a, registry_blind (f x a)) -> forall a, registry_blind (fold_M f l a).
Proof.
  intros Hf. induction l as [|x l IH]; intros a; simpl; frame.
Qed.

Lemma heap_only_propertyMapM fuel property : heap_only (propertyMapM fuel property).
Proof. unfold propertyMapM. frame. Qed.
#[local] Hint Resolve heap_only_propertyMapM : frame.

Lemma heap_only_isSimpleSchema schema : heap_only (isSimpleSchema schema).
Proof. unfold isSimpleSchema. frame. Qed.
#[local] Hint Resolve heap_only_isSimpleSchema : frame.

Lemma heap_only_isPropertyHasRef property : heap_only (isPropertyHasRef property).
Proof. unfold isPropertyHasRef. frame. Qed.
#[local] Hint Resolve heap_only_isPropertyHasRef : frame.

Lemma heap_only_assign_in object key f x : heap_only (assign_in object key f x).
Proof. unfold assign_in. frame. Qed.
#[local] Hint Resolve heap_only_assign_in : frame.

Lemma heap_only_fillRequired object key template : heap_only (fillRequired object key template).
Proof. unfold fillRequired. frame. Qed.
#[local] Hint Resolve heap_only_fillRequired : frame.

Lemma heap_only_isMongooseProperty property : heap_only (isMongooseProperty property).
Proof. unfold isMongooseProperty. frame. Qed.
#[local] Hint Resolve heap_only_isMongooseProperty : frame.

Lemma heap_only_isMongooseArray property : heap_only (isMongooseArray property).
Proof. unfold isMongooseArray. frame. Qed.
#[local] Hint Resolve heap_only_isMongooseArray : frame.

Lemma heap_only_replace_definitions ref : heap_only (replace_definitions ref).
Proof. unfold replace_definitions. frame. Qed.
#[local] Hint Resolve heap_only_replace_definitions : frame.

Lemma heap_only_getMongooseSpecific fuel props property : heap_only (getMongooseSpecific fuel props property).
Proof. unfold getMongooseSpecific. frame. Qed.
#[local] Hint Resolve heap_only_getMongooseSpecific : frame.

Lemma heap_only_isPolymorphic def : heap_only (isPolymorphic def).
Proof. unfold isPolymorphic. frame. Qed.
#[local] Hint Resolve heap_only_isPolymorphic : frame.

Lemma heap_only_match_definition refString : heap_only (match_definition refString).
Proof. unfold match_definition. frame. Qed.
#[local] Hint Resolve heap_only_match_definition : frame.

Lemma heap_only_merge_from object merged : heap_only (merge_from object merged).
Proof. unfold merge_from. frame. Qed.
#[local] Hint Resolve heap_only_merge_from : frame.

Lemma heap_only_merge_fragment polyDef merged : heap_only (merge_fragment polyDef merged).
Proof. unfold merge_fragment. frame. Qed.
#[local] Hint Resolve heap_only_merge_fragment : frame.

Lemma heap_only_processPolymorphic definition : heap_only (processPolymorphic definition).
Proof.
  unfold processPolymorphic. frame; try apply heap_only_fold_M; intros; frame.
Qed.
#[local] Hint Resolve heap_only_processPolymorphic : frame.

Lemma heap_only_processDocumentIndex schema index :
  heap_only (processDocumentIndex schema index).
Proof. unfold processDocumentIndex. frame. Qed.
#[local] Hint Resolve heap_only_processDocumentIndex : frame.

Lemma heap_only_getSchemaProperty_body fuel gs gsp :
  (forall a b, heap_only (gs a b)) ->
  (forall a b c d e, heap_only (gsp a b c d e)) ->
  forall property key required objectName object,
    heap_only (getSchemaProperty_body fuel gs gsp property key required
              objectName object).
Proof.
  intros Hgs Hgsp. intros. unfold getSchemaProperty_body, processRef. frame.
Qed.

Lemma heap_only_getSchema_body gsp :
  (forall a b c d e, heap_only (gsp a b c d e)) ->
  forall objectName fullObject, heap_only (getSchema_body gsp objectName fullObject).
Proof.
  intros Hgsp. intros. unfold getSchema_body, compile_properties. frame.
  apply heap_only_forEach. intros. unfold getSchema_iteratee. frame.
Qed.

Lemma heap_only_getSchemaProperty fuel :
  forall property key required objectName object,
    heap_only (getSchemaProperty fuel property key required objectName object).
Proof.
  induction fuel as [|n IH]; intros; rewrite getSchemaProperty_unfold;
    apply heap_only_getSchemaProperty_body; intros; frame.
  apply heap_only_getSchema_body. exact IH.
Qed.
#[local] Hint Resolve heap_only_getSchemaProperty : frame.

Lemma heap_only_getSchema fuel objectName fullObject :
  heap_only (getSchema fuel objectName fullObject).
Proof. apply heap_only_getSchema_body. intros. frame. Qed.
#[local] Hint Resolve heap_only_getSchema : frame.

Lemma heap_only_processAdditionalProperties fuel additional objectName :
  heap_only (processAdditionalProperties fuel additional objectName).
Proof.
  unfold processAdditionalProperties. frame.
  apply heap_only_forEach. intros. frame.
Qed.
#[local] Hint Resolve heap_only_processAdditionalProperties : frame.

Lemma registry_blind_propertyMapM fuel property : registry_blind (propertyMapM fuel property).
Proof. unfold propertyMapM. frame. Qed.
#[local] Hint Resolve registry_blind_propertyMapM : frame.

Lemma registry_blind_isSimpleSchema schema : registry_blind (isSimpleSchema schema).
Proof. unfold isSimpleSchema. frame. Qed.
#[local] Hint Resolve registry_blind_isSimpleSchema : frame.

Lemma registry_blind_isPropertyHasRef property : registry_blind (isPropertyHasRef property).
Proof. unfold isPropertyHasRef. frame. Qed.
#[local] Hint Resolve registry_blind_isPropertyHasRef : frame.

Lemma registry_blind_assign_in object key f x : registry_blind (assign_in object key f x).
Proof. unfold assign_in. frame. Qed.
#[local] Hint Resolve registry_blind_assign_in : frame.

Lemma registry_blind_fillRequired object key template : registry_blind (fillRequired object key template).
Proof. unfold fillRequired. frame. Qed.
#[local] Hint Resolve registry_blind_fillRequired : frame.

Lemma registry_blind_isMongooseProperty property : registry_blind (isMongooseProperty property).
Proof. unfold isMongooseProperty. frame. Qed.
#[local] Hint Resolve registry_blind_isMongooseProperty : frame.

Lemma registry_blind_isMongooseArray property : registry_blind (isMongooseArray property).
Proof. unfold isMongooseArray. frame. Qed.
#[local] Hint Resolve registry_blind_isMongooseArray : frame.

Lemma registry_blind_replace_definitions ref : registry_blind (replace_definitions ref).
Proof. unfold replace_definitions. frame. Qed.
#[local] Hint Resolve registry_blind_replace_definitions : frame.

Lemma registry_blind_getMongooseSpecific fuel props property : registry_blind (getMongooseSpecific fuel props property).
Proof. unfold getMongooseSpecific. frame. Qed.
#[local] Hint Resolve registry_blind_getMongooseSpecific : frame.

Lemma registry_blind_isPolymorphic def : registry_blind (isPolymorphic def).
Proof. unfold isPolymorphic. frame. Qed.
#[local] Hint Resolve registry_blind_isPolymorphic : frame.

Lemma registry_blind_match_definition refString : registry_blind (match_definition refString).
Proof. unfold match_definition. frame. Qed.
#[local] Hint Resolve registry_blind_match_definition : frame.

Lemma registry_blind_merge_from object merged : registry_blind (merge_from object merged).
Proof. unfold merge_from. frame. Qed.
#[local] Hint Resolve registry_blind_merge_from : frame.

Lemma registry_blind_merge_fragment polyDef merged : registry_blind (merge_fragment polyDef merged).
Proof. unfold merge_fragment. frame. Qed.
#[local] Hint Resolve registry_blind_merge_fragment : frame.

Lemma registry_blind_processPolymorphic definition : registry_blind (processPolymorphic definition).
Proof.
  unfold processPolymorphic. frame; try apply registry_blind_fold_M; intros; frame.
Qed.
#[local] Hint Resolve registry_blind_processPolymorphic : frame.

Lemma registry_blind_processDocumentIndex schema index :
  registry_blind (processDocumentIndex schema index).
Proof. unfold processDocumentIndex. frame. Qed.
#[local] Hint Resolve registry_blind_processDocumentIndex : frame.

Lemma registry_blind_getSchemaProperty_body fuel gs gsp :
  (forall a b, registry_blind (gs a b)) ->
  (forall a b c d e, registry_blind (gsp a b c d e)) ->
  forall property key required objectName object,
    registry_blind (getSchemaProperty_body fuel gs gsp property key required
              objectName object).
Proof.
  intros Hgs Hgsp. intros. unfold getSchemaProperty_body, processRef. frame.
Qed.

Lemma registry_blind_getSchema_body gsp :
  (forall a b c d e, registry_blind (gsp a b c d e)) ->
  forall objectName fullObject, registry_blind (getSchema_body gsp objectName fullObject).
Proof.
  intros Hgsp. intros. unfold getSchema_body, compile_properties. frame.
  apply registry_blind_forEach. intros. unfold getSchema_iteratee. frame.
Qed.

Lemma registry_blind_getSchemaProperty fuel :
  forall property key required objectName object,
    registry_blind (getSchemaProperty fuel property key required objectName object).
Proof.
  induction fuel as [|n IH]; intros; rewrite getSchemaProperty_unfold;
    apply registry_blind_getSchemaProperty_body; intros; frame.
  apply registry_blind_getSchema_body. exact IH.
Qed.
#[local] Hint Resolve registry_blind_getSchemaProperty : frame.

Lemma registry_blind_getSchema fuel objectName fullObject :
  registry_blind (getSchema fuel objectName fullObject).
Proof. apply registry_blind_getSchema_body. intros. frame. Qed.
#[local] Hint Resolve registry_blind_getSchema : frame.

Lemma registry_blind_processAdditionalProperties fuel additional objectName :
  registry_blind (processAdditionalProperties fuel additional objectName).
Proof.
  unfold processAdditionalProperties. frame.
  apply registry_blind_forEach. intros. frame.
Qed.
#[local] Hint Resolve registry_blind_processAdditionalProperties : frame.

(** ** Session state between runs *)

Lemma registry_grows_refl r : registry_grows r r.
Proof. intros k H. exact H. Qed.

Lemma registry_grows_trans r1 r2 r3 :
  registry_grows r1 r2 -> registry_grows r2 r3 -> registry_grows r1 r3.
Proof. intros H1 H2 k H. apply H2, H1, H. Qed.

Lemma registry_grows_set k v r : registry_grows r (obj_set k v r).
Proof.
  intros k' H. rewrite assoc_obj_set. destruct (String.eqb k k'); [discriminate|exact H].
Qed.

Lemma kept_by_refl require st : kept_by require st st.
Proof. repeat split; try apply registry_grows_refl; left; reflexivity. Qed.

Lemma kept_by_trans require st1 st2 st3 :
  kept_by require st1 st2 -> kept_by require st2 st3 -> kept_by require st1 st3.
Proof.
  intros (A1 & B1 & C1 & D1 & V1 & S1) (A2 & B2 & C2 & D2 & V2 & S2).
  repeat split; try (eapply registry_grows_trans; eassumption).
  - destruct V2 as [->|V2]; [exact V1|right; exact V2].
  - destruct S2 as [->|S2]; [exact S1|right; exact S2].
Qed.

Lemma same_variables_kept require st st' :
  same_variables st st' -> kept_by require st st'.
Proof.
  intros (_ & S & X & V). unfold kept_by. rewrite X.
  repeat split; try apply registry_grows_refl; left; assumption.
Qed.

Lemma keeps_heap_only {A} require (c : M A) : heap_only c -> keeps require c.
Proof.
  intros H st. specialize (H st).
  destruct (c st); apply same_variables_kept, H.
Qed.

Lemma keeps_bind {A B} require (c : M A) (k : A -> M B) :
  keeps require c -> (forall a, keeps require (k a)) -> keeps require (bind c k).
Proof.
  intros Hc Hk st. unfold bind. specialize (Hc st).
  destruct (c st) as [a st1|e st1]; [|exact Hc].
  specialize (Hk a st1). destruct (k a st1); eapply kept_by_trans; eauto.
Qed.

Lemma keeps_for_keys {A} require (body : pkey -> A -> M A) ks :
  (forall k a, keeps require (body k a)) ->
  forall a, keeps require (for_keys ks body a).
Proof.
  intros Hb. induction ks as [|k ks IH]; intros a; simpl.
  - apply keeps_heap_only, heap_only_ret.
  - apply keeps_bind; [apply Hb|exact IH].
Qed.

Lemma keeps_forEach {A} require collection (f : val -> pkey -> A -> M A) a :
  (forall v k a, keeps require (f v k a)) -> keeps require (forEach collection f a).
Proof.
  intros Hf. unfold forEach, forEach_over.
  apply keeps_bind; [apply keeps_heap_only, heap_only_get_heap|intros h].
  apply keeps_for_keys. intros.
  apply keeps_bind; [apply keeps_heap_only, heap_only_get_heap|intros h'].
  apply Hf.
Qed.

Lemma keeps_register require (b : bool) f :
  (forall x, registry_grows (schemaOptions x) (schemaOptions (f x)) /\
             registry_grows (additionalProperties x) (additionalProperties (f x)) /\
             registry_grows (excludeSchema x) (excludeSchema (f x)) /\
             registry_grows (documentIndex x) (documentIndex (f x))) ->
  keeps require (if b then with_registries f else ret tt).
Proof.
  intros Hf. destruct b; [|apply keeps_heap_only, heap_only_ret].
  intros st. simpl. destruct (Hf (xSwaggerMongoose st)) as (A & B & C & D).
  repeat split; try assumption; left; reflexivity.
Qed.

Lemma keeps_processMongooseDefinition require key customOptions :
  keeps require (processMongooseDefinition require key customOptions).
Proof.
  unfold processMongooseDefinition.
  destruct (truthy customOptions); [|apply keeps_heap_only, heap_only_ret].
  repeat (apply keeps_bind; [apply keeps_heap_only, heap_only_getp|intros ?];
          apply keeps_bind;
          [apply keeps_register; intros x; simpl;
           repeat split; try apply registry_grows_refl; apply registry_grows_set
          |intros ?]).
  apply keeps_bind; [apply keeps_heap_only, heap_only_getp|intros v].
  destruct (truthy v); [|apply keeps_heap_only, heap_only_ret].
  destruct v; try (apply keeps_heap_only, heap_only_throw).
  destruct (require s) as [module|] eqn:E;
    [|apply keeps_heap_only, heap_only_throw].
  intros st. simpl. repeat split; try apply registry_grows_refl.
  - right. exists s, module. auto.
  - left. reflexivity.
Qed.

Lemma heap_only_applyExtraDefinitions defs extra :
  heap_only (applyExtraDefinitions defs extra).
Proof.
  unfold applyExtraDefinitions. frame; apply heap_only_forEach; intros; frame.
Qed.

Lemma heap_only_load_json j : heap_only (load_json j).
Proof.
  intros st. unfold load_json. destruct (load j (heap st)). repeat split.
Qed.

Lemma heap_only_parse JSON_parse text : heap_only (parse JSON_parse text).
Proof.
  unfold parse. destruct (JSON_parse text); [apply heap_only_load_json|frame].
Qed.

Lemma heap_only_convertToJSON JSON_parse spec :
  heap_only (convertToJSON JSON_parse spec).
Proof.
  unfold convertToJSON. destruct spec; frame; apply heap_only_parse.
Qed.

Lemma heap_only_get_registries : heap_only get_registries.
Proof. intros st. apply same_variables_refl. Qed.
#[local] Hint Resolve heap_only_get_registries : frame.

Lemma keeps_compile_definition require fuel mp definition key schemas :
  keeps require (compile_definition require fuel mp definition key schemas).
Proof.
  unfold compile_definition.
  apply keeps_bind; [apply keeps_heap_only, heap_only_getp|intros custom].
  apply keeps_bind.
  { destruct (truthy custom); [apply keeps_processMongooseDefinition|].
    apply keeps_heap_only, heap_only_ret. }
  intros _. apply keeps_heap_only. frame.
Qed.

Lemma numeric_text_form h : forall fuel hint v w,
  numeric_text fuel h hint v = Some w -> truthy w = true \/ w = VStr "".
Proof.
  assert (P : forall hint v w,
            match deref h v with VArr _ _ => False | _ => True end ->
            forall fuel, numeric_text fuel h hint v = Some w ->
            truthy w = true \/ w = VStr "").
  { intros hint v w Hd fuel. destruct fuel; simpl;
      destruct (deref h v) as [| |b|q| |s|l|fs|es fs|t|f|bs|o op i|m sc|neg];
      try destruct Hd; try (intros [= <-]; left; reflexivity);
      try (intros [= <-]; right; reflexivity).
    all: try (destruct (no_primitive hint fs); [discriminate|];
              intros [= <-]; left; reflexivity).
    all: try (destruct b; intros [= <-]; left; reflexivity).
    all: try (intros [= <-]; simpl; destruct (Qeq_bool q 0) eqn:E; left;
              [reflexivity|simpl; rewrite E; reflexivity]).
    all: intros [= <-]; simpl; destruct (String.eqb s "") eqn:E;
      [right; apply String.eqb_eq in E; subst; reflexivity|left; reflexivity]. }
  induction fuel as [|n IH]; intros hint v w;
    destruct (deref h v) as [| |b|q| |s|l|fs|es fs|t|f|bs|o op i|m sc|neg] eqn:D;
    try (apply P; rewrite D; exact I).
  - simpl. rewrite D. destruct (no_primitive hint fs); [discriminate|].
    destruct (assoc "join" fs) as [x|];
      [destruct (callable x); [discriminate|intros [= <-]; left; reflexivity]|].
    intros [= <-]. right. reflexivity.
  - simpl. rewrite D. destruct (no_primitive hint fs); [discriminate|].
    destruct (assoc "join" fs) as [x|];
      [destruct (callable x); [discriminate|intros [= <-]; left; reflexivity]|].
    destruct (forallb _ _); [|discriminate].
    destruct es as [|e [|e' es]]; simpl.
    + intros [= <-]. right. reflexivity.
    + apply IH.
    + intros [= <-]. left. reflexivity.
Qed.

(** Whatever the version of a document, a primitive that is not falsy has
    the same [Number]. *)
Lemma ToNumber_truthy h v n :
  truthy v = true -> ToNumber h v = Some n ->
  exists w, truthy w = true /\ n = Number w.
Proof.
  intros T.
  assert (O : forall fuel,
            option_map Number (numeric_text fuel h true v) = Some n ->
            exists w, truthy w = true /\ n = Number w).
  { intros fuel. destruct (numeric_text fuel h true v) as [t|] eqn:E;
      [|discriminate]. intros [= <-].
    destruct (numeric_text_form h fuel true v t E) as [H| ->].
    - eexists. split; [exact H|reflexivity].
    - exists (VStr "0"). split; reflexivity. }
  destruct v; try discriminate T; try apply O;
    intros [= <-]; eexists; (split; [exact T|reflexivity]).
Qed.

Lemma keeps_compile JSON_parse require fuel spec extra :
  keeps require (compile JSON_parse require fuel spec extra).
Proof.
  unfold compile.
  destruct (negb (truthy spec)); [apply keeps_heap_only, heap_only_throw|].
  apply keeps_bind; [apply keeps_heap_only, heap_only_convertToJSON|intros swaggerJSON].
  apply keeps_bind; [apply keeps_heap_only, heap_only_getp|intros swagger].
  apply keeps_bind.
  { destruct (truthy swagger) eqn:T; [|apply keeps_heap_only, heap_only_ret].
    intros st. unfold bind, get_heap.
    destruct (ToNumber (heap st) swagger) as [version|] eqn:N;
      [|apply keeps_heap_only, heap_only_throw].
    simpl. repeat split; try apply registry_grows_refl.
    - left. reflexivity.
    - right. destruct (ToNumber_truthy (heap st) swagger version T N)
        as (w & Tw & E).
      exists w. auto. }
  intros _.
  apply keeps_bind; [apply keeps_heap_only, heap_only_getp|intros defs].
  apply keeps_bind.
  { intros st. simpl.
    repeat split; try apply registry_grows_refl; left; reflexivity. }
  intros _.
  apply keeps_bind; [apply keeps_heap_only, heap_only_applyExtraDefinitions|intros _].
  apply keeps_bind; [apply keeps_heap_only, heap_only_mongooseProperty|intros mp].
  apply keeps_bind; [apply keeps_heap_only, heap_only_getp|intros global].
  apply keeps_bind.
  { destruct (truthy global); [apply keeps_processMongooseDefinition|].
    apply keeps_heap_only, heap_only_ret. }
  intros _.
  apply keeps_bind.
  { unfold compile_definitions. apply keeps_forEach. intros.
    apply keeps_compile_definition. }
  intros schemas. apply keeps_heap_only.
  apply heap_only_bind; [|intros; apply heap_only_ret].
  unfold register_models. apply heap_only_forEach. intros. apply heap_only_ret.
Qed.

Lemma agree_same {A} d (o : outcome A) : agree d o o.
Proof. destruct o; simpl; auto. Qed.

Lemma agree_bind {A B} d (c : M A) (k : A -> M B) st :
  definitions_blind c ->
  (forall a st1, agree d (k a st1) (k a (with_definitions d st1))) ->
  agree d (bind c k st) (bind c k (with_definitions d st)).
Proof.
  intros Hc Hk. unfold bind. rewrite Hc.
  destruct (c st) as [a st1|e st1]; simpl; [apply Hk|auto].
Qed.

Lemma definitions_blind_getp v k : definitions_blind (getp v k).
Proof. intros d st. unfold getp. destruct (nullish v); reflexivity. Qed.

Lemma definitions_blind_convertToJSON JSON_parse spec :
  definitions_blind (convertToJSON JSON_parse spec).
Proof.
  intros d st. unfold convertToJSON, parse.
  destruct spec; try reflexivity;
    (destruct (JSON_parse _) as [j|]; [|reflexivity];
     unfold load_json; simpl; destruct (load j (heap st)); reflexivity).
Qed.

Lemma compile_agrees JSON_parse require fuel spec extra d st :
  agree d (compile JSON_parse require fuel spec extra st)
          (compile JSON_parse require fuel spec extra (with_definitions d st)).
Proof.
  unfold compile. destruct (negb (truthy spec)); [simpl; auto|].
  apply agree_bind; [apply definitions_blind_convertToJSON|].
  intros swaggerJSON st1.
  apply agree_bind; [apply definitions_blind_getp|].
  intros swagger st2.
  apply agree_bind.
  { intros d' st'. destruct (truthy swagger); [|reflexivity].
    unfold bind, get_heap. cbn [heap with_definitions].
    destruct (ToNumber (heap st') swagger); reflexivity. }
  intros _ st3.
  apply agree_bind; [apply definitions_blind_getp|].
  intros defs st4.
  unfold bind at 1 3. unfold set_definitions.
  cbn [heap definitions swaggerVersion xSwaggerMongoose validators with_definitions].
  apply agree_same.
Qed.



(** ** Exclusion *)

Ltac inv_bind H :=
  let a := fresh "a" in
  let s := fresh "s" in
  let E := fresh "E" in
  apply bind_inv in H; destruct H as (a & s & E & H).

Lemma getp_inv v k st a st' :
  getp v k st = Ret a st' -> st' = st /\ a = get (heap st) v k.
Proof.
  unfold getp. destruct (nullish v); [discriminate|]. intros [= <- <-]. auto.
Qed.

Lemma heap_only_inv {A} (c : M A) st a st' :
  heap_only c -> c st = Ret a st' -> same_variables st st'.
Proof. intros H E. specialize (H st). rewrite E in H. exact H. Qed.

Lemma excluded_in_same st st' k :
  same_variables st st' -> excluded_in st' k = excluded_in st k.
Proof. intros (_ & _ & X & _). unfold excluded_in. rewrite X. reflexivity. Qed.

(** What a registration does to the exclusion registry: it marks [key] if
    the block has the facet, and changes the mark of no other key. *)
Lemma processMongooseDefinition_exclusion require key customOptions st :
  match processMongooseDefinition require key customOptions st with
  | Ret _ st' | Throw _ st' =>
      (forall k, k <> key -> excluded_in st' k = excluded_in st k) /\
      (excluded_in st key = true -> excluded_in st' key = true) /\
      (truthy customOptions = true ->
       truthy (get (heap st) customOptions "exclude-schema") = true ->
       excluded_in st' key = true)
  end.
Proof.
  unfold processMongooseDefinition.
  destruct (truthy customOptions) eqn:T; [|simpl; repeat split; auto; discriminate].
  apply truthy_not_nullish in T.
  destruct st as [h d v x f].
  unfold bind, getp, with_registries, ret, set_validators, throw. rewrite T.
  cbn [heap definitions swaggerVersion xSwaggerMongoose validators].
  destruct (truthy (get h customOptions "schema-options"));
    cbn [heap definitions swaggerVersion xSwaggerMongoose validators];
    (destruct (truthy (get h customOptions "exclude-schema")) eqn:Te;
     cbn [heap definitions swaggerVersion xSwaggerMongoose validators];
     (destruct (truthy (get h customOptions "additional-properties"));
      cbn [heap definitions swaggerVersion xSwaggerMongoose validators];
      (destruct (truthy (get h customOptions "index"));
       cbn [heap definitions swaggerVersion xSwaggerMongoose validators];
       (destruct (truthy (get h customOptions "validators"));
        [destruct (get h customOptions "validators");
         try match goal with
             | |- context [require ?p] => destruct (require p)
             end|];
        unfold excluded_in;
        cbn [heap definitions swaggerVersion xSwaggerMongoose validators
               excludeSchema own_get];
        (split; [intros k Hk; try reflexivity;
                 rewrite assoc_obj_set_other by congruence; reflexivity|];
         split; [intros H; try exact H; rewrite assoc_obj_set_same; exact Te|];
         intros _ H; try discriminate H; rewrite assoc_obj_set_same; exact Te))))).
Qed.

Lemma ret_inv {A} (a b : A) st st' : ret a st = Ret b st' -> b = a /\ st' = st.
Proof. intros [= <- <-]. auto. Qed.

Lemma get_registries_inv st x st' :
  get_registries st = Ret x st' -> st' = st /\ x = xSwaggerMongoose st.
Proof. intros [= <- <-]. auto. Qed.

Lemma extend_inv t s st a st' : _extend t s st = Ret a st' -> st' = st.
Proof. intros [= _ <-]. reflexivity. Qed.

(** One turn of the loop of [compile]. *)
Lemma compile_definition_exclusion require fuel mp definition key schemas st
  st0 names schemas' st' :
  exclusion_respected mp st0 names schemas st ->
  ~ In (key_name key) names ->
  compile_definition require fuel mp definition key schemas st = Ret schemas' st' ->
  exclusion_respected mp st0 (key_name key :: names) schemas' st'.
Proof.
  intros [Mono Sch] Hfresh H. unfold compile_definition in H.
  inv_bind H. apply getp_inv in E. destruct E as [-> ->].
  inv_bind H. rename s into s1.
  assert (R1 : (forall k, k <> key_name key -> excluded_in s1 k = excluded_in st k) /\
               (excluded_in st (key_name key) = true ->
                excluded_in s1 (key_name key) = true)).
  { destruct (truthy (get (heap st) definition mp)).
    - pose proof (processMongooseDefinition_exclusion require (key_name key)
                    (get (heap st) definition mp) st) as P.
      rewrite E in P. destruct P as (P1 & P2 & _). auto.
    - apply ret_inv in E. destruct E as [_ ->]. auto. }
  destruct R1 as [Other Same]. clear E.
  assert (Mono1 : forall k, excluded_in st0 k = true -> excluded_in s1 k = true).
  { intros k Hk. destruct (string_dec k (key_name key)) as [->|Hne].
    - apply Same, Mono, Hk.
    - rewrite Other by exact Hne. apply Mono, Hk. }
  assert (Sch1 : forall name, In name (map fst schemas) ->
                   In name (key_name key :: names) /\
                   excluded_in s1 name = false /\ excluded_in st0 mp = false).
  { intros name Hin. destruct (Sch name Hin) as (Hn & He & Hg).
    split; [right; exact Hn|]. split; [|exact Hg].
    rewrite Other; [exact He|]. intros ->. contradiction. }
  inv_bind H. apply get_registries_inv in E. destruct E as [-> ->].
  fold (excluded_in s1 (key_name key)) in H.
  destruct (excluded_in s1 (key_name key)) eqn:Ek.
  { apply ret_inv in H. destruct H as [-> ->]. split; assumption. }
  inv_bind H. rename s into s2.
  assert (V2 : same_variables s1 s2)
    by (eapply heap_only_inv; [apply heap_only_getSchema|exact E]).
  clear E. inv_bind H. apply get_registries_inv in E. destruct E as [-> ->].
  inv_bind H. apply extend_inv in E. subst s.
  assert (X2 : xSwaggerMongoose s2 = xSwaggerMongoose s1) by apply V2.
  rewrite X2 in H.
  assert (C : truthy
                (if truthy (own_get (VObj (excludeSchema (xSwaggerMongoose s1))) mp)
                 then own_get (VObj (excludeSchema (xSwaggerMongoose s1))) mp
                 else own_get (VObj (excludeSchema (xSwaggerMongoose s1)))
                        (key_name key))
              = excluded_in s1 mp).
  { unfold excluded_in in *.
    destruct (truthy (own_get (VObj (excludeSchema (xSwaggerMongoose s1))) mp)) eqn:G;
      [exact G|exact Ek]. }
  rewrite C in H. clear C.
  assert (Keep : forall s, same_variables s1 s ->
            exclusion_respected mp st0 (key_name key :: names) schemas s).
  { intros s V. split.
    - intros k Hk. rewrite (excluded_in_same s1 s) by exact V. auto.
    - intros name Hin. rewrite (excluded_in_same s1 s) by exact V. auto. }
  destruct (excluded_in s1 mp) eqn:Eg.
  { rewrite andb_false_r in H. apply ret_inv in H. destruct H as [-> ->]. auto. }
  cbn [negb] in H. rewrite andb_true_r in H.
  destruct (truthy a0); [|apply ret_inv in H; destruct H as [-> ->]; auto].
  inv_bind H. apply extend_inv in E. subst s.
  inv_bind H. rename s into s3.
  assert (V3 : same_variables s2 s3)
    by (eapply heap_only_inv;
        [apply heap_only_processAdditionalProperties|exact E]).
  clear E. inv_bind H. apply extend_inv in E. subst s.
  inv_bind H. apply get_registries_inv in E. destruct E as [-> ->].
  inv_bind H. rename s into s4.
  assert (V4 : same_variables s3 s4)
    by (eapply heap_only_inv; [apply heap_only_processDocumentIndex|exact E]).
  clear E. apply ret_inv in H. destruct H as [-> ->].
  assert (V : same_variables s1 s4)
    by (eapply same_variables_trans; [exact V2|];
        eapply same_variables_trans; eassumption).
  split.
  - intros k Hk. rewrite (excluded_in_same s1 s4) by exact V. auto.
  - intros name Hin. rewrite (excluded_in_same s1 s4) by exact V.
    apply keys_obj_set in Hin. destruct Hin as [<-|Hin]; [|auto].
    split; [left; reflexivity|]. split; [exact Ek|].
    destruct (excluded_in st0 mp) eqn:E0; [|reflexivity].
    rewrite (Mono1 mp E0) in Eg. discriminate.
Qed.

Lemma to_uint_nonnil n : Nat.to_uint n <> Nil.
Proof.
  intros H. pose proof (DecimalNat.Unsigned.of_to n) as E. rewrite H in E.
  simpl in E. subst n. discriminate H.
Qed.

Lemma string_of_nat_inj n m : string_of_nat n = string_of_nat m -> n = m.
Proof.
  unfold string_of_nat. intros H.
  apply (f_equal NilZero.uint_of_string) in H.
  rewrite !NilZero.usu in H by apply to_uint_nonnil.
  injection H as H. apply DecimalNat.Unsigned.to_uint_inj, H.
Qed.

Lemma NoDup_indices n : NoDup (map key_name (map KIdx (seq 0 n))).
Proof.
  rewrite map_map. simpl. apply Finite.Injective_map_NoDup.
  - intros a b. apply string_of_nat_inj.
  - apply seq_NoDup.
Qed.

Lemma forEach_keys_NoDup h collection :
  NoDup (map key_name (forEach_keys h collection)).
Proof.
  unfold forEach_keys.
  destruct (deref h collection); try constructor; try apply NoDup_indices.
  destruct (is_length _); [apply NoDup_indices|].
  rewrite map_map. simpl. rewrite map_id. apply NoDup_nodup.
Qed.

Lemma forEach_over_exclusion require fuel mp defs st0 ks :
  NoDup (map key_name ks) ->
  forall names schemas st schemas' st',
  exclusion_respected mp st0 names schemas st ->
  (forall k, In k ks -> ~ In (key_name k) names) ->
  forEach_over ks defs (compile_definition require fuel mp) schemas st
  = Ret schemas' st' ->
  exists names', exclusion_respected mp st0 names' schemas' st'.
Proof.
  unfold forEach_over.
  induction ks as [|k ks IH]; intros Hnd names schemas st schemas' st' Hr Hfresh H.
  - apply ret_inv in H. destruct H as [-> ->]. eauto.
  - simpl in H, Hnd. inversion Hnd as [|? ? Hk Hnd']; subst.
    inv_bind H. inv_bind E. injection E0 as <- <-.
    apply (IH Hnd' (key_name k :: names) a s schemas' st').
    + eapply compile_definition_exclusion; [exact Hr| |exact E].
      apply Hfresh. left. reflexivity.
    + intros k' Hin [Heq|Hin'].
      * apply Hk. rewrite Heq. apply in_map, Hin.
      * apply (Hfresh k'); [right; exact Hin|exact Hin'].
    + exact H.
Qed.

Lemma compile_definitions_exclusion require fuel mp defs st schemas st' :
  compile_definitions require fuel mp defs st = Ret schemas st' ->
  forall name, In name (map fst schemas) ->
    excluded_in st' name = false /\ excluded_in st mp = false.
Proof.
  unfold compile_definitions, forEach. intros H.
  inv_bind H. injection E as <- <-.
  destruct (forEach_over_exclusion require fuel mp defs st _
              (forEach_keys_NoDup (heap st) defs) [] [] st schemas st')
    as (names & _ & Hs).
  - split; [auto|]. intros name [].
  - intros k _ [].
  - exact H.
  - intros name Hin. destruct (Hs name Hin) as (_ & A & B). auto.
Qed.

Lemma assoc_In k v fs : assoc k fs = Some v -> In (k, v) fs.
Proof.
  induction fs as [|[k0 v0] fs IH]; simpl; [discriminate|].
  destruct (String.eqb k0 k) eqn:E.
  - apply String.eqb_eq in E. subst. intros [= ->]. left. reflexivity.
  - intros H. right. apply IH, H.
Qed.

Lemma for_keys_yields_in {A} (I : A -> Prop) (body : pkey -> A -> M A) ks :
  (forall k a, In k ks -> I a -> yields (body k a) I) ->
  forall a, I a -> yields (for_keys ks body a) I.
Proof.
  induction ks as [|k ks IH]; intros Hb a Ha; simpl.
  - apply yields_ret, Ha.
  - eapply yields_bind; [apply Hb; [left; reflexivity|exact Ha]|].
    intros a' Ha'. apply IH; [|exact Ha'].
    intros k' a'' Hin. apply Hb. right. exact Hin.
Qed.

Lemma compile_definitions_built require fuel mp defs :
  yields (compile_definitions require fuel mp defs) schemas_built.
Proof.
  unfold compile_definitions. apply forEach_yields.
  - intros v k schemas Hs. apply compile_definition_built, Hs.
  - intros name s [].
Qed.

Lemma register_models_keys schemas :
  schemas_built schemas ->
  yields (register_models schemas)
    (fun models => incl (map fst models) (map fst schemas)).
Proof.
  intros Hs. unfold register_models, forEach, forEach_over.
  eapply yields_bind_any. intros h.
  assert (K : forall k, In k (forEach_keys h (VObj schemas)) ->
                        In (key_name k) (map fst schemas)).
  { unfold forEach_keys. cbn [deref own_get].
    destruct (assoc "length" schemas) as [v|] eqn:L.
    - apply assoc_In in L. apply Hs in L. destruct L as (o & op & i & ->).
      cbn [is_length]. intros k Hk. apply in_map_iff in Hk.
      destruct Hk as (name & <- & Hin). simpl. unfold obj_keys in Hin.
      apply nodup_In in Hin. exact Hin.
    - cbn [is_length]. intros k Hk. apply in_map_iff in Hk.
      destruct Hk as (name & <- & Hin). simpl. unfold obj_keys in Hin.
      apply nodup_In in Hin. exact Hin. }
  apply for_keys_yields_in; [|apply incl_nil_l].
  intros k models Hin Hm. eapply yields_bind_any. intros h'.
  apply yields_ret. intros x Hx. apply keys_obj_set in Hx.
  destruct Hx as [<-|Hx]; [apply K, Hin|apply Hm, Hx].
Qed.

Lemma compile_exclusion JSON_parse require fuel spec extra st v st' :
  compile JSON_parse require fuel spec extra st = Ret v st' ->
  exists schemas models,
    v = VObj [("schemas", VObj schemas); ("models", VObj models)] /\
    (forall name, In name (map fst schemas) -> excluded_in st' name = false) /\
    (forall name, In name (map fst models) -> excluded_in st' name = false).
Proof.
  unfold compile. destruct (negb (truthy spec)); [discriminate|]. intros H.
  do 9 (inv_bind H; clear E).
  inv_bind H. inv_bind H.
  apply ret_inv in H. destruct H as [-> Hs]. subst s9.
  exists a8, a9. split; [reflexivity|].
  assert (V : same_variables s8 st').
  { eapply heap_only_inv; [|exact E0]. unfold register_models.
    apply heap_only_forEach. intros. apply heap_only_ret. }
  assert (S : forall name, In name (map fst a8) -> excluded_in st' name = false).
  { intros name Hin. rewrite (excluded_in_same s8 st') by exact V.
    exact (proj1 (compile_definitions_exclusion _ _ _ _ _ _ _ E name Hin)). }
  split; [exact S|].
  intros name Hin. apply S.
  eapply (register_models_keys a8); [|exact E0|exact Hin].
  eapply compile_definitions_built. exact E.
Qed.

(** X18. Exclusion, the part of C6 that the code keeps.  A registration of a
    block whose [exclude-schema] facet is truthy marks its key in the
    exclusion registry
    (the name of the definition, or the extension property name for the
    global block), whether or not the registration then fails.  The loop of
    [compile] emits a schema only under a name that the registry does not
    mark when the loop ends, and only if the global flag was not set when it
    started; [compile] returns schemas and models under such names only.
    Resolving a reference consults no registry: [getSchema] and
    [getSchemaProperty] behave alike whatever the registries hold and leave
    them as they are, and the excluded definition stays in the definition
    registry.  So with [House] excluded from the persons document, only
    [Person] is emitted, and its [houses] embed the compiled map of
    [House]. *)
Theorem excluded_definitions_emit_nothing :
  (forall require key customOptions st,
     truthy customOptions = true ->
     truthy (get (heap st) customOptions "exclude-schema") = true ->
     match processMongooseDefinition require key customOptions st with
     | Ret _ st' | Throw _ st' => excluded_in st' key = true
     end) /\
  (forall require fuel mp defs st schemas st',
     compile_definitions require fuel mp defs st = Ret schemas st' ->
     forall name, In name (map fst schemas) ->
       excluded_in st' name = false /\ excluded_in st mp = false) /\
  (forall JSON_parse require fuel spec _extraDefinitions st v st',
     compile JSON_parse require fuel spec _extraDefinitions st = Ret v st' ->
     exists schemas models,
       v = VObj [("schemas", VObj schemas); ("models", VObj models)] /\
       (forall name, In name (map fst schemas) -> excluded_in st' name = false) /\
       (forall name, In name (map fst models) -> excluded_in st' name = false)) /\
  (forall fuel objectName fullObject,
     registry_blind (getSchema fuel objectName fullObject)) /\
  (forall fuel property key required objectName object,
     registry_blind
       (getSchemaProperty fuel property key required objectName object)) /\
  (forall fuel, 2 <= fuel ->
     let r := result_of (compile_json fuel persons_without_House None)
                initial_state in
     emitted "schemas" r = ["Person"] /\ emitted "models" r = ["Person"] /\
     compiled_map r "Person"
     = Some (VObj [("login", VObj [("type", VType SString);
                                   ("required", VBool true)]);
                   ("houses", VArr [compiled_House] [])])).
Proof.
  split.
  { intros require key customOptions st T F.
    pose proof (processMongooseDefinition_exclusion require key customOptions st) as P.
    destruct (processMongooseDefinition require key customOptions st);
      destruct P as (_ & _ & P); apply P; assumption. }
  split; [exact compile_definitions_exclusion|].
  split; [exact compile_exclusion|].
  split; [exact registry_blind_getSchema|].
  split; [intros; apply registry_blind_getSchemaProperty|].
  intros fuel Hf. destruct fuel as [|[|[|m]]]; try lia;
    vm_compute; repeat split; reflexivity.
Qed.

(** C6 fails on the code.  [Composed] is a composition without type;
    [Owner] has a field [x] that refers to it.  When [Composed] is not
    excluded and comes first, the loop has merged it in place by the time
    [Owner] is compiled, and [x] embeds its field [a].  When [Composed] is
    excluded, the loop registers the exclusion and skips it, leaving the
    store as it is, and the reference of [Owner] finds the composition
    unmerged: the [allOf] branch of [getSchemaProperty] merges the copy it
    is given and emits nothing, where [getSchema] merges and goes on to
    compile.  The property map [getSchema] then returns for [Owner], the
    one [compile] hands to [new mongoose.Schema], binds [x] to
    [undefined]: nothing of [Composed] is embedded.  The same happens with
    nothing excluded when [Owner] comes before [Composed]. *)
Theorem owner_of_excluded_composition (fuel : nat) :
  (let r := result_of (compile_json (S (S fuel)) composition_included None)
              initial_state in
   emitted "schemas" r = ["Composed"; "Owner"] /\
   compiled_map r "Owner"
   = Some (VObj [("x", VObj [("a", VObj [("type", VType SString)])])])) /\
  (let st := at_loop composition_excluded in
   let Composed := get (heap st) (definitions st) "Composed" in
   exists st',
     compile_definition no_module (S fuel) v2MongooseProperty Composed
       (KStr "Composed") [] st
     = Ret [] st' /\
     same_store st st' /\
     excluded_in st' "Composed" = true /\
     result_of (getSchema_of (S fuel) "Owner") st'
     = Rok (VObj [("x", VUndef)])) /\
  result_of (getSchema_of (S fuel) "Owner") (at_loop owner_then_composition)
  = Rok (VObj [("x", VUndef)]).
Proof.
  split; [destruct fuel as [|m]; vm_compute; repeat split; reflexivity|].
  split; [|destruct fuel as [|m]; vm_compute; reflexivity].
  eexists. split; [vm_compute; reflexivity|].
  split; [repeat split|]. split; [reflexivity|].
  destruct fuel as [|m]; vm_compute; reflexivity.
Qed.

(** ** Extra definitions *)

Lemma set_field_length k h w : List.length (set_field k h w) = List.length h.
Proof. apply update_length. Qed.

Lemma fold_set_field_length k ws : forall h,
  List.length (fold_left (set_field k) ws h) = List.length h.
Proof.
  induction ws as [|w ws IH]; intros h; simpl; [reflexivity|].
  rewrite IH. apply set_field_length.
Qed.

Lemma fold_set_field_other k ws : forall h l,
  ~ In l (map fst ws) ->
  nth l (fold_left (set_field k) ws h) VUndef = nth l h VUndef.
Proof.
  induction ws as [|w ws IH]; intros h l Hl; simpl; [reflexivity|].
  rewrite IH by (intros H; apply Hl; right; exact H).
  unfold set_field. apply nth_update_other. intros E. apply Hl. left. exact E.
Qed.

(** Writes to distinct cells, all of them objects: each cell holds what was
    written to it, under the key written, and else what it held. *)
Lemma fold_set_field_written k ws : forall h,
  plain_key k -> NoDup (map fst ws) ->
  (forall l v, In (l, v) ws -> is_object (nth l h VUndef) = true) ->
  forall l v, In (l, v) ws ->
    own_get (nth l (fold_left (set_field k) ws h) VUndef) k = v /\
    forall k', k <> k' ->
      own_get (nth l (fold_left (set_field k) ws h) VUndef) k'
      = own_get (nth l h VUndef) k'.
Proof.
  induction ws as [|[l0 v0] ws IH]; intros h Hk Hnd Ho l v Hin; [destruct Hin|].
  simpl in Hnd. inversion Hnd as [|? ? Hl0 Hnd']; subst. simpl.
  assert (Hobj : is_object (nth l0 h VUndef) = true)
    by (apply (Ho l0 v0); left; reflexivity).
  assert (Hlen : l0 < List.length h).
  { destruct (Nat.lt_ge_cases l0 (List.length h)) as [H|H]; [exact H|].
    rewrite nth_overflow in Hobj by exact H. discriminate Hobj. }
  destruct Hin as [[= <- <-]|Hin].
  - rewrite fold_set_field_other by exact Hl0.
    unfold set_field. simpl. rewrite nth_update_same by exact Hlen.
    split; [apply own_get_set_same; assumption|].
    intros k' Hne. apply own_get_set_other, Hne.
  - assert (Hne : l0 <> l).
    { intros ->. apply Hl0. change l with (fst (l, v)). apply in_map, Hin. }
    destruct (IH (set_field k h (l0, v0)) Hk Hnd') with (l := l) (v := v)
      as [A B]; [|exact Hin|].
    + intros l' v' Hin'. unfold set_field. simpl.
      assert (Hne' : l0 <> l').
      { intros ->. apply Hl0. change l' with (fst (l', v')). apply in_map, Hin'. }
      rewrite nth_update_other by exact Hne'.
      apply (Ho l' v'). right. exact Hin'.
    + split; [exact A|]. intros k' Hk'. rewrite B by exact Hk'.
      unfold set_field. simpl. rewrite nth_update_other by exact Hne. reflexivity.
Qed.

Lemma plain_mongooseProperty st : plain_key (getMongooseProperty st).
Proof.
  unfold getMongooseProperty. destruct (isAtLeastSwagger2 st); split; reflexivity.
Qed.

Lemma setp_cell l k x st :
  setp (VRef l) k x st
  = Ret (VRef l) (with_store (set_field k (heap st) (l, x)) st).
Proof. reflexivity. Qed.

Lemma deletep_cell l k st :
  deletep (VRef l) k st
  = Ret (VRef l)
      (with_store (update l (own_delete (nth l (heap st) VUndef) k) (heap st)) st).
Proof. reflexivity. Qed.

Lemma with_store_heap h st : heap (with_store h st) = h.
Proof. reflexivity. Qed.

Lemma with_store_twice h h' st : with_store h (with_store h' st) = with_store h st.
Proof. reflexivity. Qed.

Lemma with_store_same st : with_store (heap st) st = st.
Proof. destruct st. reflexivity. Qed.

(** The loop that broadcasts [d]: one write per name, to the cell of the
    definition. *)
Lemma broadcast_loop mp d dfs ld : forall ks st,
  nth ld (heap st) VUndef = VObj dfs ->
  (forall name, In name ks ->
     own_get (VObj dfs) name = VRef (cell_of dfs name) /\ cell_of dfs name <> ld) ->
  forEach_over (map KStr ks) (VRef ld)
    (fun val _ _ => setp val mp d ;; ret tt) tt st
  = Ret tt (with_store
      (fold_left (set_field mp) (map (fun n => (cell_of dfs n, d)) ks) (heap st)) st).
Proof.
  induction ks as [|k ks IH]; intros st Hd Hks.
  - simpl. rewrite with_store_same. reflexivity.
  - destruct (Hks k (or_introl eq_refl)) as [Hk Hne].
    unfold forEach_over in *. simpl for_keys.
    unfold bind at 1. unfold bind at 1. unfold get_heap at 1.
    unfold get_key, get, deref. rewrite Hd, Hk.
    unfold bind at 1. rewrite setp_cell. unfold ret at 1.
    rewrite IH.
    + reflexivity.
    + rewrite with_store_heap. unfold set_field. simpl fst.
      rewrite nth_update_other by exact Hne. exact Hd.
    + intros name Hn. apply Hks. right. exact Hn.
Qed.

(** The loop that installs the entries [efs]: one write per key, to the cell
    of the definition of that name. *)
Lemma install_loop mp dfs efs ld le : forall ks st,
  nth ld (heap st) VUndef = VObj dfs ->
  nth le (heap st) VUndef = VObj efs ->
  (forall name, In name ks ->
     own_get (VObj dfs) name = VRef (cell_of dfs name) /\
     cell_of dfs name <> ld /\ cell_of dfs name <> le) ->
  forEach_over (map KStr ks) (VRef le)
    (fun val key _ =>
       def <- getp (VRef ld) (key_name key) ;;
       setp def mp val ;; ret tt) tt st
  = Ret tt (with_store
      (fold_left (set_field mp)
         (map (fun n => (cell_of dfs n, own_get (VObj efs) n)) ks) (heap st)) st).
Proof.
  induction ks as [|k ks IH]; intros st Hd He Hks.
  - simpl. rewrite with_store_same. reflexivity.
  - destruct (Hks k (or_introl eq_refl)) as (Hk & Hne & Hne').
    unfold forEach_over in *. simpl for_keys.
    unfold bind at 1. unfold bind at 1. unfold get_heap at 1.
    unfold get_key, get, deref. rewrite He.
    unfold bind at 1. unfold getp at 1. simpl nullish. cbv iota.
    unfold get, deref. rewrite Hd. simpl key_name. rewrite Hk.
    unfold bind at 1. rewrite setp_cell. unfold ret at 1.
    rewrite IH.
    + reflexivity.
    + rewrite with_store_heap. unfold set_field. simpl fst.
      rewrite nth_update_other by exact Hne. exact Hd.
    + rewrite with_store_heap. unfold set_field. simpl fst.
      rewrite nth_update_other by exact Hne'. exact He.
    + intros name Hn. apply Hks. right. exact Hn.
Qed.

Lemma keyed_installed efs : keyed efs -> keyed (installed efs).
Proof.
  unfold keyed, installed. intros H.
  destruct (truthy _); [|exact H].
  simpl in *. rewrite assoc_obj_delete_other by discriminate. exact H.
Qed.

Lemma cell_within (h : list val) l fs : nth l h VUndef = VObj fs -> l < List.length h.
Proof.
  intros H. destruct (Nat.lt_ge_cases l (List.length h)) as [L|L]; [exact L|].
  rewrite nth_overflow in H by exact L. discriminate H.
Qed.

Lemma not_in_cells (dfs : obj) (X : string -> val) l ks :
  (forall name, In name ks -> cell_of dfs name <> l) ->
  ~ In l (map fst (map (fun n => (cell_of dfs n, X n)) ks)).
Proof.
  intros H Hin. rewrite map_map in Hin. simpl in Hin.
  apply in_map_iff in Hin. destruct Hin as (n & E & Hn).
  exact (H n Hn E).
Qed.

Lemma forEach_broadcast mp d dfs ld st :
  nth ld (heap st) VUndef = VObj dfs -> keyed dfs ->
  (forall name, In name (obj_keys dfs) ->
     own_get (VObj dfs) name = VRef (cell_of dfs name) /\ cell_of dfs name <> ld) ->
  forEach (VRef ld) (fun val _ _ => setp val mp d ;; ret tt) tt st
  = Ret tt (with_store
      (fold_left (set_field mp) (map (fun n => (cell_of dfs n, d)) (obj_keys dfs))
         (heap st)) st).
Proof.
  intros Hd Kd Hks. unfold forEach.
  rewrite (bind_Ret get_heap _ st (heap st) st eq_refl).
  unfold forEach_keys, deref. rewrite Hd, Kd.
  apply broadcast_loop; assumption.
Qed.

Lemma forEach_install mp dfs efs ld le st :
  nth ld (heap st) VUndef = VObj dfs ->
  nth le (heap st) VUndef = VObj efs -> keyed efs ->
  (forall name, In name (obj_keys efs) ->
     own_get (VObj dfs) name = VRef (cell_of dfs name) /\
     cell_of dfs name <> ld /\ cell_of dfs name <> le) ->
  forEach (VRef le)
    (fun val key _ =>
       def <- getp (VRef ld) (key_name key) ;;
       setp def mp val ;; ret tt) tt st
  = Ret tt (with_store
      (fold_left (set_field mp)
         (map (fun n => (cell_of dfs n, own_get (VObj efs) n)) (obj_keys efs))
         (heap st)) st).
Proof.
  intros Hd He Ke Hks. unfold forEach.
  rewrite (bind_Ret get_heap _ st (heap st) st eq_refl).
  unfold forEach_keys, deref. rewrite He, Ke.
  apply install_loop; assumption.
Qed.

(** What [applyExtraDefinitions] does to the store. *)
Lemma applyExtraDefinitions_store st ld le dfs efs :
  nth ld (heap st) VUndef = VObj dfs -> keyed dfs ->
  nth le (heap st) VUndef = VObj efs -> keyed efs ->
  ld <> le ->
  definition_cells (heap st) dfs ld le ->
  (forall name, In name (obj_keys (installed efs)) -> In name (obj_keys dfs)) ->
  applyExtraDefinitions (VRef ld) (VRef le) st
  = Ret tt (with_store
      (applied_store (getMongooseProperty st) dfs efs le (heap st)) st).
Proof.
  intros Hd Kd He Ke Hne [Hcells _] Hin.
  assert (Ki := keyed_installed efs Ke).
  assert (Hg : getp (VRef le) "default" st = Ret (own_get (VObj efs) "default") st).
  { unfold getp, get, deref. simpl nullish. cbv iota. rewrite He. reflexivity. }
  unfold applyExtraDefinitions, applied_store.
  change (truthy (VRef le)) with true. cbv iota.
  rewrite (bind_Ret mongooseProperty _ st (getMongooseProperty st) st eq_refl).
  rewrite (bind_Ret _ _ _ _ _ Hg).
  set (mp := getMongooseProperty st).
  destruct (truthy (own_get (VObj efs) "default")) eqn:Td;
    change (negb true) with false; change (negb false) with true; cbv iota.
  - assert (Ei : obj_delete "default" efs = installed efs)
      by (unfold installed; rewrite Td; reflexivity).
    set (h_a := update le (VObj (installed efs)) (heap st)).
    assert (Hdel : deletep (VRef le) "default" st = Ret (VRef le) (with_store h_a st)).
    { rewrite deletep_cell, He. unfold h_a. rewrite <- Ei. reflexivity. }
    assert (Hd_a : nth ld h_a VUndef = VObj dfs).
    { unfold h_a. rewrite nth_update_other by (intros E; apply Hne; symmetry; exact E).
      exact Hd. }
    assert (He_a : nth le h_a VUndef = VObj (installed efs)).
    { unfold h_a. apply nth_update_same. eapply cell_within, He. }
    set (h1 := fold_left (set_field mp)
                 (map (fun n => (cell_of dfs n, own_get (VObj efs) "default"))
                    (obj_keys dfs)) h_a).
    assert (Hd1 : nth ld h1 VUndef = VObj dfs).
    { unfold h1. rewrite fold_set_field_other; [exact Hd_a|].
      apply not_in_cells. intros name Hn. apply (Hcells name Hn). }
    assert (He1 : nth le h1 VUndef = VObj (installed efs)).
    { unfold h1. rewrite fold_set_field_other; [exact He_a|].
      apply not_in_cells. intros name Hn. apply (Hcells name Hn). }
    erewrite bind_Ret with (a := VRef le) (st1 := with_store h1 st).
    2:{ rewrite (bind_Ret _ _ _ _ _ Hdel).
        erewrite bind_Ret; [reflexivity|].
        rewrite forEach_broadcast with (dfs := dfs).
        - reflexivity.
        - exact Hd_a.
        - exact Kd.
        - intros name Hn. destruct (Hcells name Hn) as (A & _ & B & _).
          split; assumption. }
    rewrite forEach_install with (dfs := dfs) (efs := installed efs).
    + reflexivity.
    + exact Hd1.
    + exact He1.
    + exact Ki.
    + intros name Hn. destruct (Hcells name (Hin name Hn)) as (A & _ & B & C).
      repeat split; assumption.
  - assert (Ei : installed efs = efs)
      by (unfold installed; rewrite Td; reflexivity).
    rewrite Ei in *.
    rewrite (bind_Ret (ret (VRef le)) _ st (VRef le) st eq_refl).
    rewrite forEach_install with (dfs := dfs) (efs := efs).
    + reflexivity.
    + exact Hd.
    + exact He.
    + exact Ke.
    + intros name Hn. destruct (Hcells name (Hin name Hn)) as (A & _ & B & C).
      repeat split; assumption.
Qed.

Lemma set_field_is_object k h w l :
  is_object (nth l (set_field k h w) VUndef) = is_object (nth l h VUndef).
Proof.
  unfold set_field. destruct (Nat.eq_dec (fst w) l) as [<-|Hne].
  - destruct (Nat.lt_ge_cases (fst w) (List.length h)) as [L|L].
    + rewrite nth_update_same by exact L. apply is_object_own_set.
    + rewrite !nth_overflow; [reflexivity|exact L|rewrite update_length; exact L].
  - rewrite nth_update_other by exact Hne. reflexivity.
Qed.

Lemma fold_set_field_is_object k ws : forall h l,
  is_object (nth l (fold_left (set_field k) ws h) VUndef) = is_object (nth l h VUndef).
Proof.
  induction ws as [|w ws IH]; intros h l; simpl; [reflexivity|].
  rewrite IH. apply set_field_is_object.
Qed.

Lemma in_obj_keys k fs : In k (obj_keys fs) <-> assoc k fs <> None.
Proof.
  unfold obj_keys. rewrite nodup_In.
  induction fs as [|[k0 v0] fs IH]; simpl.
  - split; [intros []|intros H; apply H; reflexivity].
  - destruct (String.eqb k0 k) eqn:E.
    + apply String.eqb_eq in E. split; [discriminate|left; exact E].
    + rewrite <- IH. split; [intros [H|H]; [|exact H]|intros H; right; exact H].
      subst k0. rewrite String.eqb_refl in E. discriminate E.
Qed.

Lemma NoDup_cells (h : list val) dfs ld le (X : string -> val) ks :
  definition_cells h dfs ld le -> NoDup ks ->
  (forall name, In name ks -> In name (obj_keys dfs)) ->
  NoDup (map fst (map (fun n => (cell_of dfs n, X n)) ks)).
Proof.
  intros [_ Hinj] Hnd Hks. rewrite map_map. simpl.
  apply NoDup_map_NoDup_ForallPairs; [|exact Hnd].
  intros a b Ha Hb E. apply Hinj; auto.
Qed.

(** The blocks of the definitions in the store [applyExtraDefinitions]
    leaves, and the cells of the two objects it was given. *)
Lemma applied_store_blocks mp h ld le dfs efs :
  plain_key mp ->
  nth ld h VUndef = VObj dfs -> nth le h VUndef = VObj efs -> ld <> le ->
  definition_cells h dfs ld le ->
  (forall name, In name (obj_keys (installed efs)) -> In name (obj_keys dfs)) ->
  let h' := applied_store mp dfs efs le h in
  nth ld h' VUndef = VObj dfs /\
  nth le h' VUndef = VObj (installed efs) /\
  forall name, In name (obj_keys dfs) ->
    get h' (get h' (VRef ld) name) mp
    = block_after efs name (get h (get h (VRef ld) name) mp).
Proof.
  intros Hmp Hd He Hne Hcells Hin.
  assert (Hc := proj1 Hcells). unfold applied_store.
  set (d := own_get (VObj efs) "default").
  set (h_a := if truthy d then update le (VObj (installed efs)) h else h).
  set (ws1 := if truthy d then map (fun n => (cell_of dfs n, d)) (obj_keys dfs)
              else []).
  set (ws2 := map (fun n => (cell_of dfs n, own_get (VObj (installed efs)) n))
                (obj_keys (installed efs))).
  set (h1 := fold_left (set_field mp) ws1 h_a).
  assert (Other_a : forall l, l <> le -> nth l h_a VUndef = nth l h VUndef).
  { intros l Hl. unfold h_a. destruct (truthy d); [|reflexivity].
    apply nth_update_other. intros E. apply Hl. symmetry. exact E. }
  assert (He_a : nth le h_a VUndef = VObj (installed efs)).
  { unfold h_a. unfold installed. fold d. destruct (truthy d) eqn:Td.
    - apply nth_update_same. eapply cell_within, He.
    - exact He. }
  assert (N1 : forall l, (forall name, In name (obj_keys dfs) -> cell_of dfs name <> l) ->
                 ~ In l (map fst ws1)).
  { intros l Hl. unfold ws1. destruct (truthy d); [|intros []].
    apply not_in_cells, Hl. }
  assert (N2 : forall l, (forall name, In name (obj_keys (installed efs)) ->
                            cell_of dfs name <> l) -> ~ In l (map fst ws2)).
  { intros l Hl. apply not_in_cells, Hl. }
  assert (Hd' : nth ld (fold_left (set_field mp) ws2 h1) VUndef = VObj dfs).
  { rewrite fold_set_field_other
      by (apply N2; intros name Hn; apply (Hc name (Hin name Hn))).
    unfold h1. rewrite fold_set_field_other
      by (apply N1; intros name Hn; apply (Hc name Hn)).
    rewrite Other_a by exact Hne. exact Hd. }
  split; [exact Hd'|]. split.
  { rewrite fold_set_field_other
      by (apply N2; intros name Hn; apply (Hc name (Hin name Hn))).
    unfold h1. rewrite fold_set_field_other
      by (apply N1; intros name Hn; apply (Hc name Hn)).
    exact He_a. }
  intros name Hname. destruct (Hc name Hname) as (Hk & Ho & Hl1 & Hl2).
  unfold get at 2 4. unfold deref. rewrite Hd', Hd, Hk.
  unfold get, deref.
  assert (Ho_a : forall n, In n (obj_keys dfs) ->
                   is_object (nth (cell_of dfs n) h_a VUndef) = true).
  { intros n Hn. destruct (Hc n Hn) as (_ & O & _ & L). rewrite Other_a by exact L.
    exact O. }
  assert (W1 : truthy d = true ->
               own_get (nth (cell_of dfs name) h1 VUndef) mp = d).
  { intros Td. unfold h1.
    refine (proj1 (fold_set_field_written mp ws1 h_a Hmp _ _ (cell_of dfs name) d _)).
    - unfold ws1. rewrite Td. eapply NoDup_cells; [exact Hcells| |auto].
      apply NoDup_nodup.
    - unfold ws1. rewrite Td. intros l v Hlv. apply in_map_iff in Hlv.
      destruct Hlv as (n & [= <- <-] & Hn). apply Ho_a, Hn.
    - unfold ws1. rewrite Td. apply in_map_iff. exists name. split; [reflexivity|exact Hname]. }
  unfold block_after. fold d.
  destruct (assoc name (installed efs)) as [v|] eqn:Ea.
  - assert (Hn : In name (obj_keys (installed efs)))
      by (apply in_obj_keys; rewrite Ea; discriminate).
    refine (proj1 (fold_set_field_written mp ws2 h1 Hmp _ _ (cell_of dfs name) v _)).
    + eapply NoDup_cells; [exact Hcells| |exact Hin]. apply NoDup_nodup.
    + intros l v' Hlv. apply in_map_iff in Hlv.
      destruct Hlv as (n & [= <- <-] & Hn'). unfold h1.
      rewrite fold_set_field_is_object. apply Ho_a, Hin, Hn'.
    + apply in_map_iff. exists name. split; [|exact Hn].
      simpl. rewrite Ea. reflexivity.
  - rewrite fold_set_field_other.
    + destruct (truthy d) eqn:Td; [apply W1; reflexivity|].
      unfold h1, ws1, h_a. reflexivity.
    + apply N2. intros n Hn E.
      assert (n = name) by (apply (proj2 Hcells); auto). subst n.
      apply in_obj_keys in Hn. apply Hn, Ea.
Qed.

(** ** The fields the compiler leaves alone *)

Lemma last_binding_app k es es' :
  last_binding k (es ++ es') =
  match last_binding k es' with
  | Some v => Some v
  | None => last_binding k es
  end.
Proof.
  induction es as [|[k0 v0] es IH]; simpl.
  - destruct (last_binding k es'); reflexivity.
  - rewrite IH. destruct (last_binding k es'); reflexivity.
Qed.

Lemma last_binding_obj_set k k' v fs :
  k' <> k -> last_binding k (obj_set k' v fs) = last_binding k fs.
Proof.
  intros Hne. induction fs as [|[k0 v0] fs IH]; simpl.
  - destruct (String.eqb k' k) eqn:E; [|reflexivity].
    apply String.eqb_eq in E. contradiction.
  - destruct (String.eqb k0 k') eqn:E0; simpl.
    + apply String.eqb_eq in E0. subst k0.
      destruct (last_binding k fs); [reflexivity|].
      destruct (String.eqb k' k) eqn:E; [|reflexivity].
      apply String.eqb_eq in E. contradiction.
    + rewrite IH. reflexivity.
Qed.

Lemma last_binding_obj_delete k k' fs :
  k' <> k -> last_binding k (obj_delete k' fs) = last_binding k fs.
Proof.
  intros Hne. induction fs as [|[k0 v0] fs IH]; simpl; [reflexivity|].
  destruct (String.eqb k0 k') eqn:E0; simpl.
  - apply String.eqb_eq in E0. subst k0. rewrite IH.
    destruct (last_binding k fs); [reflexivity|].
    destruct (String.eqb k' k) eqn:E; [|reflexivity].
    apply String.eqb_eq in E. contradiction.
  - rewrite IH. reflexivity.
Qed.

Lemma same_field_refl k d : same_field k d d.
Proof. split; reflexivity. Qed.

Lemma same_field_trans k d1 d2 d3 :
  same_field k d1 d2 -> same_field k d2 d3 -> same_field k d1 d3.
Proof. intros [A B] [C D]. split; congruence. Qed.

Lemma same_field_own_set k k' d x : k' <> k -> same_field k d (own_set d k' x).
Proof.
  intros Hne. split; [apply own_get_set_other, Hne|].
  destruct d; try reflexivity; simpl.
  - apply last_binding_obj_set, Hne.
  - rewrite !last_binding_app, last_binding_obj_set by exact Hne. reflexivity.
Qed.

Lemma same_field_own_delete k k' d : k' <> k -> same_field k d (own_delete d k').
Proof.
  intros Hne. split; [apply own_get_delete_other, Hne|].
  destruct d; try reflexivity; simpl.
  - apply last_binding_obj_delete, Hne.
  - rewrite !last_binding_app, last_binding_obj_delete by exact Hne. reflexivity.
Qed.

Lemma field_kept_refl k h : field_kept k h h.
Proof. split; [apply le_n|]. intros. apply same_field_refl. Qed.

Lemma field_kept_trans k h1 h2 h3 :
  field_kept k h1 h2 -> field_kept k h2 h3 -> field_kept k h1 h3.
Proof.
  intros [L1 F1] [L2 F2]. split; [lia|].
  intros l Hl. eapply same_field_trans; [apply F1, Hl|apply F2; lia].
Qed.

Lemma field_kept_update k h l d :
  same_field k (nth l h VUndef) d -> field_kept k h (update l d h).
Proof.
  intros Hd. split; [rewrite update_length; apply le_n|].
  intros l' Hl'. destruct (Nat.eq_dec l l') as [<-|Hne].
  - rewrite nth_update_same by exact Hl'. exact Hd.
  - rewrite nth_update_other by exact Hne. apply same_field_refl.
Qed.

Lemma field_kept_app k h d : field_kept k h (h ++ [d]).
Proof.
  split; [rewrite length_app; lia|].
  intros l Hl. rewrite app_nth1 by exact Hl. apply same_field_refl.
Qed.

(** A read through a value that the older store resolves. *)
Lemma field_kept_get k h h' v :
  field_kept k h h' -> deref h v <> VUndef -> get h' v k = get h v k.
Proof.
  intros [_ F] Hv. unfold get. destruct v; try reflexivity. simpl in *.
  apply F. destruct (Nat.lt_ge_cases l (List.length h)) as [L|L]; [exact L|].
  rewrite nth_overflow in Hv by exact L. contradiction.
Qed.

Lemma field_kept_entries k h h' v :
  field_kept k h h' -> deref h v <> VUndef ->
  last_binding k (own_entries (deref h' v)) = last_binding k (own_entries (deref h v)).
Proof.
  intros [_ F] Hv. destruct v; try reflexivity. simpl in *.
  apply F. destruct (Nat.lt_ge_cases l (List.length h)) as [L|L]; [exact L|].
  rewrite nth_overflow in Hv by exact L. contradiction.
Qed.

(** ** What the compiler leaves of the store *)

Section Spared.
(** A field that is none of those the compiler writes. *)
Variable field : string.
Hypothesis unwritten : ~ In field written.

Lemma written_other k : In k written -> k <> field.
Proof. intros H ->. exact (unwritten H). Qed.

Lemma spares_ret {A} (a : A) : spares field (ret a).
Proof. intros st. apply field_kept_refl. Qed.

Lemma spares_throw {A} e : spares field (@throw A e).
Proof. intros st. apply field_kept_refl. Qed.

Lemma spares_bind {A B} (c : M A) (k : A -> M B) :
  spares field c -> (forall a, spares field (k a)) -> spares field (bind c k).
Proof.
  intros Hc Hk st. unfold bind. specialize (Hc st).
  destruct (c st) as [a st1|e st1]; [|exact Hc].
  specialize (Hk a st1). destruct (k a st1); eapply field_kept_trans; eauto.
Qed.

Lemma spares_lift {A} (r : res A) : spares field (lift r).
Proof. destruct r; [apply spares_ret|apply spares_throw]. Qed.

Lemma spares_getp v k : spares field (getp v k).
Proof. intros st. unfold getp. destruct (nullish v); apply field_kept_refl. Qed.

Lemma spares_setp v k x : In k written -> spares field (setp v k x).
Proof.
  intros Hk. destruct v; try apply spares_ret; try apply spares_throw.
  intros st. simpl. apply field_kept_update, same_field_own_set, written_other, Hk.
Qed.

Lemma spares_deletep v k : In k written -> spares field (deletep v k).
Proof.
  intros Hk. destruct v; try apply spares_ret; try apply spares_throw.
  intros st. simpl. apply field_kept_update, same_field_own_delete, written_other, Hk.
Qed.

Lemma spares_alloc d : spares field (alloc d).
Proof. intros st. simpl. apply field_kept_app. Qed.

Lemma spares_with_registries f : spares field (with_registries f).
Proof. intros st. apply field_kept_refl. Qed.

Lemma spares_get_registries : spares field get_registries.
Proof. intros st. apply field_kept_refl. Qed.

Lemma spares_set_validators v : spares field (set_validators v).
Proof. intros st. apply field_kept_refl. Qed.

Create HintDb spare discriminated.

#[local] Hint Resolve spares_ret spares_throw spares_lift spares_getp spares_setp
  spares_deletep spares_alloc spares_with_registries spares_get_registries
  spares_set_validators : spare.
#[local] Hint Extern 1 (In _ written) => simpl; tauto : spare.

Ltac spare_step :=
  first
    [ solve [auto with spare]
    | match goal with
      | |- spares _ (bind _ _) => apply spares_bind; [|intros ?]
      | |- spares _ (if ?b then _ else _) => destruct b
      | |- spares _ (match ?v with _ => _ end) => destruct v
      | |- spares _ (let '(_, _) := ?p in _) => destruct p
      end ].

Ltac spare := repeat spare_step.

Lemma spares_get_heap : spares field get_heap.
Proof. intros st. apply field_kept_refl. Qed.
Lemma spares_get_definitions : spares field get_definitions.
Proof. intros st. apply field_kept_refl. Qed.
Lemma spares_get_validator n : spares field (get_validator n).
Proof. intros st. apply field_kept_refl. Qed.
Lemma spares_mongooseProperty : spares field mongooseProperty.
Proof. intros st. apply field_kept_refl. Qed.
Lemma spares_atLeastSwagger2 : spares field atLeastSwagger2.
Proof. intros st. apply field_kept_refl. Qed.
Lemma spares_extend t s : spares field (_extend t s).
Proof. intros st. apply field_kept_refl. Qed.
Lemma spares_Object_assign t s : spares field (Object_assign t s).
Proof. intros st. apply field_kept_refl. Qed.
#[local] Hint Resolve spares_get_heap spares_get_definitions
  spares_get_validator spares_mongooseProperty spares_atLeastSwagger2
  spares_extend spares_Object_assign : spare.

Lemma spares_for_keys {A} (body : pkey -> A -> M A) ks :
  (forall k a, spares field (body k a)) -> forall a, spares field (for_keys ks body a).
Proof.
  intros Hb. induction ks as [|k ks IH]; intros a; simpl; spare.
Qed.

Lemma spares_forEach {A} collection (f : val -> pkey -> A -> M A) a :
  (forall v k a, spares field (f v k a)) -> spares field (forEach collection f a).
Proof.
  intros Hf. unfold forEach, forEach_over.
  apply spares_bind; [apply spares_get_heap|intros h].
  apply spares_for_keys. intros.
  apply spares_bind; [apply spares_get_heap|intros h']. apply Hf.
Qed.

Lemma spares_fold_M {A B} (f : B -> A -> M A) l :
  (forall x a, spares field (f x a)) -> forall a, spares field (fold_M f l a).
Proof.
  intros Hf. induction l as [|x l IH]; intros a; simpl; spare.
Qed.

Lemma spares_propertyMapM fuel property : spares field (propertyMapM fuel property).
Proof. unfold propertyMapM. spare. Qed.
#[local] Hint Resolve spares_propertyMapM : spare.

Lemma spares_isSimpleSchema schema : spares field (isSimpleSchema schema).
Proof. unfold isSimpleSchema. spare. Qed.
#[local] Hint Resolve spares_isSimpleSchema : spare.

Lemma spares_isPropertyHasRef property : spares field (isPropertyHasRef property).
Proof. unfold isPropertyHasRef. spare. Qed.
#[local] Hint Resolve spares_isPropertyHasRef : spare.

Lemma spares_assign_in object key f x :
  In f written -> spares field (assign_in object key f x).
Proof. intros Hf. unfold assign_in. spare. Qed.
#[local] Hint Resolve spares_assign_in : spare.

Lemma spares_fillRequired object key template : spares field (fillRequired object key template).
Proof. unfold fillRequired. spare. Qed.
#[local] Hint Resolve spares_fillRequired : spare.

Lemma spares_isMongooseProperty property : spares field (isMongooseProperty property).
Proof. unfold isMongooseProperty. spare. Qed.
#[local] Hint Resolve spares_isMongooseProperty : spare.

Lemma spares_isMongooseArray property : spares field (isMongooseArray property).
Proof. unfold isMongooseArray. spare. Qed.
#[local] Hint Resolve spares_isMongooseArray : spare.

Lemma spares_replace_definitions ref : spares field (replace_definitions ref).
Proof. unfold replace_definitions. spare. Qed.
#[local] Hint Resolve spares_replace_definitions : spare.

Lemma spares_getMongooseSpecific fuel props property : spares field (getMongooseSpecific fuel props property).
Proof. unfold getMongooseSpecific. spare. Qed.
#[local] Hint Resolve spares_getMongooseSpecific : spare.

Lemma spares_isPolymorphic def : spares field (isPolymorphic def).
Proof. unfold isPolymorphic. spare. Qed.
#[local] Hint Resolve spares_isPolymorphic : spare.

Lemma spares_match_definition refString : spares field (match_definition refString).
Proof. unfold match_definition. spare. Qed.
#[local] Hint Resolve spares_match_definition : spare.

Lemma spares_merge_from object merged : spares field (merge_from object merged).
Proof. unfold merge_from. spare. Qed.
#[local] Hint Resolve spares_merge_from : spare.

Lemma spares_merge_fragment polyDef merged : spares field (merge_fragment polyDef merged).
Proof. unfold merge_fragment. spare. Qed.
#[local] Hint Resolve spares_merge_fragment : spare.

Lemma spares_processPolymorphic definition : spares field (processPolymorphic definition).
Proof.
  unfold processPolymorphic. spare; try apply spares_fold_M; intros; spare.
Qed.
#[local] Hint Resolve spares_processPolymorphic : spare.

Lemma spares_processDocumentIndex schema index :
  spares field (processDocumentIndex schema index).
Proof. unfold processDocumentIndex. spare. Qed.
#[local] Hint Resolve spares_processDocumentIndex : spare.

Lemma spares_getSchemaProperty_body fuel gs gsp :
  (forall a b, spares field (gs a b)) ->
  (forall a b c d e, spares field (gsp a b c d e)) ->
  forall property key required objectName object,
    spares field (getSchemaProperty_body fuel gs gsp property key required
              objectName object).
Proof.
  intros Hgs Hgsp. intros. unfold getSchemaProperty_body, processRef. spare.
Qed.

Lemma spares_getSchema_body gsp :
  (forall a b c d e, spares field (gsp a b c d e)) ->
  forall objectName fullObject, spares field (getSchema_body gsp objectName fullObject).
Proof.
  intros Hgsp. intros. unfold getSchema_body, compile_properties. spare.
  apply spares_forEach. intros. unfold getSchema_iteratee. spare.
Qed.

Lemma spares_getSchemaProperty fuel :
  forall property key required objectName object,
    spares field (getSchemaProperty fuel property key required objectName object).
Proof.
  induction fuel as [|n IH]; intros; rewrite getSchemaProperty_unfold;
    apply spares_getSchemaProperty_body; intros; spare.
  apply spares_getSchema_body. exact IH.
Qed.
#[local] Hint Resolve spares_getSchemaProperty : spare.

Lemma spares_getSchema fuel objectName fullObject :
  spares field (getSchema fuel objectName fullObject).
Proof. apply spares_getSchema_body. intros. spare. Qed.
#[local] Hint Resolve spares_getSchema : spare.

Lemma spares_processAdditionalProperties fuel additional objectName :
  spares field (processAdditionalProperties fuel additional objectName).
Proof.
  unfold processAdditionalProperties. spare.
  apply spares_forEach. intros. spare.
Qed.
#[local] Hint Resolve spares_processAdditionalProperties : spare.

Lemma spares_processMongooseDefinition require key customOptions :
  spares field (processMongooseDefinition require key customOptions).
Proof. unfold processMongooseDefinition. spare. Qed.

Lemma spares_compile_definition require fuel mp definition key schemas :
  spares field (compile_definition require fuel mp definition key schemas).
Proof.
  unfold compile_definition. spare; apply spares_processMongooseDefinition.
Qed.

End Spared.

(** ** The options of the schemas *)

Lemma truthy_get h v k : truthy (get h v k) = true -> truthy v = true.
Proof.
  unfold get. intros H.
  destruct v; try reflexivity; simpl in H; try discriminate H.
  destruct s as [|c s]; [|reflexivity].
  simpl in H. destruct (String.eqb k "length"); [discriminate H|].
  destruct (index_of_key k) as [[|i]|]; discriminate H.
Qed.

Lemma spares_inv {A} field (c : M A) st a st' :
  spares field c -> c st = Ret a st' -> field_kept field (heap st) (heap st').
Proof. intros H E. specialize (H st). rewrite E in H. exact H. Qed.

(** What a registration does to the store and to the options registry. *)
Lemma processMongooseDefinition_options require key customOptions st st' :
  processMongooseDefinition require key customOptions st = Ret tt st' ->
  heap st' = heap st /\
  (truthy (get (heap st) customOptions "schema-options") = true ->
   own_get (VObj (schemaOptions (xSwaggerMongoose st'))) key
   = get (heap st) customOptions "schema-options").
Proof.
  unfold processMongooseDefinition.
  destruct (truthy customOptions) eqn:T.
  2:{ intros [= <-]. split; [reflexivity|]. intros H.
      apply truthy_get in H. congruence. }
  apply truthy_not_nullish in T.
  destruct st as [h d v x f].
  unfold bind, getp, with_registries, ret, set_validators, throw. rewrite T.
  cbn [heap definitions swaggerVersion xSwaggerMongoose validators].
  destruct (truthy (get h customOptions "schema-options")) eqn:Ts;
    cbn [heap definitions swaggerVersion xSwaggerMongoose validators];
    (destruct (truthy (get h customOptions "exclude-schema"));
     cbn [heap definitions swaggerVersion xSwaggerMongoose validators];
     (destruct (truthy (get h customOptions "additional-properties"));
      cbn [heap definitions swaggerVersion xSwaggerMongoose validators];
      (destruct (truthy (get h customOptions "index"));
       cbn [heap definitions swaggerVersion xSwaggerMongoose validators];
       (destruct (truthy (get h customOptions "validators"));
        [destruct (get h customOptions "validators");
         try match goal with
             | |- context [require ?p] => destruct (require p)
             end|];
        try discriminate;
        intros [= <-];
        cbn [heap definitions swaggerVersion xSwaggerMongoose validators
               schemaOptions own_get];
        (split; [reflexivity|]);
        intros H; try discriminate H; rewrite assoc_obj_set_same; reflexivity)))).
Qed.

Lemma extend_last h (target : obj) g so field v :
  truthy so = true ->
  last_binding field (own_entries (deref h so)) = Some v ->
  assoc field (extend h target [g; so]) = Some v.
Proof.
  intros T L. unfold extend. simpl. rewrite T.
  rewrite assoc_obj_assign, L. reflexivity.
Qed.

(** One turn of the loop of [compile]: it leaves the schemas as they are,
    or adds one under the key, whose options have every field of the
    [schema-options] of the definition's block, as the last source of the
    copy. *)
Lemma compile_definition_options require fuel mp definition key schemas st
  schemas' st' :
  compile_definition require fuel mp definition key schemas st = Ret schemas' st' ->
  schemas' = schemas \/
  exists object options index,
    schemas' = obj_set (key_name key) (VSchema object (VObj options) index) schemas /\
    forall field v, ~ In field written ->
      let so := get (heap st) (get (heap st) definition mp) "schema-options" in
      truthy so = true ->
      last_binding field (own_entries (deref (heap st) so)) = Some v ->
      assoc field options = Some v.
Proof.
  intros H. unfold compile_definition in H.
  apply bind_inv in H. destruct H as (custom & s0 & E & H).
  apply getp_inv in E. destruct E as [-> ->].
  apply bind_inv in H. destruct H as ([] & s1 & E1 & H).
  assert (R1 : heap s1 = heap st /\
               (truthy (get (heap st) (get (heap st) definition mp) "schema-options")
                = true ->
                own_get (VObj (schemaOptions (xSwaggerMongoose s1))) (key_name key)
                = get (heap st) (get (heap st) definition mp) "schema-options")).
  { destruct (truthy (get (heap st) definition mp)) eqn:Tc.
    - apply processMongooseDefinition_options in E1. exact E1.
    - apply ret_inv in E1. destruct E1 as [_ ->]. split; [reflexivity|].
      intros T. apply truthy_get in T. congruence. }
  destruct R1 as [Hh1 Hso]. clear E1.
  apply bind_inv in H. destruct H as (x1 & s1' & E & H).
  apply get_registries_inv in E. destruct E as [-> ->].
  destruct (truthy (own_get (VObj (excludeSchema (xSwaggerMongoose s1)))
                      (key_name key))).
  { apply ret_inv in H. destruct H as [-> _]. left. reflexivity. }
  apply bind_inv in H. destruct H as (object0 & s2 & E2 & H).
  assert (V2 : same_variables s1 s2)
    by (eapply heap_only_inv; [apply heap_only_getSchema|exact E2]).
  assert (K2 : forall field, ~ In field written ->
                 field_kept field (heap s1) (heap s2)).
  { intros field Hf. eapply spares_inv; [|exact E2].
    apply spares_getSchema, Hf. }
  clear E2.
  apply bind_inv in H. destruct H as (x2 & s2' & E & H).
  apply get_registries_inv in E. destruct E as [-> ->].
  apply bind_inv in H. destruct H as (options & s2' & E & H).
  assert (Eo : options
               = extend (heap s2) []
                   [own_get (VObj (schemaOptions (xSwaggerMongoose s2))) mp;
                    own_get (VObj (schemaOptions (xSwaggerMongoose s2))) (key_name key)]).
  { injection E as <- _. reflexivity. }
  apply extend_inv in E. subst s2'.
  destruct (truthy object0 && _)%bool.
  2:{ apply ret_inv in H. destruct H as [-> _]. left. reflexivity. }
  apply bind_inv in H. destruct H as (additional & s2' & E & H).
  apply extend_inv in E. subst s2'.
  apply bind_inv in H. destruct H as (additional' & s3 & _ & H).
  apply bind_inv in H. destruct H as (object & s3' & E & H).
  apply extend_inv in E. subst s3'.
  apply bind_inv in H. destruct H as (x3 & s3' & E & H).
  apply get_registries_inv in E. destruct E as [-> ->].
  apply bind_inv in H. destruct H as (schema & s4 & E4 & H).
  apply processDocumentIndex_object in E4. destruct E4 as [index ->].
  apply ret_inv in H. destruct H as [-> _].
  right. exists (VObj object), options, index. split; [reflexivity|].
  intros field v Hf so T L. subst options.
  assert (X : xSwaggerMongoose s2 = xSwaggerMongoose s1) by apply V2.
  rewrite X, (Hso T). apply extend_last; [exact T|].
  rewrite <- L. apply field_kept_entries.
  - rewrite <- Hh1. apply K2, Hf.
  - intros D. rewrite D in L. discriminate L.
Qed.

Lemma index_of_nat i : index_of_key (string_of_nat i) = Some i.
Proof.
  unfold index_of_key.
  assert (E : NilEmpty.uint_of_string (string_of_nat i) = Some (Nat.to_uint i)).
  { unfold string_of_nat. pose proof (to_uint_nonnil i) as N.
    destruct (Nat.to_uint i) eqn:U; try contradiction;
      rewrite <- U; unfold NilZero.string_of_uint; rewrite U;
      apply NilEmpty.usu. }
  rewrite E. rewrite DecimalNat.Unsigned.of_to, String.eqb_refl. reflexivity.
Qed.

Lemma index_not_length i : String.eqb (string_of_nat i) "length" = false.
Proof.
  destruct (String.eqb (string_of_nat i) "length") eqn:E; [|reflexivity].
  apply String.eqb_eq in E. pose proof (index_of_nat i) as H.
  rewrite E in H. discriminate H.
Qed.

(** What [_.forEach] hands to its callback is the property of that name. *)
Lemma get_key_name h v k : get_key h v k = get h v (key_name k).
Proof.
  destruct k as [s|i]; [reflexivity|]. unfold get_key, get. simpl key_name.
  destruct (deref h v); try reflexivity; simpl.
  - rewrite index_not_length, index_of_nat. reflexivity.
  - rewrite index_not_length, index_of_nat. reflexivity.
Qed.

Lemma get_defined h v k : get h v k <> VUndef -> deref h v <> VUndef.
Proof. unfold get. intros H D. rewrite D in H. apply H. reflexivity. Qed.

Lemma deref_defined h v : deref h v <> VUndef -> v <> VUndef.
Proof. intros H ->. apply H. reflexivity. Qed.

Lemma truthy_defined v : truthy v = true -> v <> VUndef.
Proof. intros H ->. discriminate H. Qed.

Section Options.
Variable require : string -> option (val -> val).
Variables (fuel : nat) (mp : string) (defs : val) (h0 : list val).
Variables (name field : string) (v : val).
Hypothesis name_unwritten : ~ In name written.
Hypothesis mp_unwritten : ~ In mp written.
Hypothesis field_unwritten : ~ In field written.
Hypothesis declared : truthy (declared_options h0 defs mp name) = true.
Hypothesis bound :
  last_binding field (own_entries (deref h0 (declared_options h0 defs mp name)))
  = Some v.

Lemma declared_later s :
  (forall k, ~ In k written -> field_kept k h0 (heap s)) ->
  declared_options (heap s) defs mp name = declared_options h0 defs mp name /\
  last_binding field
    (own_entries (deref (heap s) (declared_options h0 defs mp name))) = Some v.
Proof.
  intros K. unfold declared_options in *.
  set (d0 := get h0 defs name) in *.
  set (b0 := get h0 d0 mp) in *.
  set (so0 := get h0 b0 "schema-options") in *.
  assert (Vso : deref h0 so0 <> VUndef).
  { intros D. rewrite D in bound. discriminate bound. }
  assert (Vb : deref h0 b0 <> VUndef)
    by (apply (get_defined h0 b0 "schema-options"), truthy_defined, declared).
  assert (Vd : deref h0 d0 <> VUndef)
    by (apply (get_defined h0 d0 mp), (deref_defined h0), Vb).
  assert (Vdefs : deref h0 defs <> VUndef)
    by (apply (get_defined h0 defs name), (deref_defined h0), Vd).
  rewrite (field_kept_get name h0 (heap s) defs (K name name_unwritten) Vdefs).
  fold d0.
  rewrite (field_kept_get mp h0 (heap s) d0 (K mp mp_unwritten) Vd). fold b0.
  rewrite (field_kept_get "schema-options" h0 (heap s) b0) by
    (try exact Vb; apply K; simpl; intuition discriminate).
  fold so0. split; [reflexivity|].
  rewrite (field_kept_entries field h0 (heap s) so0 (K field field_unwritten) Vso).
  exact bound.
Qed.

Lemma compile_definition_keeps key names schemas s schemas' s' :
  options_kept h0 name field v names schemas s ->
  compile_definition require fuel mp (get_key (heap s) defs key) key schemas s
  = Ret schemas' s' ->
  options_kept h0 name field v (key_name key :: names) schemas' s'.
Proof.
  intros (K & Names & Opt) H.
  assert (K' : forall k, ~ In k written -> field_kept k h0 (heap s')).
  { intros k Hk. eapply field_kept_trans; [apply K, Hk|].
    eapply spares_inv; [|exact H]. apply spares_compile_definition, Hk. }
  split; [exact K'|].
  destruct (compile_definition_options _ _ _ _ _ _ _ _ _ H)
    as [->|(object & options & index & -> & Hopt)].
  - split; [|exact Opt]. intros n Hn. right. apply Names, Hn.
  - split.
    + intros n Hn. apply keys_obj_set in Hn. destruct Hn as [<-|Hn].
      * left. reflexivity.
      * right. apply Names, Hn.
    + unfold option_of. rewrite assoc_obj_set.
      destruct (String.eqb (key_name key) name) eqn:E.
      * intros _. apply String.eqb_eq in E.
        destruct (declared_later s K) as [D B].
        apply Hopt; [exact field_unwritten| |];
          rewrite get_key_name, E; fold (declared_options (heap s) defs mp name);
          rewrite D; [exact declared|exact B].
      * exact Opt.
Qed.

Lemma forEach_over_keeps ks : forall names schemas s schemas' s',
  options_kept h0 name field v names schemas s ->
  forEach_over ks defs (compile_definition require fuel mp) schemas s
  = Ret schemas' s' ->
  exists names', options_kept h0 name field v names' schemas' s'.
Proof.
  unfold forEach_over.
  induction ks as [|k ks IH]; intros names schemas s schemas' s' Inv H.
  - apply ret_inv in H. destruct H as [-> ->]. eauto.
  - simpl in H. apply bind_inv in H. destruct H as (a & s1 & E & H).
    apply bind_inv in E. destruct E as (h & s0 & E0 & E).
    injection E0 as <- <-.
    eapply IH; [|exact H]. eapply compile_definition_keeps; eassumption.
Qed.

End Options.

(** The loop of [compile] gives the schema of a definition every field of
    the [schema-options] its block declares when the loop starts, names that
    the compiler writes itself apart. *)
Lemma compile_definitions_options require fuel mp defs st schemas st' name field v :
  compile_definitions require fuel mp defs st = Ret schemas st' ->
  ~ In name written -> ~ In mp written -> ~ In field written ->
  truthy (declared_options (heap st) defs mp name) = true ->
  last_binding field
    (own_entries (deref (heap st) (declared_options (heap st) defs mp name)))
  = Some v ->
  assoc name schemas <> None ->
  option_of schemas name field = Some v.
Proof.
  unfold compile_definitions, forEach. intros H Hn Hmp Hf T L.
  apply bind_inv in H. destruct H as (h & s0 & E0 & H). injection E0 as <- <-.
  destruct (forEach_over_keeps require fuel mp defs (heap st) name field v
              Hn Hmp Hf T L (forEach_keys (heap st) defs) [] [] st schemas st') as (names & _ & _ & Opt).
  - split; [intros; apply field_kept_refl|].
    split; [intros n []|]. intros N. exfalso. apply N. reflexivity.
  - exact H.
  - exact Opt.
Qed.

Lemma fold_set_field_same k mp ws : forall h l,
  mp <> k ->
  same_field k (nth l h VUndef) (nth l (fold_left (set_field mp) ws h) VUndef).
Proof.
  induction ws as [|w ws IH]; intros h l Hne; simpl; [apply same_field_refl|].
  eapply same_field_trans; [|apply IH, Hne].
  unfold set_field. destruct (Nat.eq_dec (fst w) l) as [<-|Hl].
  - destruct (Nat.lt_ge_cases (fst w) (List.length h)) as [L|L].
    + rewrite nth_update_same by exact L. apply same_field_own_set, Hne.
    + rewrite !nth_overflow; [apply same_field_refl|rewrite update_length; exact L|exact L].
  - rewrite nth_update_other by exact Hl. apply same_field_refl.
Qed.

(** [applyExtraDefinitions] leaves every other field of every cell but that
    of the extra definitions as it is. *)
Lemma applied_store_same k mp dfs efs le h l :
  mp <> k -> l <> le ->
  same_field k (nth l h VUndef) (nth l (applied_store mp dfs efs le h) VUndef).
Proof.
  intros Hne Hl. unfold applied_store.
  eapply same_field_trans; [|apply fold_set_field_same, Hne].
  eapply same_field_trans; [|apply fold_set_field_same, Hne].
  destruct (truthy _); [|apply same_field_refl].
  rewrite nth_update_other by (intros E; apply Hl; symmetry; exact E).
  apply same_field_refl.
Qed.

Lemma applied_store_get k mp dfs efs le h v :
  mp <> k -> v <> VRef le ->
  get (applied_store mp dfs efs le h) v k = get h v k.
Proof.
  intros Hne Hv. unfold get. destruct v; try reflexivity. simpl.
  apply applied_store_same; [exact Hne|]. intros ->. apply Hv. reflexivity.
Qed.

Lemma applied_store_entries k mp dfs efs le h v :
  mp <> k -> v <> VRef le ->
  last_binding k (own_entries (deref (applied_store mp dfs efs le h) v))
  = last_binding k (own_entries (deref h v)).
Proof.
  intros Hne Hv. destruct v; try reflexivity. simpl.
  apply applied_store_same; [exact Hne|]. intros ->. apply Hv. reflexivity.
Qed.

Lemma mongooseProperty_unwritten st : ~ In (getMongooseProperty st) written.
Proof.
  unfold getMongooseProperty. destruct (isAtLeastSwagger2 st); simpl;
    intuition discriminate.
Qed.

Lemma mongooseProperty_names st :
  In (getMongooseProperty st) [v2MongooseProperty; v1MongooseProperty].
Proof.
  unfold getMongooseProperty. destruct (isAtLeastSwagger2 st); simpl; auto.
Qed.

Lemma in_keys_assoc name (fs : obj) : In name (map fst fs) -> assoc name fs <> None.
Proof. intros H. apply in_obj_keys. unfold obj_keys. apply nodup_In, H. Qed.

(** A run with extra definitions whose default declares [schema-options]:
    the schema of a definition that has no entry of its own has every field
    of those options. *)
Lemma compile_default_options JSON_parse require fuel ls ld le dfs efs st
  result st' field v :
  compile JSON_parse require fuel (VRef ls) (VRef le) st = Ret result st' ->
  get (heap st) (VRef ls) "definitions" = VRef ld ->
  nth ld (heap st) VUndef = VObj dfs -> keyed dfs ->
  nth le (heap st) VUndef = VObj efs -> keyed efs ->
  ld <> le ->
  definition_cells (heap st) dfs ld le ->
  (forall name, In name (obj_keys (installed efs)) -> In name (obj_keys dfs)) ->
  let d := own_get (VObj efs) "default" in
  let so := get (heap st) d "schema-options" in
  truthy so = true -> d <> VRef le -> so <> VRef le ->
  last_binding field (own_entries (deref (heap st) so)) = Some v ->
  ~ In field written ->
  ~ In field [v2MongooseProperty; v1MongooseProperty] ->
  forall name,
    In name (obj_keys dfs) -> assoc name (installed efs) = None ->
    ~ In name written ->
    In name (emitted "schemas" (Rok result)) ->
    exists options,
      resolved_options (Rok result) name = Some options /\
      own_get options field = v.
Proof.
  intros H Hdefs Hd Kd He Ke Hne Hcells Hin d so Tso Hdle Hsole L Hf Hfm
    name Hname Hentry Hnw Hemit.
  unfold compile in H. simpl truthy in H. simpl negb in H. cbv iota in H.
  apply bind_inv in H. destruct H as (swaggerJSON & s0 & E & H).
  apply ret_inv in E. destruct E as [-> ->].
  apply bind_inv in H. destruct H as (swagger & s0 & E & H).
  apply getp_inv in E. destruct E as [-> ->].
  apply bind_inv in H. destruct H as ([] & s1 & E1 & H).
  assert (H1 : heap s1 = heap st).
  { destruct (truthy _);
      [|apply ret_inv in E1; destruct E1 as [_ ->]; reflexivity].
    unfold bind, get_heap in E1.
    destruct (ToNumber _ _); [injection E1 as <-; reflexivity|discriminate E1]. }
  clear E1.
  apply bind_inv in H. destruct H as (defs & s1' & E & H).
  apply getp_inv in E. destruct E as [-> ->]. rewrite H1, Hdefs in H.
  apply bind_inv in H. destruct H as ([] & s2 & E2 & H).
  assert (H2 : heap s2 = heap st) by (injection E2 as <-; exact H1).
  clear E2.
  apply bind_inv in H. destruct H as ([] & s3 & E3 & H).
  rewrite applyExtraDefinitions_store with (dfs := dfs) (efs := efs) in E3
    by (rewrite ?H2; assumption).
  injection E3 as <-. rewrite H2 in H.
  set (mp := getMongooseProperty s2) in *.
  set (h0 := applied_store mp dfs efs le (heap st)) in *.
  apply bind_inv in H. destruct H as (mp' & s3 & E & H).
  injection E as <- <-.
  change (getMongooseProperty (with_store h0 s2)) with mp in H.
  apply bind_inv in H. destruct H as (global & s3 & E & H).
  apply getp_inv in E. destruct E as [-> ->].
  apply bind_inv in H. destruct H as ([] & s4 & E4 & H).
  assert (H4 : heap s4 = h0).
  { destruct (truthy _).
    - apply processMongooseDefinition_options in E4. apply E4.
    - apply ret_inv in E4. destruct E4 as [_ ->]. reflexivity. }
  clear E4.
  apply bind_inv in H. destruct H as (schemas & s5 & E5 & H).
  apply bind_inv in H. destruct H as (models & s6 & _ & H).
  apply ret_inv in H. destruct H as [-> _].
  simpl in Hemit. apply in_keys_assoc in Hemit.
  assert (Hmp : ~ In mp written) by apply mongooseProperty_unwritten.
  assert (Hmf : mp <> field).
  { intros E. apply Hfm. rewrite <- E. apply mongooseProperty_names. }
  assert (Hms : mp <> "schema-options").
  { unfold mp, getMongooseProperty. destruct (isAtLeastSwagger2 s2); discriminate. }
  assert (Td : truthy d = true) by (eapply truthy_get, Tso).
  destruct (applied_store_blocks mp (heap st) ld le dfs efs) as (_ & _ & Blocks);
    try assumption; [apply plain_mongooseProperty|].
  fold h0 in Blocks. specialize (Blocks name Hname).
  assert (Dso : declared_options h0 (VRef ld) mp name = so).
  { unfold declared_options. rewrite Blocks. unfold block_after.
    rewrite Hentry. fold d. rewrite Td. apply applied_store_get; assumption. }
  pose proof (compile_definitions_options require fuel mp (VRef ld) s4 schemas s5
                name field v E5 Hnw Hmp Hf) as Opt.
  rewrite H4, Dso in Opt.
  specialize (Opt Tso).
  unfold h0 in Opt. rewrite applied_store_entries in Opt by assumption.
  specialize (Opt L Hemit).
  unfold option_of in Opt. unfold resolved_options. simpl.
  destruct (assoc name schemas) as [[]|]; try discriminate Opt.
  destruct options; try discriminate Opt.
  eexists. split; [reflexivity|]. simpl. rewrite Opt. reflexivity.
Qed.

(** C7, amended.  [applyExtraDefinitions], given the definitions and the
    extra definitions as two objects of the store, the definitions each an
    object in a cell of its own and every installed entry named after one of
    them, returns and changes the store only: a truthy [default] entry is
    removed from the extra definitions, and the extension block of every
    definition becomes the entry of its name when there is one, else the
    default when there is one, else stays what it was; the block is replaced
    as a whole, nothing is merged into it.  Consequently, when [compile] is
    run on such a document with extra definitions whose default declares
    [schema-options], every schema it emits for a definition with no entry
    of its own has each field of those options (a definition or a field named
    as a facet that the compiler itself writes apart).  So on the example
    document, with a default of [{schema-options: {timestamps: true}}] alone
    the options of both schemas are [{timestamps: true}], and with an entry
    [{schema-options: {versionKey: false}}] for [House] as well, the options
    of [Person] are [{timestamps: true}] and those of [House] are
    [{versionKey: false}]. *)
Theorem applyExtraDefinitions_installs :
  (forall st ld le dfs efs,
     nth ld (heap st) VUndef = VObj dfs -> keyed dfs ->
     nth le (heap st) VUndef = VObj efs -> keyed efs ->
     ld <> le ->
     definition_cells (heap st) dfs ld le ->
     (forall name, In name (obj_keys (installed efs)) -> In name (obj_keys dfs)) ->
     exists st',
       applyExtraDefinitions (VRef ld) (VRef le) st = Ret tt st' /\
       same_variables st st' /\
       nth ld (heap st') VUndef = VObj dfs /\
       nth le (heap st') VUndef = VObj (installed efs) /\
       forall name, In name (obj_keys dfs) ->
         get (heap st') (get (heap st') (VRef ld) name) (getMongooseProperty st)
         = block_after efs name
             (get (heap st) (get (heap st) (VRef ld) name) (getMongooseProperty st))) /\
  (forall JSON_parse require fuel ls ld le dfs efs st result st' field v,
     compile JSON_parse require fuel (VRef ls) (VRef le) st = Ret result st' ->
     get (heap st) (VRef ls) "definitions" = VRef ld ->
     nth ld (heap st) VUndef = VObj dfs -> keyed dfs ->
     nth le (heap st) VUndef = VObj efs -> keyed efs ->
     ld <> le ->
     definition_cells (heap st) dfs ld le ->
     (forall name, In name (obj_keys (installed efs)) -> In name (obj_keys dfs)) ->
     let d := own_get (VObj efs) "default" in
     let so := get (heap st) d "schema-options" in
     truthy so = true -> d <> VRef le -> so <> VRef le ->
     last_binding field (own_entries (deref (heap st) so)) = Some v ->
     ~ In field written ->
     ~ In field [v2MongooseProperty; v1MongooseProperty] ->
     forall name,
       In name (obj_keys dfs) -> assoc name (installed efs) = None ->
       ~ In name written ->
       In name (emitted "schemas" (Rok result)) ->
       exists options,
         resolved_options (Rok result) name = Some options /\
         own_get options field = v) /\
  (forall fuel, 2 <= fuel ->
     let r := result_of (compile_json fuel persons (Some default_only)) initial_state in
     emitted "schemas" r = ["House"; "Person"] /\
     resolved_options r "House" = Some (VObj [("timestamps", VBool true)]) /\
     resolved_options r "Person" = Some (VObj [("timestamps", VBool true)])) /\
  (forall fuel, 2 <= fuel ->
     let r := result_of (compile_json fuel persons (Some extra_with_default))
                initial_state in
     emitted "schemas" r = ["House"; "Person"] /\
     resolved_options r "House" = Some (VObj [("versionKey", VBool false)]) /\
     resolved_options r "Person" = Some (VObj [("timestamps", VBool true)])).
Proof.
  split; [|split; [|split]].
  - intros st ld le dfs efs Hd Kd He Ke Hne Hcells Hin.
    eexists. split; [apply applyExtraDefinitions_store; eassumption|].
    split; [repeat split|].
    rewrite with_store_heap.
    apply applied_store_blocks; try assumption. apply plain_mongooseProperty.
  - exact compile_default_options.
  - intros fuel Hf. destruct fuel as [|[|[|m]]]; try lia;
      vm_compute; repeat split; reflexivity.
  - intros fuel Hf. destruct fuel as [|[|[|m]]]; try lia;
      vm_compute; repeat split; reflexivity.
Qed.

Lemma applyExtraDefinitions_installs_witness :
  (exists st',
     applyExtraDefinitions (VRef 2) (VRef 5) (with_store extra_store initial_state)
     = Ret tt st' /\
     get (heap st') (VRef 5) "default" = VUndef /\
     get (heap st') (get (heap st') (VRef 2) "House") "_mongoose" = VRef 4 /\
     get (heap st') (get (heap st') (VRef 2) "Person") "_mongoose" = VRef 3) /\
  match compile no_parser no_module 2 (VRef 4) (VRef 7)
          (with_store options_store initial_state) with
  | Ret result _ =>
      exists options,
        resolved_options (Rok result) "House" = Some options /\
        own_get options "timestamps" = VBool true
  | Throw _ _ => False
  end.
Proof.
  split.
  - destruct (proj1 applyExtraDefinitions_installs
                (with_store extra_store initial_state) 2 5
                [("House", VRef 0); ("Person", VRef 1)]
                [("default", VRef 3); ("House", VRef 4)])
      as (st' & Run & _ & _ & Extra & Blocks).
    + reflexivity.
    + reflexivity.
    + reflexivity.
    + reflexivity.
    + discriminate.
    + split.
      * intros name [<-|[<-|[]]]; repeat split; discriminate.
      * intros n1 n2 [<-|[<-|[]]] [<-|[<-|[]]]; try reflexivity; discriminate.
    + intros name [<-|[]]. left. reflexivity.
    + exists st'. split; [exact Run|]. split.
      * unfold get, deref. rewrite Extra. reflexivity.
      * split.
        -- exact (Blocks "House" (or_introl eq_refl)).
        -- exact (Blocks "Person" (or_intror (or_introl eq_refl))).
  - destruct (compile no_parser no_module 2 (VRef 4) (VRef 7)
                (with_store options_store initial_state))
      as [result st'|e st'] eqn:Run.
    + apply (proj1 (proj2 applyExtraDefinitions_installs)
               no_parser no_module 2 4 3 7
               [("House", VRef 2)] [("default", VRef 6)]
               (with_store options_store initial_state) result st'
               "timestamps" (VBool true) Run).
      * reflexivity.
      * reflexivity.
      * reflexivity.
      * reflexivity.
      * reflexivity.
      * discriminate.
      * split.
        -- intros name [<-|[]]; repeat split; discriminate.
        -- intros n1 n2 [<-|[]] [<-|[]]. reflexivity.
      * intros name [].
      * reflexivity.
      * discriminate.
      * discriminate.
      * reflexivity.
      * simpl. intuition discriminate.
      * simpl. intuition discriminate.
      * left. reflexivity.
      * reflexivity.
      * simpl. intuition discriminate.
      * vm_compute in Run. injection Run as <- _. left. reflexivity.
    + vm_compute in Run. discriminate Run.
Defined.

(** C7 as it was stated fails.  With a default of
    [{schema-options: {timestamps: true}}] and an entry for [House] that sets
    [versionKey] only, the schema of [House] is emitted with options that do
    not include [timestamps]: the entry is the whole block of [House].  And an
    entry named after no definition is not installed: [compile] throws a
    TypeError on the write to the definition that is not there. *)
Lemma default_not_merged_into_entry :
  (let r := result_of (compile_json 2 persons (Some extra_with_default))
              initial_state in
   emitted "schemas" r = ["House"; "Person"] /\
   resolved_options r "House" = Some (VObj [("versionKey", VBool false)])) /\
  result_of (compile_json 2 persons (Some entry_for_Garage)) initial_state
  = Rerr (TypeError "x-swagger-mongoose").
Proof. repeat split; vm_compute; reflexivity. Qed.

(** ** A definition that refers to itself, embedded *)

Lemma cell_get st l fs k :
  nth l (heap st) VUndef = VObj fs ->
  getp (VRef l) k st
  = Ret (match assoc k fs with Some v => v | None => VUndef end) st.
Proof. intros H. unfold getp, get, deref. simpl. rewrite H. reflexivity. Qed.

Lemma chain_loaded_alloc st d :
  chain_loaded st ->
  exists st', alloc d st = Ret (VRef (List.length (heap st))) st' /\
              chain_loaded st' /\
              nth (List.length (heap st)) (heap st') VUndef = d /\
              getMongooseProperty st' = getMongooseProperty st.
Proof.
  intros (H0 & H1 & H2 & H3 & H4 & H5 & H6 & Hd). eexists. split; [reflexivity|].
  unfold chain_loaded. simpl. split; [|split; [apply nth_app_new|reflexivity]].
  repeat split; try assumption;
    (rewrite nth_app_old; [assumption|eapply cell_within; eassumption]).
Qed.

Lemma runs_out_bind {A B} (c : M A) (k : A -> M B) st :
  runs_out (c st) -> runs_out (bind c k st).
Proof. unfold bind. destruct (c st) as [a s|e s]; [intros []|auto]. Qed.

Lemma get_cell h l fs k :
  nth l h VUndef = VObj fs ->
  get h (VRef l) k = match assoc k fs with Some v => v | None => VUndef end.
Proof. intros H. unfold get, deref. simpl. rewrite H. reflexivity. Qed.

Lemma isMongooseProperty_cell st l fs :
  nth l (heap st) VUndef = VObj fs ->
  assoc (getMongooseProperty st) fs = None ->
  isMongooseProperty (VRef l) st = Ret false st.
Proof.
  intros H E. unfold isMongooseProperty.
  rewrite (bind_Ret mongooseProperty _ st _ st eq_refl).
  rewrite (bind_Ret _ _ _ _ _ (cell_get st l _ _ H)), E. reflexivity.
Qed.

Lemma isMongooseArray_cell st l fs :
  nth l (heap st) VUndef = VObj fs -> assoc "items" fs = None ->
  isMongooseArray (VRef l) st = Ret VUndef st.
Proof.
  intros H E. unfold isMongooseArray.
  rewrite (bind_Ret _ _ _ _ _ (cell_get st l _ _ H)), E. reflexivity.
Qed.

Lemma isPropertyHasRef_referring st l fs r :
  nth l (heap st) VUndef = VObj fs -> assoc "$ref" fs = Some r ->
  truthy r = true -> isPropertyHasRef (VRef l) st = Ret true st.
Proof.
  intros H E T. unfold isPropertyHasRef.
  rewrite (bind_Ret _ _ _ _ _ (cell_get st l _ _ H)), E, T. reflexivity.
Qed.

Lemma isPropertyHasRef_untyped st l fs :
  nth l (heap st) VUndef = VObj fs -> assoc "$ref" fs = None ->
  assoc "type" fs = None -> isPropertyHasRef (VRef l) st = Ret false st.
Proof.
  intros H E T. unfold isPropertyHasRef.
  rewrite (bind_Ret _ _ _ _ _ (cell_get st l _ _ H)), E. cbn [truthy]. cbv iota.
  rewrite (bind_Ret _ _ _ _ _ (cell_get st l _ _ H)), T. reflexivity.
Qed.

Lemma reference_step n :
  match n with O => True | S k => clone_diverges k end -> reference_diverges n.
Proof.
  intros IH st l key name required object L Hmp Hl Hk Hkey Hname.
  pose proof L as (_ & _ & _ & H3 & H4 & H5 & H6 & Hd).
  rewrite getSchemaProperty_unfold. unfold getSchemaProperty_body.
  rewrite Hk.
  rewrite (bind_Ret _ _ _ _ _ (isMongooseProperty_cell st l _ Hl
                                 ltac:(rewrite Hmp; reflexivity))).
  apply runs_out_bind.
  rewrite (bind_Ret _ _ _ _ _ (isMongooseArray_cell st l _ Hl eq_refl)).
  cbn [truthy]. cbv iota.
  rewrite (bind_Ret _ _ _ _ _
             (isPropertyHasRef_referring st l _ _ Hl eq_refl eq_refl)).
  cbv iota. unfold processRef.
  rewrite (bind_Ret _ _ _ _ _ (cell_get st l _ "$ref" Hl)).
  cbn [assoc String.eqb Ascii.eqb Bool.eqb truthy negb]. cbv iota.
  rewrite (bind_Ret (ret _) _ st _ st eq_refl).
  rewrite (bind_Ret (match_definition (VStr "#/definitions/Node")) _ st "Node"
             st eq_refl).
  apply runs_out_bind.
  assert (En : is_str (VStr name) "Node" = false)
    by (apply String.eqb_neq; exact Hname).
  rewrite En. cbn [negb]. cbv iota.
  rewrite (bind_Ret get_definitions _ st _ st eq_refl). rewrite Hd.
  rewrite (bind_Ret _ _ _ _ _ (cell_get st 6 _ "Node" H6)).
  cbn [assoc String.eqb Ascii.eqb Bool.eqb]. 
  rewrite (bind_Ret _ _ _ _ _ (cell_get st 5 _ "type" H5)).
  cbn [assoc String.eqb Ascii.eqb Bool.eqb is_str orb]. cbv iota.
  rewrite (bind_Ret (_extend [] [VRef 5]) _ st [("properties", VRef 4)] st).
  2:{ unfold _extend, extend. simpl. unfold deref. rewrite H5. reflexivity. }
  rewrite (bind_Ret mongooseProperty _ st _ st eq_refl). rewrite Hmp.
  cbn [obj_delete String.eqb Ascii.eqb Bool.eqb v2MongooseProperty].
  destruct (chain_loaded_alloc st (VObj [("properties", VRef 4)]) L)
    as (st1 & Ea & L1 & Hc & Hmp1).
  rewrite (bind_Ret _ _ _ _ _ Ea). apply runs_out_bind.
  destruct n as [|k]; [exact I|]. apply IH; try assumption. congruence.
Qed.

Lemma clone_step n :
  match n with O => True | S k => reference_diverges k end -> clone_diverges n.
Proof.
  intros IH st c key L Hmp Hc Hk Hkey.
  pose proof L as (_ & _ & _ & H3 & H4 & H5 & H6 & Hd).
  rewrite getSchemaProperty_unfold. unfold getSchemaProperty_body.
  rewrite Hk.
  rewrite (bind_Ret _ _ _ _ _ (isMongooseProperty_cell st c _ Hc
                                 ltac:(rewrite Hmp; reflexivity))).
  apply runs_out_bind.
  rewrite (bind_Ret _ _ _ _ _ (isMongooseArray_cell st c _ Hc eq_refl)).
  cbn [truthy]. cbv iota.
  rewrite (bind_Ret _ _ _ _ _
             (isPropertyHasRef_untyped st c _ Hc eq_refl eq_refl)).
  unfold isPolymorphic.
  rewrite (bind_Ret _ _ _ _ _ (cell_get st c _ "allOf" Hc)).
  cbn [assoc String.eqb Ascii.eqb Bool.eqb truthy]. cbv iota.
  rewrite (bind_Ret _ _ _ _ _ (cell_get st c _ "type" Hc)).
  cbn [assoc String.eqb Ascii.eqb Bool.eqb truthy negb orb]. cbv iota.
  apply runs_out_bind.
  destruct n as [|m]; [exact I|].
  unfold getSchema, getSchema_body.
  rewrite (bind_Ret _ _ _ _ _ (cell_get st c _ "required" Hc)).
  cbn [assoc String.eqb Ascii.eqb Bool.eqb truthy]. cbv iota.
  unfold isPolymorphic.
  rewrite (bind_Ret _ _ _ _ _ (cell_get st c _ "allOf" Hc)).
  cbn [assoc String.eqb Ascii.eqb Bool.eqb truthy]. cbv iota.
  rewrite (bind_Ret (ret tt) _ st tt st eq_refl).
  unfold compile_properties.
  rewrite (bind_Ret _ _ _ _ _ (cell_get st c _ "properties" Hc)).
  cbn [assoc String.eqb Ascii.eqb Bool.eqb truthy]. cbv iota.
  apply runs_out_bind. unfold forEach.
  rewrite (bind_Ret get_heap _ st (heap st) st eq_refl).
  assert (K : forEach_keys (heap st) (VRef 4) = [KStr "next"]).
  { unfold forEach_keys, deref. rewrite H4. reflexivity. }
  rewrite K. unfold forEach_over. cbn [for_keys]. apply runs_out_bind.
  rewrite (bind_Ret get_heap _ st (heap st) st eq_refl).
  unfold getSchema_iteratee. apply runs_out_bind.
  assert (G : get_key (heap st) (VRef 4) (KStr "next") = VRef 3).
  { unfold get_key. rewrite (get_cell _ _ _ _ H4). reflexivity. }
  rewrite G. apply IH; try assumption; try reflexivity. discriminate.
Qed.

Lemma chain_diverges n : reference_diverges n /\ clone_diverges n.
Proof.
  induction n as [|n [IHn IHc]].
  - split; [apply reference_step|apply clone_step]; exact I.
  - split; [apply reference_step|apply clone_step]; assumption.
Qed.

Lemma runs_out_throws {A} (o : outcome A) :
  runs_out o -> exists st', o = Throw OutOfFuel st'.
Proof. destruct o as [a s|e s]; [intros []|]. destruct e; try intros []. eauto. Qed.

Lemma chain_runs_out fuel :
  runs_out (compile_json fuel (chain_of_nodes []) None initial_state).
Proof.
  unfold compile_json.
  erewrite bind_Ret by (vm_compute; reflexivity).
  erewrite bind_Ret by reflexivity.
  unfold compile. cbn [truthy negb].
  erewrite bind_Ret by reflexivity.
  erewrite bind_Ret by (vm_compute; reflexivity).
  cbn [truthy String.eqb Ascii.eqb Bool.eqb negb].
  erewrite bind_Ret by (vm_compute; reflexivity).
  erewrite bind_Ret by (vm_compute; reflexivity).
  erewrite bind_Ret by (vm_compute; reflexivity).
  erewrite bind_Ret by (vm_compute; reflexivity).
  erewrite bind_Ret by (vm_compute; reflexivity).
  erewrite bind_Ret by (vm_compute; reflexivity).
  cbn [truthy]. erewrite bind_Ret by reflexivity.
  apply runs_out_bind. unfold compile_definitions, forEach.
  erewrite bind_Ret by reflexivity.
  match goal with
  | |- context [forEach_keys ?h ?d] =>
      let r := eval vm_compute in (forEach_keys h d) in
      change (forEach_keys h d) with r
  end.
  unfold forEach_over. cbn [for_keys]. apply runs_out_bind.
  erewrite bind_Ret by reflexivity.
  match goal with
  | |- context [get_key ?h ?d ?k] =>
      let r := eval vm_compute in (get_key h d k) in
      change (get_key h d k) with r
  end.
  unfold compile_definition.
  erewrite bind_Ret by (vm_compute; reflexivity). cbn [truthy].
  erewrite bind_Ret by reflexivity.
  erewrite bind_Ret by reflexivity.
  cbn [excludeSchema own_get assoc key_name truthy xSwaggerMongoose].
  apply runs_out_bind.
  unfold getSchema, getSchema_body.
  erewrite bind_Ret by (vm_compute; reflexivity). cbn [truthy].
  erewrite bind_Ret by (vm_compute; reflexivity). cbn [truthy].
  erewrite bind_Ret by reflexivity.
  unfold compile_properties.
  erewrite bind_Ret by (vm_compute; reflexivity). cbn [truthy].
  apply runs_out_bind. unfold forEach.
  erewrite bind_Ret by reflexivity.
  match goal with
  | |- context [forEach_keys ?h ?d] =>
      let r := eval vm_compute in (forEach_keys h d) in
      change (forEach_keys h d) with r
  end.
  unfold forEach_over. cbn [for_keys]. apply runs_out_bind.
  erewrite bind_Ret by reflexivity.
  match goal with
  | |- context [get_key ?h ?d ?k] =>
      let r := eval vm_compute in (get_key h d k) in
      change (get_key h d k) with r
  end.
  unfold getSchema_iteratee. apply runs_out_bind.
  apply (proj1 (chain_diverges fuel)); try reflexivity; try discriminate.
  repeat split.
Qed.

(** C2 fails on the code.  [Node] has a field [next] that refers to [Node],
    and [Chain] a field [head] that refers to [Node].  [Node] compiled on
    its own, under its name, gets for [next] the descriptor of a foreign
    key.  But a reference to a definition that declares no type compiles a
    copy of it as a property, under the name of the referring field: the
    reference of [next] then names another definition than its owner, is
    resolved in the same way, and so on without end.  Whatever the fuel,
    [compile] runs out of it on the two definitions.  When [Node] declares
    the type [object], the reference compiles its properties under the
    name [Node], and [head] embeds [next] as a foreign key. *)
Theorem embedded_self_reference_recurses (fuel : nat) :
  (exists st',
     compile_json fuel (chain_of_nodes []) None initial_state
     = Throw OutOfFuel st') /\
  compiled_map (result_of (compile_json fuel node_alone None) initial_state)
    "Node"
  = Some (VObj [("next", VObj (reference_descriptor "Node"))]) /\
  (let r := result_of (compile_json (S fuel)
                         (chain_of_nodes [("type", JStr "object")]) None)
              initial_state in
   compiled_map r "Chain"
   = Some (VObj [("head", VObj [("next", VObj (reference_descriptor "Node"))])]) /\
   compiled_map r "Node"
   = Some (VObj [("next", VObj (reference_descriptor "Node"))])).
Proof.
  split; [apply runs_out_throws, chain_runs_out|].
  split; [destruct fuel|destruct fuel as [|m]];
    vm_compute; repeat split; reflexivity.
Qed.

(** * Further properties of the compiler *)

(** ** The entry points *)

(** X1. What [compile] refuses, and when.  A falsy [spec] is refused with
    "Swagger spec not supplied"; a [spec] that is neither an object nor a
    string (a number, [true], a function) with "Unknown or invalid spec
    object"; a string or a Buffer that [JSON.parse] rejects with its
    SyntaxError.  In the three cases nothing has been done yet: the state is
    the one [compile] was called in, whatever the extra definitions. *)
Theorem compile_refuses_spec
  (JSON_parse : string -> option json) (require : string -> option (val -> val))
  (fuel : nat) (spec _extraDefinitions : val) (st : state) :
  (truthy spec = false ->
   compile JSON_parse require fuel spec _extraDefinitions st
   = Throw (InvalidInput "Swagger spec not supplied") st) /\
  (truthy spec = true -> typeof spec <> "object" -> typeof spec <> "string" ->
   compile JSON_parse require fuel spec _extraDefinitions st
   = Throw (InvalidInput "Unknown or invalid spec object") st) /\
  (forall text, truthy spec = true -> spec = VStr text \/ spec = VBuffer text ->
   JSON_parse text = None ->
   compile JSON_parse require fuel spec _extraDefinitions st
   = Throw SyntaxError st).
Proof.
  unfold compile. repeat split.
  - intros ->. reflexivity.
  - intros T To Ts. rewrite T. simpl negb. cbv iota.
    destruct spec; simpl in *; try discriminate T; try congruence; reflexivity.
  - intros text T [->| ->] P; rewrite T; simpl negb; cbv iota;
      unfold bind, convertToJSON, parse; rewrite P; reflexivity.
Qed.

(** X2. [compile] does not look at what a text decodes to before it uses
    it.  A text that decodes to a number, a boolean or a string is compiled,
    with no extra definitions, as a document without definitions: the result
    is [{schemas: {}, models: {}}], and nothing changes but the definition
    registry, which becomes [undefined].  A text that decodes to [null]
    raises a TypeError, on the read of its [swagger]. *)
Theorem compile_decoded_scalar
  (JSON_parse : string -> option json) (require : string -> option (val -> val))
  (fuel : nat) (text : string) (j : json) (st : state) :
  text <> "" ->
  JSON_parse text = Some j ->
  (json_scalar j = true ->
   compile JSON_parse require fuel (VStr text) VUndef st
   = Ret empty_result (with_definitions VUndef st)) /\
  (j = JNull ->
   compile JSON_parse require fuel (VStr text) VUndef st
   = Throw (TypeError "swagger") st).
Proof.
  intros Ht P.
  assert (T : truthy (VStr text) = true).
  { simpl. destruct text; [contradiction|reflexivity]. }
  unfold compile. rewrite T. change (negb true) with false. cbv iota.
  unfold convertToJSON, parse. rewrite P. cbv beta iota. split.
  - intros Hj.
    assert (D : exists d, load_json j st = Ret d st /\ nullish d = false /\
                  forall k, String.eqb k "length" = false ->
                            index_of_key k = None -> get (heap st) d k = VUndef).
    { destruct st as [h d0 v x f].
      destruct j; try discriminate Hj; eexists; (split; [reflexivity|]);
        (split; [reflexivity|]); intros k E I; try reflexivity.
      unfold get. simpl. rewrite E, I. reflexivity. }
    destruct D as (d & L & N & G).
    rewrite (bind_Ret _ _ _ _ _ L).
    rewrite (bind_Ret _ _ _ _ _ (getp_ok d "swagger" st N)).
    rewrite G by reflexivity. simpl truthy. cbv iota.
    rewrite (bind_Ret (ret tt) _ st tt st eq_refl).
    rewrite (bind_Ret _ _ _ _ _ (getp_ok d "definitions" st N)).
    rewrite G by reflexivity.
    rewrite (bind_Ret (set_definitions VUndef) _ st tt (with_definitions VUndef st)
               eq_refl).
    simpl applyExtraDefinitions.
    rewrite (bind_Ret (ret tt) _ _ tt _ eq_refl).
    set (st1 := with_definitions VUndef st).
    rewrite (bind_Ret mongooseProperty _ st1 (getMongooseProperty st1) st1 eq_refl).
    rewrite (bind_Ret _ _ _ _ _ (getp_ok d (getMongooseProperty st1) st1 N)).
    assert (Gm : get (heap st1) d (getMongooseProperty st1) = VUndef).
    { apply G; unfold getMongooseProperty; destruct (isAtLeastSwagger2 st1);
        reflexivity. }
    rewrite Gm. simpl truthy. cbv iota.
    rewrite (bind_Ret (ret tt) _ _ tt _ eq_refl).
    unfold compile_definitions.
    erewrite bind_Ret; [|apply forEach_nothing; reflexivity].
    unfold register_models.
    erewrite bind_Ret; [|apply forEach_nothing; reflexivity].
    reflexivity.
  - intros ->. destruct st as [h d0 v x f]. reflexivity.
Qed.

Lemma compile_decoded_scalar_witness :
  compile (fun _ => Some (JNum 5%Q)) no_module 0 (VStr "5") VUndef initial_state
  = Ret empty_result (with_definitions VUndef initial_state).
Proof.
  apply (compile_decoded_scalar (fun _ => Some (JNum 5%Q)) no_module 0 "5"
           (JNum 5%Q) initial_state).
  - discriminate.
  - reflexivity.
  - reflexivity.
Defined.

(** ** What [compile] leaves of the objects it is given *)

Lemma field_kept_grow k h new : field_kept k h (h ++ new).
Proof.
  split; [rewrite length_app; lia|].
  intros l Hl. rewrite app_nth1 by exact Hl. apply same_field_refl.
Qed.

(** [JSON.parse] only adds objects to the store. *)
Lemma load_extends : forall j h, exists new, snd (load j h) = h ++ new.
Proof.
  fix IH 1. intros [ | b | q | s | es | fs] h;
    try (exists []; simpl; rewrite app_nil_r; reflexivity).
  - simpl.
    assert (A : forall h0, exists new,
              snd ((fix load_all (l : list json) (h : list val)
                      : list val * list val :=
                      match l with
                      | [] => ([], h)
                      | e :: l' => let '(v, h1) := load e h in
                                   let '(vs, h2) := load_all l' h1 in
                                   (v :: vs, h2)
                      end) es h0) = h0 ++ new).
    { induction es as [|e es IHes]; intros h0.
      - exists []. simpl. rewrite app_nil_r. reflexivity.
      - destruct (IH e h0) as [n1 E1]. destruct (load e h0) as [v h1] eqn:Ev.
        simpl in E1. subst h1.
        destruct (IHes (h0 ++ n1)) as [n2 E2].
        cbn -[load].
        destruct ((fix load_all (l : list json) (h : list val)
                     : list val * list val :=
                     match l with
                     | [] => ([], h)
                     | e :: l' => let '(v, h1) := load e h in
                                  let '(vs, h2) := load_all l' h1 in
                                  (v :: vs, h2)
                     end) es (h0 ++ n1)) as [vs h2].
        simpl in E2. subst h2. exists (n1 ++ n2). simpl. rewrite app_assoc.
        reflexivity. }
    destruct (A h) as [new E].
    destruct ((fix load_all (l : list json) (h : list val)
                 : list val * list val :=
                 match l with
                 | [] => ([], h)
                 | e :: l' => let '(v, h1) := load e h in
                              let '(vs, h2) := load_all l' h1 in
                              (v :: vs, h2)
                 end) es h) as [vs h1].
    simpl in E. subst h1. eexists. simpl. rewrite <- app_assoc. reflexivity.
  - simpl.
    assert (A : forall h0, exists new,
              snd ((fix load_fields (l : list (string * json)) (h : list val)
                      : obj * list val :=
                      match l with
                      | [] => ([], h)
                      | (k, e) :: l' => let '(v, h1) := load e h in
                                        let '(vs, h2) := load_fields l' h1 in
                                        (member_first k v vs, h2)
                      end) fs h0) = h0 ++ new).
    { induction fs as [|[k e] fs IHfs]; intros h0.
      - exists []. simpl. rewrite app_nil_r. reflexivity.
      - destruct (IH e h0) as [n1 E1]. destruct (load e h0) as [v h1] eqn:Ev.
        simpl in E1. subst h1.
        destruct (IHfs (h0 ++ n1)) as [n2 E2].
        cbn -[load].
        destruct ((fix load_fields (l : list (string * json)) (h : list val)
                     : obj * list val :=
                     match l with
                     | [] => ([], h)
                     | (k, e) :: l' => let '(v, h1) := load e h in
                                       let '(vs, h2) := load_fields l' h1 in
                                       (member_first k v vs, h2)
                     end) fs (h0 ++ n1)) as [vs h2].
        simpl in E2. subst h2. exists (n1 ++ n2). simpl. rewrite app_assoc.
        reflexivity. }
    destruct (A h) as [new E].
    destruct ((fix load_fields (l : list (string * json)) (h : list val)
                 : obj * list val :=
                 match l with
                 | [] => ([], h)
                 | (k, e) :: l' => let '(v, h1) := load e h in
                                   let '(vs, h2) := load_fields l' h1 in
                                   (member_first k v vs, h2)
                 end) fs h) as [vs h1].
    simpl in E. subst h1. eexists. simpl. rewrite <- app_assoc. reflexivity.
Qed.

Lemma spares_load_json field j : spares field (load_json j).
Proof.
  intros st. unfold load_json.
  destruct (load_extends j (heap st)) as [new E].
  destruct (load j (heap st)) as [v h]. simpl in E. subst h.
  simpl. apply field_kept_grow.
Qed.

Lemma spares_convertToJSON field JSON_parse spec :
  spares field (convertToJSON JSON_parse spec).
Proof.
  unfold convertToJSON, parse.
  destruct spec; try apply spares_ret; try apply spares_throw;
    destruct (JSON_parse _); try apply spares_load_json; apply spares_throw.
Qed.

Lemma spares_setp_other field v k x : k <> field -> spares field (setp v k x).
Proof.
  intros Hk. destruct v; try apply spares_ret; try apply spares_throw.
  intros st. simpl. apply field_kept_update, same_field_own_set, Hk.
Qed.

Lemma spares_state_only {A} field (c : M A) :
  (forall st, match c st with
              | Ret _ st' | Throw _ st' => heap st' = heap st
              end) ->
  spares field c.
Proof.
  intros H st. specialize (H st). destruct (c st); rewrite H; apply field_kept_refl.
Qed.

Lemma extension_key_other st field :
  ~ In field extension_keys -> getMongooseProperty st <> field.
Proof.
  intros H E. apply H. rewrite <- E. unfold extension_keys.
  apply mongooseProperty_names.
Qed.

Lemma spares_applyExtraDefinitions field defs extra :
  ~ In field written ->
  truthy extra = false \/ ~ In field extension_keys ->
  spares field (applyExtraDefinitions defs extra).
Proof.
  intros Hw He. unfold applyExtraDefinitions.
  destruct (truthy extra); [|apply spares_ret].
  destruct He as [He|He]; [discriminate He|].
  intros st. unfold bind at 1. unfold mongooseProperty at 1.
  pose proof (extension_key_other st field He) as Hmp.
  revert st Hmp. intros st Hmp.
  enough (S : forall mp, mp <> field ->
              spares field
                (d <- getp extra "default" ;;
                 _extraDefinitions <-
                 (if negb (truthy d) then ret extra
                  else
                    _extraDefinitions <- deletep extra "default" ;;
                    forEach defs (fun val _ _ => setp val mp d ;; ret tt) tt ;;
                    ret _extraDefinitions) ;;
                 forEach _extraDefinitions (fun val key _ =>
                   def <- getp defs (key_name key) ;;
                   setp def mp val ;; ret tt) tt))
    by exact (S _ Hmp st).
  intros mp Hne.
  apply spares_bind; [apply spares_getp|intros d].
  apply spares_bind.
  - destruct (negb (truthy d)); [apply spares_ret|].
    apply spares_bind; [apply spares_deletep; [exact Hw|simpl; tauto]|intros ?].
    apply spares_bind; [|intros ?; apply spares_ret].
    apply spares_forEach. intros.
    apply spares_bind; [apply spares_setp_other, Hne|intros ?; apply spares_ret].
  - intros e. apply spares_forEach. intros.
    apply spares_bind; [apply spares_getp|intros ?].
    apply spares_bind; [apply spares_setp_other, Hne|intros ?; apply spares_ret].
Qed.

Lemma spares_compile field JSON_parse require fuel spec extra :
  ~ In field written ->
  truthy extra = false \/ ~ In field extension_keys ->
  spares field (compile JSON_parse require fuel spec extra).
Proof.
  intros Hw He. unfold compile.
  destruct (negb (truthy spec)); [apply spares_throw|].
  apply spares_bind; [apply spares_convertToJSON|intros swaggerJSON].
  apply spares_bind; [apply spares_getp|intros swagger].
  apply spares_bind.
  { apply spares_state_only. intros st.
    destruct (truthy swagger); [|reflexivity].
    unfold bind, get_heap. destruct (ToNumber (heap st) swagger); reflexivity. }
  intros _.
  apply spares_bind; [apply spares_getp|intros defs].
  apply spares_bind; [apply spares_state_only; intros st; reflexivity|intros _].
  apply spares_bind; [apply spares_applyExtraDefinitions; assumption|intros _].
  apply spares_bind; [apply spares_mongooseProperty|intros mp].
  apply spares_bind; [apply spares_getp|intros global].
  apply spares_bind.
  { destruct (truthy global); [|apply spares_ret].
    apply spares_processMongooseDefinition. }
  intros _.
  apply spares_bind.
  { unfold compile_definitions. apply spares_forEach. intros.
    apply spares_compile_definition, Hw. }
  intros schemas.
  apply spares_bind; [|intros ?; apply spares_ret].
  unfold register_models. apply spares_forEach. intros. apply spares_ret.
Qed.

(** X3. What [compile] never writes.  In the objects that exist when it is
    called (the document and the extra definitions among them, when they
    are given as objects) [compile] changes no field but [required],
    [default], [properties], [allOf] and [unique], and, when it is given
    extra definitions, the extension property: whether it returns or throws,
    every other field of every such object reads as before, and no object
    has gone. *)
Theorem compile_spares_fields
  (JSON_parse : string -> option json) (require : string -> option (val -> val))
  (fuel : nat) (spec _extraDefinitions : val) (field : string) (st : state) :
  ~ In field written ->
  truthy _extraDefinitions = false \/ ~ In field extension_keys ->
  match compile JSON_parse require fuel spec _extraDefinitions st with
  | Ret _ st' | Throw _ st' =>
      List.length (heap st) <= List.length (heap st') /\
      forall l, l < List.length (heap st) ->
        own_get (nth l (heap st') VUndef) field
        = own_get (nth l (heap st) VUndef) field
  end.
Proof.
  intros Hw He.
  pose proof (spares_compile field JSON_parse require fuel spec _extraDefinitions
                Hw He st) as H.
  destruct (compile JSON_parse require fuel spec _extraDefinitions st);
    (split; [apply H|intros l Hl; apply H, Hl]).
Qed.

Lemma compile_spares_fields_witness :
  match compile no_parser no_module 2 (VRef 4) (VRef 7)
          (with_store options_store initial_state) with
  | Ret _ st' | Throw _ st' =>
      8 <= List.length (heap st') /\
      forall l, l < 8 ->
        own_get (nth l (heap st') VUndef) "schema-options"
        = own_get (nth l options_store VUndef) "schema-options"
  end.
Proof.
  apply (compile_spares_fields no_parser no_module 2 (VRef 4) (VRef 7)
           "schema-options" (with_store options_store initial_state)).
  - simpl. intuition discriminate.
  - right. simpl. intuition discriminate.
Defined.

(** ** The fields of a compiled map *)

Lemma getSchemaProperty_body_owned fuel gs gsp property key required
  objectName object :
  yields (getSchemaProperty_body fuel gs gsp property key required objectName object)
    (owned key).
Proof.
  unfold getSchemaProperty_body.
  destruct (isMongodbReserved key) eqn:Hk; [apply yields_ret; left; reflexivity|].
  eapply yields_bind_any. intros isMongoose.
  eapply yields_bind with (P := fun o => incl (map fst o) [key_name key]).
  { destruct isMongoose; [ysteps; apply within_obj_set, incl_nil_l|].
    eapply yields_bind_any. intros mongooseArray.
    destruct (truthy mongooseArray); [ysteps; apply within_obj_set, incl_nil_l|].
    eapply yields_bind_any. intros hasRef.
    destruct hasRef; [apply processRef_within, incl_nil_l|].
    eapply yields_bind_any. intros allOf.
    destruct (truthy allOf); [ysteps; apply incl_nil_l|].
    eapply yields_bind_any. intros type.
    destruct (is_str type "object"); cbn [orb negb].
    - rewrite orb_true_r. ysteps. apply within_obj_set, incl_nil_l.
    - rewrite orb_false_r. destruct (negb (truthy type));
        ysteps; apply within_obj_set, incl_nil_l. }
  intros props Hp.
  eapply yields_bind with (P := fun o => incl (map fst o) [key_name key]).
  { destruct (truthy required); [apply fillRequired_within, Hp|apply yields_ret, Hp]. }
  clear props Hp. intros props Hp.
  eapply yields_bind_any. intros default.
  assert (F : forall o, incl (map fst o) [key_name key] -> owned key (VObj o)).
  { intros o Ho. right. exists o. auto. }
  destruct default; try (eapply yields_bind;
    [apply assign_in_within, Hp|intros o Ho; apply yields_ret, F, Ho]).
  apply yields_ret, F, Hp.
Qed.

Lemma getSchemaProperty_owned fuel property key required objectName object :
  yields (getSchemaProperty fuel property key required objectName object)
    (owned key).
Proof.
  rewrite getSchemaProperty_unfold. apply getSchemaProperty_body_owned.
Qed.

Lemma assoc_outside k fs : ~ In k (map fst fs) -> assoc k fs = None.
Proof.
  induction fs as [|[k0 v0] fs IH]; simpl; [reflexivity|]. intros H.
  destruct (String.eqb k0 k) eqn:E.
  - apply String.eqb_eq in E. subst. exfalso. apply H. left. reflexivity.
  - apply IH. intros Hin. apply H. right. exact Hin.
Qed.

(** Under a key other than [__proto__], what [getSchemaProperty] returns
    has the prototype of any object, from which nothing is inherited. *)
Lemma inherited_owned key h v :
  owned key v -> key_name key <> "__proto__" -> inherited h v = v.
Proof.
  intros [->|(o & -> & _ & Ho)] Hk; [reflexivity|]. unfold inherited.
  rewrite assoc_outside; [reflexivity|].
  intros Hin. apply Ho in Hin. destruct Hin as [E|[]]. apply Hk. exact E.
Qed.

Lemma in_declared key keys :
  In key keys -> isMongodbReserved key = false -> In (key_name key) (declared keys).
Proof.
  intros Hin Hk. unfold declared. apply in_map, filter_In. split; [exact Hin|].
  rewrite Hk. reflexivity.
Qed.

Lemma compile_properties_declared fuel required objectName fullObject st v st' :
  compile_properties (getSchemaProperty fuel) required objectName fullObject st
  = Ret v st' ->
  let properties := get (heap st) fullObject "properties" in
  let object := if truthy properties then properties else fullObject in
  (forall key, In key (forEach_keys (heap st) object) ->
               key_name key <> "__proto__") ->
  exists props,
    v = VObj props /\
    incl (map fst props) (declared (forEach_keys (heap st) object)).
Proof.
  intros H properties object Hproto. unfold compile_properties in H.
  apply bind_inv in H. destruct H as (p & s0 & E & H).
  apply getp_inv in E. destruct E as [-> ->]. fold properties object in H.
  apply bind_inv in H. destruct H as (props & s1 & E & H).
  apply ret_inv in H. destruct H as [-> _]. exists props. split; [reflexivity|].
  unfold forEach in E. apply bind_inv in E. destruct E as (h & s0 & E0 & E).
  injection E0 as <- <-. unfold forEach_over in E.
  revert E Hproto. generalize (forEach_keys (heap st) object). intros ks E Hproto.
  refine (for_keys_yields_in (fun o => incl (map fst o) (declared ks)) _ ks
            _ [] (incl_nil_l _) st props s1 E).
  intros k a Hk Ha. eapply yields_bind_any. intros h.
  unfold getSchema_iteratee.
  eapply yields_bind; [apply getSchemaProperty_owned|].
  intros sp Hsp. eapply yields_bind_any. intros h'.
  rewrite (inherited_owned k h' sp Hsp (Hproto k Hk)).
  destruct Hsp as [->|(o & -> & Hr & Ho)]; intros s a' s' [= <- _]; simpl.
  - exact Ha.
  - intros x Hx. apply keys_obj_assign in Hx. apply in_app_or in Hx.
    destruct Hx as [Hx|Hx]; [apply Ha, Hx|].
    apply Ho in Hx. destruct Hx as [<-|[]]. apply in_declared; assumption.
Qed.



(** ** Schemas and models *)

Lemma obj_set_fresh k v fs : assoc k fs = None -> obj_set k v fs = fs ++ [(k, v)].
Proof.
  induction fs as [|[k0 v0] fs IH]; simpl; [reflexivity|].
  destruct (String.eqb k0 k); [discriminate|]. intros H. rewrite IH by exact H.
  reflexivity.
Qed.

Lemma assoc_app_fresh k (fs gs : obj) :
  assoc k fs = None -> assoc k (fs ++ gs) = assoc k gs.
Proof.
  induction fs as [|[k0 v0] fs IH]; simpl; [reflexivity|].
  destruct (String.eqb k0 k); [discriminate|]. exact IH.
Qed.

Lemma assoc_absent k (fs : obj) : ~ In k (map fst fs) -> assoc k fs = None.
Proof.
  intros H. destruct (assoc k fs) eqn:E; [|reflexivity].
  exfalso. apply H. apply assoc_In in E.
  change k with (fst (k, v)). apply in_map, E.
Qed.

(** The loop of [compile] over the schemas, on a list of entries of
    [schemas] that are still to come. *)
Lemma register_models_loop schemas : forall l models st,
  NoDup (map fst l) ->
  (forall k v, In (k, v) l -> assoc k schemas = Some v) ->
  (forall k, In k (map fst l) -> assoc k models = None) ->
  forEach_over (map KStr (map fst l)) (VObj schemas)
    (fun schema key models =>
       ret (obj_set (key_name key) (VModel (key_name key) schema) models))
    models st
  = Ret (models ++ map model_of l) st.
Proof.
  unfold forEach_over.
  induction l as [|[k v] l IH]; intros models st Hnd Hl Hm; simpl.
  - rewrite app_nil_r. reflexivity.
  - simpl in Hnd. inversion Hnd as [|? ? Hk Hnd']; subst.
    unfold bind at 1. unfold bind at 1. unfold get_heap at 1.
    unfold get, deref. simpl own_get.
    rewrite (Hl k v (or_introl eq_refl)). unfold ret at 1.
    rewrite obj_set_fresh by (apply Hm; left; reflexivity).
    rewrite IH.
    + rewrite <- app_assoc. reflexivity.
    + exact Hnd'.
    + intros k' v' Hin. apply Hl. right. exact Hin.
    + intros k' Hin. rewrite assoc_app_fresh by (apply Hm; right; exact Hin).
      simpl. destruct (String.eqb k k') eqn:E; [|reflexivity].
      apply String.eqb_eq in E. subst k'. contradiction.
Qed.

Lemma assoc_NoDup k v (fs : obj) :
  NoDup (map fst fs) -> In (k, v) fs -> assoc k fs = Some v.
Proof.
  induction fs as [|[k0 v0] fs IH]; simpl; intros Hnd Hin; [destruct Hin|].
  inversion Hnd as [|? ? Hk Hnd']; subst.
  destruct Hin as [[= -> ->]|Hin].
  - rewrite String.eqb_refl. reflexivity.
  - destruct (String.eqb k0 k) eqn:E; [|apply IH; assumption].
    apply String.eqb_eq in E. subst k0. exfalso. apply Hk.
    change k with (fst (k, v)). apply in_map, Hin.
Qed.

Lemma register_models_mirror schemas st :
  NoDup (map fst schemas) -> schemas_built schemas ->
  register_models schemas st = Ret (map model_of schemas) st.
Proof.
  intros Hnd Hs. unfold register_models, forEach.
  rewrite (bind_Ret get_heap _ st (heap st) st eq_refl).
  assert (K : forEach_keys (heap st) (VObj schemas) = map KStr (map fst schemas)).
  { unfold forEach_keys, deref.
    assert (L : is_length (own_get (VObj schemas) "length") = None).
    { simpl. destruct (assoc "length" schemas) as [s|] eqn:E; [|reflexivity].
      apply assoc_In in E. destruct (Hs _ _ E) as (o & p & i & ->).
      reflexivity. }
    rewrite L. unfold obj_keys. rewrite nodup_fixed_point by exact Hnd.
    reflexivity. }
  rewrite K. rewrite register_models_loop; try assumption.
  - reflexivity.
  - intros k v. apply assoc_NoDup, Hnd.
  - reflexivity.
Qed.

Lemma compile_definitions_NoDup require fuel mp defs :
  yields (compile_definitions require fuel mp defs)
    (fun schemas => NoDup (map fst schemas)).
Proof.
  unfold compile_definitions. apply forEach_yields; [|constructor].
  intros v k schemas Hs st schemas' st' H.
  destruct (compile_definition_options _ _ _ _ _ _ _ _ _ H)
    as [->|(o & p & i & -> & _)]; [exact Hs|].
  apply NoDup_obj_set, Hs.
Qed.

Lemma compile_definitions_names require fuel mp defs st schemas st' :
  compile_definitions require fuel mp defs st = Ret schemas st' ->
  incl (map fst schemas) (map key_name (forEach_keys (heap st) defs)).
Proof.
  unfold compile_definitions, forEach. intros H.
  apply bind_inv in H. destruct H as (h & s0 & E0 & H). injection E0 as <- <-.
  unfold forEach_over in H.
  revert H. generalize (forEach_keys (heap st) defs). intros ks H.
  refine (for_keys_yields_in (fun o => incl (map fst o) (map key_name ks)) _ ks
            _ [] (incl_nil_l _) st schemas st' H).
  intros k a Hk Ha. eapply yields_bind_any. intros h s a' s' E.
  destruct (compile_definition_options _ _ _ _ _ _ _ _ _ E)
    as [->|(o & p & i & -> & _)]; [exact Ha|].
  intros x Hx. apply keys_obj_set in Hx. destruct Hx as [<-|Hx]; [|apply Ha, Hx].
  apply in_map, Hk.
Qed.

(** X5. Schemas and models.  The loop of [compile] emits schemas under
    names of the definitions object only.  And what [compile] returns is an
    object [{schemas, models}] in which the models mirror the schemas: one
    model for each schema, in the same order, under the same name, made of
    that name and that schema. *)
Theorem compile_models_mirror_schemas :
  (forall require fuel mp defs st schemas st',
     compile_definitions require fuel mp defs st = Ret schemas st' ->
     forall name, In name (map fst schemas) ->
       exists key, In key (forEach_keys (heap st) defs) /\ key_name key = name) /\
  (forall JSON_parse require fuel spec _extraDefinitions st v st',
     compile JSON_parse require fuel spec _extraDefinitions st = Ret v st' ->
     exists schemas,
       v = VObj [("schemas", VObj schemas);
                 ("models", VObj (map model_of schemas))]).
Proof.
  split.
  - intros require fuel mp defs st schemas st' H name Hn.
    apply (compile_definitions_names _ _ _ _ _ _ _ H) in Hn.
    apply in_map_iff in Hn. destruct Hn as (key & E & Hk). eauto.
  - intros JSON_parse require fuel spec extra st v st' H. unfold compile in H.
    destruct (negb (truthy spec)); [discriminate H|].
    do 9 (apply bind_inv in H; destruct H as (? & ? & _ & H)).
    apply bind_inv in H. destruct H as (schemas & s1 & E & H).
    apply bind_inv in H. destruct H as (models & s2 & M & H).
    apply ret_inv in H. destruct H as [-> _].
    rewrite register_models_mirror in M.
    + injection M as <- _. eauto.
    + eapply compile_definitions_NoDup, E.
    + eapply compile_definitions_built, E.
Qed.

(** ** Fields that are no descriptors *)

Lemma string_field h s k :
  String.eqb k "length" = false -> index_of_key k = None ->
  get h (VStr s) k = VUndef.
Proof. intros E I. unfold get. simpl. rewrite E, I. reflexivity. Qed.

Lemma string_extension st s : get (heap st) (VStr s) (getMongooseProperty st) = VUndef.
Proof.
  apply string_field; unfold getMongooseProperty;
    destruct (isAtLeastSwagger2 st); reflexivity.
Qed.

Lemma isMongooseProperty_string s st : isMongooseProperty (VStr s) st = Ret false st.
Proof.
  unfold isMongooseProperty, bind, mongooseProperty, getp, ret. simpl nullish.
  cbv iota. rewrite string_extension. reflexivity.
Qed.

Lemma isMongooseArray_string s st : isMongooseArray (VStr s) st = Ret VUndef st.
Proof.
  unfold isMongooseArray, bind, getp. simpl nullish. cbv iota.
  rewrite string_field by reflexivity. reflexivity.
Qed.

Lemma isPropertyHasRef_string s st : isPropertyHasRef (VStr s) st = Ret false st.
Proof.
  unfold isPropertyHasRef, bind, getp. simpl nullish. cbv iota.
  rewrite !string_field by reflexivity. reflexivity.
Qed.

Lemma getp_string s k st :
  String.eqb k "length" = false -> index_of_key k = None ->
  getp (VStr s) k st = Ret VUndef st.
Proof.
  intros E I. unfold getp. simpl nullish. cbv iota.
  rewrite string_field by assumption. reflexivity.
Qed.

(** The turn of [getSchemaProperty] for a string: it goes to the call of
    [getSchema] on that string. *)
Lemma getSchemaProperty_body_string fuel gs gsp s key required objectName object
  st e :
  isMongodbReserved key = false ->
  gs (key_val key) (VStr s) st = Throw e st ->
  getSchemaProperty_body fuel gs gsp (VStr s) key required objectName object st
  = Throw e st.
Proof.
  intros Hk Hgs. unfold getSchemaProperty_body. rewrite Hk.
  rewrite (bind_Ret _ _ _ _ _ (isMongooseProperty_string s st)). cbv iota.
  apply bind_Throw.
  rewrite (bind_Ret _ _ _ _ _ (isMongooseArray_string s st)).
  change (truthy VUndef) with false. cbv iota.
  rewrite (bind_Ret _ _ _ _ _ (isPropertyHasRef_string s st)). cbv iota.
  unfold isPolymorphic.
  rewrite (bind_Ret _ _ _ _ _ (getp_string s "allOf" st eq_refl eq_refl)).
  change (truthy VUndef) with false. cbv iota.
  rewrite (bind_Ret _ _ _ _ _ (getp_string s "type" st eq_refl eq_refl)).
  change (negb (truthy VUndef) || is_str VUndef "object")%bool with true. cbv iota.
  apply bind_Throw. exact Hgs.
Qed.

Lemma getSchema_body_string gsp objectName s st :
  s <> "" ->
  (forall c required object,
     c <> "" ->
     gsp (VStr c) (KIdx 0) required objectName object st = Throw OutOfFuel st) ->
  getSchema_body gsp objectName (VStr s) st = Throw OutOfFuel st.
Proof.
  intros Hs Hgsp. unfold getSchema_body.
  rewrite (bind_Ret _ _ _ _ _ (getp_string s "required" st eq_refl eq_refl)).
  unfold isPolymorphic.
  rewrite (bind_Ret _ _ _ _ _ (getp_string s "allOf" st eq_refl eq_refl)).
  change (truthy VUndef) with false. cbv iota.
  rewrite (bind_Ret (ret tt) _ st tt st eq_refl).
  unfold compile_properties.
  rewrite (bind_Ret _ _ _ _ _ (getp_string s "properties" st eq_refl eq_refl)).
  change (truthy VUndef) with false. cbv iota.
  apply bind_Throw. unfold forEach.
  rewrite (bind_Ret get_heap _ st (heap st) st eq_refl).
  destruct s as [|c s]; [contradiction|].
  unfold forEach_keys, deref, forEach_over. simpl String.length. simpl seq.
  simpl map. simpl for_keys. apply bind_Throw.
  rewrite (bind_Ret get_heap _ st (heap st) st eq_refl).
  unfold getSchema_iteratee. apply bind_Throw. simpl get_key.
  apply Hgsp. discriminate.
Qed.

Lemma strings_diverge fuel :
  (forall s key required objectName object st,
     s <> "" -> isMongodbReserved key = false ->
     getSchemaProperty fuel (VStr s) key required objectName object st
     = Throw OutOfFuel st) /\
  (forall s objectName st,
     s <> "" -> getSchema fuel objectName (VStr s) st = Throw OutOfFuel st).
Proof.
  induction fuel as [|n [IHp IHs]].
  - assert (P : forall s key required objectName object st,
              s <> "" -> isMongodbReserved key = false ->
              getSchemaProperty 0 (VStr s) key required objectName object st
              = Throw OutOfFuel st).
    { intros. rewrite getSchemaProperty_unfold.
      apply getSchemaProperty_body_string; [assumption|reflexivity]. }
    split; [exact P|]. intros s objectName st Hs.
    apply getSchema_body_string; [exact Hs|]. intros. apply P; [assumption|reflexivity].
  - assert (P : forall s key required objectName object st,
              s <> "" -> isMongodbReserved key = false ->
              getSchemaProperty (S n) (VStr s) key required objectName object st
              = Throw OutOfFuel st).
    { intros s key required objectName object st Hs Hk.
      rewrite getSchemaProperty_unfold.
      apply getSchemaProperty_body_string; [assumption|].
      apply IHs, Hs. }
    split; [exact P|]. intros s objectName st Hs.
    apply getSchema_body_string; [exact Hs|]. intros. apply P; [assumption|reflexivity].
Qed.

Lemma for_keys_never {A} (R : state -> Prop) (body : pkey -> A -> M A) key ks :
  In key ks ->
  (forall a s, R s -> exists e s', body key a s = Throw e s') ->
  (forall k a s a' s', R s -> body k a s = Ret a' s' -> R s') ->
  forall a s, R s -> forall v s', for_keys ks body a s <> Ret v s'.
Proof.
  intros Hin Hthrow Hkeep.
  induction ks as [|k ks IH]; [destruct Hin|].
  intros a s HR v s' H. simpl in H.
  apply bind_inv in H. destruct H as (a1 & s1 & E & H).
  destruct Hin as [->|Hin].
  - destruct (Hthrow a s HR) as (e & s2 & T). rewrite T in E. discriminate E.
  - exact (IH Hin a1 s1 (Hkeep _ _ _ _ _ HR E) v s' H).
Qed.

(** X6. A field that is a string.  [getSchema] called on a non-empty string
    goes through its characters, and for each of them calls itself on that
    character: whatever the fuel, it runs out of it.  So a definition that
    is no composition and among whose fields (of its [properties], or its
    own when it has none, as [type] or [description] then are) there is one
    that is a non-empty string, under a name that is not reserved, cannot be
    compiled: [getSchema] does not return, whatever the fuel. *)
Theorem string_field_never_compiles :
  (forall fuel s objectName st,
     s <> "" -> getSchema fuel objectName (VStr s) st = Throw OutOfFuel st) /\
  (forall fuel objectName fullObject key s st,
     truthy (get (heap st) fullObject "allOf") = false ->
     let properties := get (heap st) fullObject "properties" in
     let object := if truthy properties then properties else fullObject in
     In key (forEach_keys (heap st) object) ->
     isMongodbReserved key = false ->
     ~ In (key_name key) written ->
     get_key (heap st) object key = VStr s -> s <> "" ->
     forall v st', getSchema fuel objectName fullObject st <> Ret v st').
Proof.
  split.
  - intros fuel s objectName st Hs. apply strings_diverge, Hs.
  - intros fuel objectName fullObject key s st Ha properties object Hin Hk Hw Hg Hs
      v st' H.
    unfold getSchema, getSchema_body in H.
    apply bind_inv in H. destruct H as (r & s0 & E & H).
    apply getp_inv in E. destruct E as [-> ->].
    apply bind_inv in H. destruct H as (allOf & s0 & E & H).
    apply getp_inv in E. destruct E as [-> ->]. rewrite Ha in H.
    apply bind_inv in H. destruct H as ([] & s0 & E & H).
    apply ret_inv in E. destruct E as [_ ->].
    unfold compile_properties in H.
    apply bind_inv in H. destruct H as (p & s0 & E & H).
    apply getp_inv in E. destruct E as [-> ->]. fold properties object in H.
    apply bind_inv in H. destruct H as (props & s1 & E & _).
    unfold forEach in E. apply bind_inv in E. destruct E as (h & s0 & E0 & E).
    injection E0 as <- <-. unfold forEach_over in E.
    assert (Vo : deref (heap st) object <> VUndef).
    { apply (get_defined _ _ (key_name key)). rewrite <- get_key_name, Hg.
      discriminate. }
    revert E.
    apply (for_keys_never
             (fun s1 => field_kept (key_name key) (heap st) (heap s1)) _ key);
      [exact Hin| | |apply field_kept_refl].
    + intros a s2 K. exists OutOfFuel, s2.
      rewrite (bind_Ret get_heap _ s2 (heap s2) s2 eq_refl).
      unfold getSchema_iteratee. apply bind_Throw.
      rewrite get_key_name, (field_kept_get _ _ _ _ K Vo), <- get_key_name, Hg.
      apply strings_diverge; assumption.
    + intros k a s2 a' s' K E. eapply field_kept_trans; [exact K|].
      eapply spares_inv; [|exact E].
      apply spares_bind; [apply spares_get_heap|intros h].
      unfold getSchema_iteratee.
      apply spares_bind; [apply spares_getSchemaProperty, Hw|intros sp].
      apply spares_bind; [apply spares_get_heap|intros h'].
      apply spares_extend.
Qed.

Lemma string_field_never_compiles_witness :
  match getSchema 5 (VStr "Thing") (VRef 0)
          (with_store bare_object_store initial_state) with
  | Ret _ _ => False
  | Throw _ _ => True
  end.
Proof.
  destruct (getSchema 5 (VStr "Thing") (VRef 0)
              (with_store bare_object_store initial_state)) as [v st'|e st'] eqn:H.
  - apply (proj2 string_field_never_compiles 5 (VStr "Thing") (VRef 0)
             (KStr "type") "object" (with_store bare_object_store initial_state)
             eq_refl) with (v := v) (st' := st').
    + left. reflexivity.
    + reflexivity.
    + simpl. intuition discriminate.
    + reflexivity.
    + discriminate.
    + exact H.
  - exact I.
Defined.

(** ** References that lead nowhere *)

(** X7. A dangling reference.  A property whose reference names a
    definition that the registry, an object, does not hold (and that is not
    the definition the property belongs to, nor a name every object answers
    to, as [constructor] or [toString] are) makes [processRef] fail with a
    TypeError, on the read of the [type] of what it did not find, whatever
    the functions it would go on to call; the state is untouched and the
    field is not emitted. *)
Theorem processRef_dangling_reference
  (gs : val -> val -> M val) (gsp : val -> pkey -> val -> val -> val -> M val)
  (property objectName : val) (name : string) (props : obj) (key : pkey)
  (required : val) (st : state) :
  nullish property = false ->
  (truthy (get (heap st) property "$ref") = false ->
   nullish (get (heap st) property "items") = false) ->
  refString_of (heap st) property = VStr ("#/definitions/" ++ name) ->
  all_word name = true ->
  is_str objectName name = false ->
  (exists fs, deref (heap st) (definitions st) = VObj fs) ->
  ~ In name prototype_members ->
  nullish (get (heap st) (definitions st) name) = true ->
  processRef gs gsp property objectName props key required st
  = Throw (TypeError "type") st.
Proof.
  intros Hn Hi Hs Hw Ho [fs Hfs] _ Hm.
  assert (Hd : nullish (definitions st) = false).
  { destruct (definitions st); try reflexivity; discriminate Hfs. }
  assert (M : match_ref ("#/definitions/" ++ name) = Some name)
    by (apply match_ref_Some; auto).
  read_refString Hn Hi T; rewrite Hs; unfold bind, match_definition;
    rewrite M; unfold ret at 1; rewrite Ho; change (negb false) with true;
    cbv beta iota; unfold get_definitions, getp; cbv beta iota;
    rewrite Hd; cbv beta iota; rewrite Hm; reflexivity.
Qed.

Lemma processRef_dangling_reference_witness :
  processRef (fun _ _ => ret VUndef) (fun _ _ _ _ _ => ret VUndef)
    (VObj [("$ref", VStr "#/definitions/Garage")]) (VStr "Person") []
    (KStr "garage") VUndef
    (with_definitions (VObj [("House", VObj [])]) initial_state)
  = Throw (TypeError "type")
      (with_definitions (VObj [("House", VObj [])]) initial_state).
Proof.
  apply processRef_dangling_reference with (name := "Garage");
    try reflexivity; try discriminate.
  - eexists. reflexivity.
  - simpl. intuition discriminate.
Defined.

(** ** Plain fields *)

Lemma isMongooseProperty_read property st :
  nullish property = false ->
  isMongooseProperty property st
  = Ret (truthy (get (heap st) property (getMongooseProperty st))) st.
Proof.
  intros Hn. unfold isMongooseProperty, bind, mongooseProperty, getp, ret.
  rewrite Hn. reflexivity.
Qed.

Lemma isMongooseArray_falsy property st :
  nullish property = false ->
  (truthy (get (heap st) property "items") = true ->
   truthy (get (heap st) (get (heap st) property "items") (getMongooseProperty st))
   = false) ->
  exists a, isMongooseArray property st = Ret a st /\ truthy a = false.
Proof.
  intros Hn Hi. unfold isMongooseArray, bind, getp. rewrite Hn.
  destruct (truthy (get (heap st) property "items")) eqn:T.
  - unfold mongooseProperty. rewrite (truthy_not_nullish _ T).
    eexists. split; [reflexivity|]. apply Hi. reflexivity.
  - eexists. split; [reflexivity|exact T].
Qed.

(** X8. An array without items.  A property of type [array] that has no
    [items] (and no extension block and no reference of its own) makes
    [getSchemaProperty] fail with a TypeError, on the read of the [$ref] of
    the items that are not there; the state is untouched. *)
Theorem array_without_items
  (fuel : nat) (property : val) (key : pkey) (required objectName object : val)
  (st : state) :
  isMongodbReserved key = false ->
  nullish property = false ->
  truthy (get (heap st) property (getMongooseProperty st)) = false ->
  truthy (get (heap st) property "$ref") = false ->
  get (heap st) property "type" = VStr "array" ->
  nullish (get (heap st) property "items") = true ->
  getSchemaProperty fuel property key required objectName object st
  = Throw (TypeError "$ref") st.
Proof.
  intros Hk Hn Hm Hr Ht Hi.
  rewrite getSchemaProperty_unfold. unfold getSchemaProperty_body. rewrite Hk.
  rewrite (bind_Ret _ _ _ _ _ (isMongooseProperty_read property st Hn)).
  rewrite Hm. cbv iota. apply bind_Throw.
  destruct (isMongooseArray_falsy property st Hn) as (a & Ea & Ta).
  { intros T. destruct (get (heap st) property "items"); discriminate. }
  rewrite (bind_Ret _ _ _ _ _ Ea). rewrite Ta. cbv iota.
  apply bind_Throw. unfold isPropertyHasRef.
  rewrite (bind_Ret _ _ _ _ _ (getp_ok property "$ref" st Hn)). rewrite Hr.
  cbv iota.
  rewrite (bind_Ret _ _ _ _ _ (getp_ok property "type" st Hn)). rewrite Ht.
  change (is_str (VStr "array") "array") with true. cbv iota.
  rewrite (bind_Ret _ _ _ _ _ (getp_ok property "items" st Hn)).
  apply bind_Throw. unfold getp. rewrite Hi. reflexivity.
Qed.

Lemma array_without_items_witness :
  getSchemaProperty 3 (VObj [("type", VStr "array")]) (KStr "tags") VUndef
    (VStr "House") VUndef initial_state
  = Throw (TypeError "$ref") initial_state.
Proof. apply array_without_items; reflexivity. Defined.

Lemma isPropertyHasRef_plain property st :
  plain_property st property -> isPropertyHasRef property st = Ret false st.
Proof.
  intros (Hn & _ & _ & Hr & Ha & _). unfold isPropertyHasRef.
  rewrite (bind_Ret _ _ _ _ _ (getp_ok property "$ref" st Hn)). rewrite Hr.
  cbv iota.
  rewrite (bind_Ret _ _ _ _ _ (getp_ok property "type" st Hn)).
  destruct (is_str (get (heap st) property "type") "array") eqn:T; [|reflexivity].
  destruct (Ha eq_refl) as [Hi Hir].
  rewrite (bind_Ret _ _ _ _ _ (getp_ok property "items" st Hn)).
  rewrite (bind_Ret _ _ _ _ _ (getp_ok _ "$ref" st Hi)).
  rewrite Hir. reflexivity.
Qed.

Lemma assign_in_descriptor k d f x st :
  assoc f d = None ->
  assign_in [(key_name k, VObj d)] k f x st
  = Ret [(key_name k, VObj (d ++ [(f, x)]))] st.
Proof.
  intros Hf. unfold assign_in, bind. simpl own_get. rewrite String.eqb_refl.
  simpl setp. unfold ret. simpl obj_set. rewrite String.eqb_refl.
  rewrite obj_set_fresh by exact Hf. reflexivity.
Qed.

Lemma required_facet_keys h required key f :
  f <> "required" -> assoc f (required_facet h required key) = None.
Proof.
  intros Hf. unfold required_facet.
  assert (E : String.eqb "required" f = false).
  { destruct (String.eqb "required" f) eqn:E; [|reflexivity].
    apply String.eqb_eq in E. congruence. }
  destruct (_ && _)%bool; [unfold assoc; rewrite E; reflexivity|].
  destruct required; try reflexivity. unfold assoc. rewrite E. reflexivity.
Qed.

Lemma assoc_app_none k (fs gs : obj) :
  assoc k fs = None -> assoc k gs = None -> assoc k (fs ++ gs) = None.
Proof. intros A B. rewrite assoc_app_fresh by exact A. exact B. Qed.

(** The plain path of [getSchemaProperty]. *)
Lemma getSchemaProperty_plain
  (fuel : nat) (property : val) (key : pkey) (required objectName object : val)
  (st : state) :
  isMongodbReserved key = false ->
  plain_property st property ->
  getSchemaProperty fuel property key required objectName object st
  = match propertyMap (S fuel) (heap st) property with
    | Rerr e => Throw e st
    | Rok t =>
        Ret (VObj [(key_name key,
                    VObj ((("type", VType t) :: enum_facet (heap st) property)
                          ++ (if truthy required
                              then required_facet (heap st) required key
                              else [])
                          ++ default_facet (heap st) property))]) st
    end.
Proof.
  intros Hk Hp. pose proof Hp as (Hn & Hm & Hi & Hr & Ha & Hall & Tt & To).
  rewrite getSchemaProperty_unfold. unfold getSchemaProperty_body. rewrite Hk.
  rewrite (bind_Ret _ _ _ _ _ (isMongooseProperty_read property st Hn)).
  rewrite Hm. cbv iota.
  destruct (isMongooseArray_falsy property st Hn Hi) as (a & Ea & Ta).
  set (d t := ("type", VType t) :: enum_facet (heap st) property).
  match goal with |- bind ?c ?k st = _ =>
    assert (E : c st = match propertyMap (S fuel) (heap st) property with
                       | Rerr e => Throw e st
                       | Rok t => Ret [(key_name key, VObj (d t))] st
                       end)
  end.
  { rewrite (bind_Ret _ _ _ _ _ Ea). rewrite Ta. cbv iota.
    rewrite (bind_Ret _ _ _ _ _ (isPropertyHasRef_plain property st Hp)).
    cbv iota. unfold isPolymorphic.
    rewrite (bind_Ret _ _ _ _ _ (getp_ok property "allOf" st Hn)).
    rewrite Hall. cbv iota.
    rewrite (bind_Ret _ _ _ _ _ (getp_ok property "type" st Hn)).
    rewrite Tt, To. cbn [negb orb]. cbv iota.
    unfold propertyMapM.
    unfold bind at 1. unfold bind at 1. unfold get_heap at 1.
    destruct (propertyMap (S fuel) (heap st) property) as [t|e];
      [|reflexivity].
    unfold lift, ret at 1.
    rewrite (bind_Ret _ _ _ _ _ (getp_ok property "enum" st Hn)).
    rewrite (bind_Ret get_heap _ st (heap st) st eq_refl).
    unfold d, enum_facet. cbv zeta.
    destruct (truthy (get (heap st) property "enum")
              && is_array (deref (heap st) (get (heap st) property "enum")))%bool;
      reflexivity. }
  unfold bind at 1. rewrite E. clear E.
  destruct (propertyMap (S fuel) (heap st) property) as [t|e]; [|reflexivity].
  assert (Dr : assoc "required" (d t) = None).
  { unfold d, enum_facet. cbv zeta. destruct (_ && _)%bool; reflexivity. }
  assert (Dd : assoc "default" (d t) = None).
  { unfold d, enum_facet. cbv zeta. destruct (_ && _)%bool; reflexivity. }
  set (r := if truthy required then required_facet (heap st) required key else []).
  assert (R : (if truthy required
               then fillRequired [(key_name key, VObj (d t))] key required
               else ret [(key_name key, VObj (d t))]) st
              = Ret [(key_name key, VObj (d t ++ r))] st).
  { unfold r. destruct (truthy required).
    - change [(key_name key, VObj (d t))]
        with (obj_set (key_name key) (VObj (d t)) []).
      rewrite fillRequired_descriptor; [reflexivity|exact Dr|].
      intros b. apply obj_set_fresh, Dr.
    - rewrite app_nil_r. reflexivity. }
  rewrite (bind_Ret _ _ _ _ _ R).
  rewrite (bind_Ret _ _ _ _ _ (getp_ok property "default" st Hn)).
  assert (Rd : assoc "default" (d t ++ r) = None).
  { apply assoc_app_none; [exact Dd|]. unfold r.
    destruct (truthy required); [|reflexivity].
    apply required_facet_keys. discriminate. }
  unfold default_facet. fold (d t). rewrite app_assoc.
  destruct (get (heap st) property "default");
    try (rewrite (bind_Ret _ _ _ _ _ (assign_in_descriptor key _ "default" _ st Rd));
         reflexivity).
  rewrite app_nil_r. reflexivity.
Qed.

(** X9. A plain field.  For a property that takes none of the special
    paths (no extension block, no reference, no composition, a type that is
    not [object]) and a key that is neither reserved nor [__proto__],
    [getSchemaProperty] fails as the Type Mapper fails on it, and else
    returns, leaving the state as it is, a map of that one key to a
    descriptor made, in this order, of the mapped [type], the [enum] if it
    is an array, [required] as [fillRequired] sets it when the required
    facet is truthy, and the [default] if it is not [undefined].  (Under
    the key [__proto__] the descriptor becomes the prototype of what is
    returned, which then has no field.) *)
Theorem plain_field_descriptor
  (fuel : nat) (property : val) (key : pkey) (required objectName object : val)
  (st : state) :
  isMongodbReserved key = false ->
  key_name key <> "__proto__" ->
  plain_property st property ->
  getSchemaProperty fuel property key required objectName object st
  = match propertyMap (S fuel) (heap st) property with
    | Rerr e => Throw e st
    | Rok t =>
        Ret (VObj [(key_name key,
                    VObj ((("type", VType t) :: enum_facet (heap st) property)
                          ++ (if truthy required
                              then required_facet (heap st) required key
                              else [])
                          ++ default_facet (heap st) property))]) st
    end.
Proof. intros Hk _. apply getSchemaProperty_plain, Hk. Qed.

Lemma plain_field_descriptor_witness :
  getSchemaProperty 0
    (VObj [("type", VStr "integer"); ("default", VNum 3%Q)]) (KStr "age")
    (VArr [VStr "age"] []) (VStr "Person") VUndef initial_state
  = Ret (VObj [("age", VObj [("type", VType SNumber); ("required", VBool true);
                             ("default", VNum 3%Q)])]) initial_state.
Proof.
  apply (plain_field_descriptor 0
           (VObj [("type", VStr "integer"); ("default", VNum 3%Q)]) (KStr "age")
           (VArr [VStr "age"] []) (VStr "Person") VUndef initial_state).
  - reflexivity.
  - discriminate.
  - repeat split; try reflexivity; try discriminate; intros ?; discriminate.
Defined.

(** ** Indexes *)

Lemma processDocumentIndex_cell object options i l fs st :
  nth l (heap st) VUndef = VObj fs -> fs <> [] ->
  processDocumentIndex (VSchema object options i) (VRef l) st
  = Ret (VSchema object options
           (Some (VRef l, truthy (own_get (VObj fs) "unique"))))
      (with_store (update l (VObj (obj_delete "unique" fs)) (heap st)) st).
Proof.
  intros Hl Hfs. unfold processDocumentIndex.
  rewrite (bind_Ret get_heap _ st (heap st) st eq_refl).
  unfold isEmpty, deref. rewrite Hl.
  destruct fs as [|f fs]; [contradiction|]. cbv iota.
  rewrite (bind_Ret _ _ _ _ _ (getp_ok (VRef l) "unique" st eq_refl)).
  unfold get, deref. rewrite Hl.
  rewrite (bind_Ret _ _ _ _ _ (deletep_cell l "unique" st)).
  rewrite Hl. reflexivity.
Qed.

(** X10. An index is read once.  [processDocumentIndex], given a schema and
    an index block of the store that is not empty, gives the schema that
    block as its index, unique if the block says so, and deletes [unique]
    from the block, in the document itself.  So a second schema indexed by
    the same block (the same document compiled again) gets an index that is
    not unique, or no index at all when [unique] was all the block held. *)
Theorem processDocumentIndex_forgets_unique
  (object options object' options' : val) (l : nat) (fs : obj) (st : state) :
  nth l (heap st) VUndef = VObj fs -> fs <> [] ->
  exists st',
    processDocumentIndex (VSchema object options None) (VRef l) st
    = Ret (VSchema object options
             (Some (VRef l, truthy (own_get (VObj fs) "unique")))) st' /\
    same_variables st st' /\
    nth l (heap st') VUndef = VObj (obj_delete "unique" fs) /\
    exists st'',
      processDocumentIndex (VSchema object' options' None) (VRef l) st'
      = Ret (VSchema object' options'
               match obj_delete "unique" fs with
               | [] => None
               | _ => Some (VRef l, false)
               end) st''.
Proof.
  intros Hl Hfs.
  assert (Hl' : nth l (update l (VObj (obj_delete "unique" fs)) (heap st)) VUndef
                = VObj (obj_delete "unique" fs)).
  { apply nth_update_same. eapply cell_within, Hl. }
  eexists. split; [apply processDocumentIndex_cell; assumption|].
  split; [repeat split|]. split; [exact Hl'|].
  destruct (obj_delete "unique" fs) as [|f fs'] eqn:E.
  - eexists. unfold processDocumentIndex.
    rewrite (bind_Ret get_heap _ _ _ _ eq_refl).
    unfold isEmpty, deref. rewrite with_store_heap, Hl'. reflexivity.
  - eexists. rewrite processDocumentIndex_cell with (fs := f :: fs');
      [|exact Hl'|discriminate].
    rewrite <- E. simpl own_get. rewrite assoc_obj_delete_same. reflexivity.
Qed.

Lemma processDocumentIndex_forgets_unique_witness :
  exists st',
    processDocumentIndex (VSchema (VObj []) (VObj []) None) (VRef 0)
      (with_store index_store initial_state)
    = Ret (VSchema (VObj []) (VObj []) (Some (VRef 0, true))) st' /\
    exists st'',
      processDocumentIndex (VSchema (VObj []) (VObj []) None) (VRef 0) st'
      = Ret (VSchema (VObj []) (VObj []) (Some (VRef 0, false))) st''.
Proof.
  destruct (processDocumentIndex_forgets_unique (VObj []) (VObj []) (VObj [])
              (VObj []) 0 [("email", VNum 1%Q); ("unique", VBool true)]
              (with_store index_store initial_state) eq_refl)
    as (st' & E & _ & _ & st'' & E').
  - discriminate.
  - exists st'. split; [exact E|]. exists st''. exact E'.
Defined.

(** ** Foreign keys by extension block *)

Lemma remove_first_prefix p s : remove_first p (p ++ s) = s.
Proof.
  assert (E : strip_prefix p (p ++ s) = Some s) by (apply strip_prefix_spec; reflexivity).
  destruct (p ++ s)%string; simpl; rewrite E; reflexivity.
Qed.

(** X11. A reference in an extension block.  In a document of version 2 or
    more, a property whose extension block has a [$ref] compiles to a foreign
    key: [getMongooseSpecific] returns the [ObjectId] type with, as [ref],
    the reference without its first [#/definitions/], and leaves the state
    as it is; the reference is not matched against the pattern, nor looked
    up in the definitions, and nothing else of the property or of the block
    is kept.  For [#/definitions/<name>] the [ref] is the name. *)
Theorem extension_reference
  (fuel : nat) (props : obj) (property : val) (r : string) (st : state) :
  isAtLeastSwagger2 st = true ->
  let block := get (heap st) property (getMongooseProperty st) in
  truthy block = true ->
  get (heap st) block "$ref" = VStr r -> r <> "" ->
  getMongooseSpecific fuel props property st
  = Ret (VObj [("type", VType SObjectId);
               ("ref", VStr (remove_first "#/definitions/" r))]) st /\
  forall name, r = ("#/definitions/" ++ name)%string ->
    remove_first "#/definitions/" r = name.
Proof.
  intros Hv block Tb Hr Hne. split.
  - assert (Hn : nullish property = false)
      by (apply truthy_not_nullish; eapply truthy_get; exact Tb).
    assert (Hb : nullish block = false) by (apply truthy_not_nullish, Tb).
    assert (Tr : truthy (VStr r) = true)
      by (simpl; destruct r; [contradiction|reflexivity]).
    unfold getMongooseSpecific.
    rewrite (bind_Ret mongooseProperty _ st (getMongooseProperty st) st eq_refl).
    rewrite (bind_Ret atLeastSwagger2 _ st true st)
      by (unfold atLeastSwagger2; rewrite Hv; reflexivity).
    rewrite (bind_Ret _ _ _ _ _ (getp_ok property _ st Hn)).
    fold block. rewrite Tb. cbn [andb negb]. cbv iota.
    rewrite (bind_Ret _ _ _ _ _ (getp_ok block "$ref" st Hb)). rewrite Hr.
    rewrite (bind_Ret (ret false) _ st false st eq_refl). cbv iota.
    rewrite (bind_Ret (ret (block, VStr r)) _ st (block, VStr r) st eq_refl).
    cbv iota beta. rewrite Tb, Tr. cbn [negb]. cbv iota.
    reflexivity.
  - intros name ->. apply remove_first_prefix.
Qed.

Lemma extension_reference_witness :
  getMongooseSpecific 0 []
    (VObj [("x-swagger-mongoose", VObj [("$ref", VStr "#/definitions/House")])])
    (mkState [] VNull (VStr "2.0") initial_registries (fun _ => VUndef))
  = Ret (VObj [("type", VType SObjectId); ("ref", VStr "House")])
      (mkState [] VNull (VStr "2.0") initial_registries (fun _ => VUndef)).
Proof.
  apply (extension_reference 0 []
           (VObj [("x-swagger-mongoose", VObj [("$ref", VStr "#/definitions/House")])])
           "#/definitions/House"
           (mkState [] VNull (VStr "2.0") initial_registries (fun _ => VUndef)));
    reflexivity || discriminate.
Defined.

(** ** What compiling a definition leaves of the session *)

(** X13. Compiling a definition changes the store only.  Whether they
    return or throw, [getSchema], [getSchemaProperty] and
    [processAdditionalProperties] leave the definition registry, the
    version, the four extension registries and the validators as they
    are. *)
Theorem compiling_changes_store_only :
  (forall fuel objectName fullObject st,
     match getSchema fuel objectName fullObject st with
     | Ret _ st' | Throw _ st' => same_variables st st'
     end) /\
  (forall fuel property key required objectName object st,
     match getSchemaProperty fuel property key required objectName object st with
     | Ret _ st' | Throw _ st' => same_variables st st'
     end) /\
  (forall fuel additionalProperties objectName st,
     match processAdditionalProperties fuel additionalProperties objectName st with
     | Ret _ st' | Throw _ st' => same_variables st st'
     end).
Proof.
  split; [|split].
  - intros. apply heap_only_getSchema.
  - intros. apply heap_only_getSchemaProperty.
  - intros. apply heap_only_processAdditionalProperties.
Qed.

(** ** The table of allowed types and the Type Mapper *)

Lemma isAllowedType_false type :
  isAllowedType type = false ->
  is_str type "number" = false /\ is_str type "integer" = false /\
  is_str type "long" = false /\ is_str type "float" = false /\
  is_str type "double" = false /\ is_str type "string" = false /\
  is_str type "password" = false /\ is_str type "boolean" = false /\
  is_str type "date" = false /\ is_str type "dateTime" = false /\
  is_str type "array" = false.
Proof.
  unfold isAllowedType, allowedTypes. cbn [existsb]. intros H.
  repeat (apply orb_false_iff in H; destruct H as [? H]).
  repeat split; assumption.
Qed.

(** X14. The table [allowedTypes] and the Type Mapper agree.  The Type
    Mapper raises [UnrecognizedType] on a type, of the property or of items
    within it, only if [isAllowedType] rejects that type; and on a property
    whose type [isAllowedType] rejects, it raises [UnrecognizedType] on that
    type.  So a descriptor that [isSimpleSchema] accepts never makes the
    Type Mapper fail on its own type. *)
Theorem allowedTypes_agree_with_propertyMap :
  (forall n h property type,
     propertyMap n h property = Rerr (UnrecognizedType type) ->
     isAllowedType type = false) /\
  (forall n h property,
     nullish property = false ->
     isAllowedType (get h property "type") = false ->
     propertyMap (S n) h property
     = Rerr (UnrecognizedType (get h property "type"))).
Proof.
  split.
  - induction n as [|n IH]; intros h p type H; [discriminate H|].
    rewrite propertyMap_unfold in H. cbv zeta in H.
    destruct (nullish p); [discriminate H|].
    destruct (is_str (get h p "type") "number") eqn:E1.
    { destruct (_ || _)%bool; discriminate H. }
    destruct (is_str (get h p "type") "integer") eqn:E2; [discriminate H|].
    destruct (is_str (get h p "type") "long") eqn:E3; [discriminate H|].
    destruct (is_str (get h p "type") "float") eqn:E4; [discriminate H|].
    destruct (is_str (get h p "type") "double") eqn:E5; [discriminate H|].
    destruct (is_str (get h p "type") "string") eqn:E6; [discriminate H|].
    destruct (is_str (get h p "type") "password") eqn:E7; [discriminate H|].
    destruct (is_str (get h p "type") "boolean") eqn:E8; [discriminate H|].
    destruct (is_str (get h p "type") "date") eqn:E9; [discriminate H|].
    destruct (is_str (get h p "type") "dateTime") eqn:E10; [discriminate H|].
    cbn [orb] in H.
    destruct (is_str (get h p "type") "array") eqn:E11.
    + destruct (propertyMap n h (get h p "items")) as [t|e] eqn:Ei;
        [discriminate H|]. injection H as ->. exact (IH _ _ _ Ei).
    + injection H as <-. unfold isAllowedType, allowedTypes. cbn [existsb].
      rewrite E1, E2, E3, E4, E5, E6, E7, E8, E9, E10, E11. reflexivity.
  - intros n h p Hn Ha. apply isAllowedType_false in Ha.
    destruct Ha as (E1 & E2 & E3 & E4 & E5 & E6 & E7 & E8 & E9 & E10 & E11).
    rewrite propertyMap_unfold. cbv zeta.
    rewrite Hn, E1, E2, E3, E4, E5, E6, E7, E8, E9, E10, E11. reflexivity.
Qed.

(** ** The fifth parameter of [getSchemaProperty] *)

Lemma getSchemaProperty_body_object fuel gs gsp property key required objectName
  object object' st :
  getSchemaProperty_body fuel gs gsp property key required objectName object st
  = getSchemaProperty_body fuel gs gsp property key required objectName object' st.
Proof.
  unfold getSchemaProperty_body.
  destruct (isMongodbReserved key); [reflexivity|].
  apply bind_ext. intros isMongoose st1.
  match goal with
  | |- bind ?c _ _ = bind ?c' _ _ =>
      assert (E : forall s, c s = c' s); [|unfold bind at 1 3; rewrite E; reflexivity]
  end.
  intros s. destruct isMongoose; [reflexivity|].
  apply bind_ext. intros mongooseArray s1.
  destruct (truthy mongooseArray); [reflexivity|].
  apply bind_ext. intros hasRef s2. destruct hasRef; [reflexivity|].
  apply bind_ext. intros allOf s3. destruct (truthy allOf); [reflexivity|].
  apply bind_ext. intros type s4.
  destruct (is_str type "object"); cbn [orb negb].
  - rewrite orb_true_r. reflexivity.
  - rewrite orb_false_r. destruct (negb (truthy type)); reflexivity.
Qed.

(** X15. The fifth parameter is never read.  [getSchemaProperty] receives
    the object its property comes from, and uses it in a branch that no
    property reaches (the branches before it take every type): its outcome
    is the same whatever that object. *)
Theorem getSchemaProperty_ignores_object
  (fuel : nat) (property : val) (key : pkey)
  (required objectName object object' : val) (st : state) :
  getSchemaProperty fuel property key required objectName object st
  = getSchemaProperty fuel property key required objectName object' st.
Proof.
  rewrite getSchemaProperty_unfold. apply getSchemaProperty_body_object.
Qed.

(** ** Flat definitions *)

Lemma flat_loop fuel required objectName object st : forall ks acc,
  NoDup (map key_name ks) ->
  (forall k, In k ks -> key_name k <> "__proto__") ->
  (forall k, In k ks -> assoc (key_name k) acc = None) ->
  (forall k, In k ks -> isMongodbReserved k = false ->
     plain_property st (get_key (heap st) object k) /\
     exists t, propertyMap (S fuel) (heap st) (get_key (heap st) object k) = Rok t) ->
  forEach_over ks object
    (getSchema_iteratee (getSchemaProperty fuel) required objectName object) acc st
  = Ret (acc ++ map (plain_entry fuel (heap st) required object)
                  (filter unreserved_key ks)) st.
Proof.
  unfold forEach_over.
  induction ks as [|k ks IH]; intros acc Hnd Hproto Hacc Hp; simpl.
  - rewrite app_nil_r. reflexivity.
  - simpl in Hnd. inversion Hnd as [|? ? Hk Hnd']; subst.
    assert (Hproto' : forall k', In k' ks -> key_name k' <> "__proto__")
      by (intros k' Hin; apply Hproto; right; exact Hin).
    rewrite (bind_Ret
               (h <- get_heap ;;
                getSchema_iteratee (getSchemaProperty fuel) required objectName
                  object (get_key h object k) k acc) _ st
               (if isMongodbReserved k then acc
                else acc ++ [plain_entry fuel (heap st) required object k]) st).
    + unfold unreserved_key at 1.
      destruct (isMongodbReserved k) eqn:Rk; simpl negb; cbv iota.
      * apply IH; [exact Hnd'|exact Hproto'| |].
        -- intros k' Hin. apply Hacc. right. exact Hin.
        -- intros k' Hin. apply Hp. right. exact Hin.
      * rewrite IH;
          [simpl; rewrite <- app_assoc; reflexivity|exact Hnd'|exact Hproto'| |].
        -- intros k' Hin. rewrite assoc_app_fresh by (apply Hacc; right; exact Hin).
           unfold plain_entry. simpl.
           destruct (String.eqb (key_name k) (key_name k')) eqn:E; [|reflexivity].
           apply String.eqb_eq in E. exfalso. apply Hk. rewrite E.
           apply in_map, Hin.
        -- intros k' Hin. apply Hp. right. exact Hin.
    + rewrite (bind_Ret get_heap _ st (heap st) st eq_refl).
      unfold getSchema_iteratee.
      destruct (isMongodbReserved k) eqn:Rk.
      * rewrite (bind_Ret _ _ st VUndef st).
        -- reflexivity.
        -- rewrite getSchemaProperty_unfold. unfold getSchemaProperty_body.
           rewrite Rk. reflexivity.
      * destruct (Hp k (or_introl eq_refl) Rk) as (Pl & t & Ht).
        erewrite bind_Ret.
        2:{ rewrite getSchemaProperty_plain by assumption. rewrite Ht. reflexivity. }
        rewrite (bind_Ret get_heap _ st (heap st) st eq_refl).
        unfold inherited. cbn [assoc].
        rewrite (proj2 (String.eqb_neq _ _) (Hproto k (or_introl eq_refl))).
        unfold _extend, extend. simpl. unfold obj_assign. simpl.
        rewrite obj_set_fresh by (apply Hacc; left; reflexivity).
        unfold plain_entry, plain_descriptor. rewrite Ht. reflexivity.
Qed.

(** X16. A flat definition.  For a definition that is no composition, has
    no field named [__proto__] and whose fields, but for the reserved ones,
    are all plain properties the Type Mapper accepts, [getSchema] returns,
    leaving the state as it is, the map of those fields in their order,
    each to its descriptor (type, [enum], [required], [default]);
    [required] is taken from the list of the definition, or from nothing
    when it has none. *)
Theorem flat_definition_compiles
  (fuel : nat) (objectName fullObject : val) (st : state) :
  let h := heap st in
  let r := get h fullObject "required" in
  let required := if truthy r then r else VArr [] [] in
  let properties := get h fullObject "properties" in
  let object := if truthy properties then properties else fullObject in
  nullish fullObject = false ->
  truthy (get h fullObject "allOf") = false ->
  (forall key, In key (forEach_keys h object) -> key_name key <> "__proto__") ->
  (forall key, In key (forEach_keys h object) -> isMongodbReserved key = false ->
     plain_property st (get_key h object key) /\
     exists t, propertyMap (S fuel) h (get_key h object key) = Rok t) ->
  getSchema fuel objectName fullObject st
  = Ret (VObj (map (plain_entry fuel h required object)
                 (filter unreserved_key (forEach_keys h object)))) st.
Proof.
  intros h r required properties object Hn Ha Hproto Hp.
  unfold getSchema, getSchema_body.
  rewrite (bind_Ret _ _ _ _ _ (getp_ok fullObject "required" st Hn)).
  fold h r required. unfold isPolymorphic.
  rewrite (bind_Ret _ _ _ _ _ (getp_ok fullObject "allOf" st Hn)).
  fold h. rewrite Ha. cbv iota.
  rewrite (bind_Ret (ret tt) _ st tt st eq_refl).
  unfold compile_properties.
  rewrite (bind_Ret _ _ _ _ _ (getp_ok fullObject "properties" st Hn)).
  fold h properties object.
  erewrite bind_Ret; [reflexivity|].
  unfold forEach. rewrite (bind_Ret get_heap _ st (heap st) st eq_refl).
  fold h. apply flat_loop.
  - apply forEach_keys_NoDup.
  - exact Hproto.
  - reflexivity.
  - exact Hp.
Qed.

Lemma flat_definition_compiles_witness :
  getSchema 0 (VStr "House") (VRef 5) (with_store house_store initial_state)
  = Ret compiled_House (with_store house_store initial_state).
Proof.
  apply (flat_definition_compiles 0 (VStr "House") (VRef 5)
           (with_store house_store initial_state)).
  - reflexivity.
  - reflexivity.
  - intros key [<-|[<-|[<-|[]]]]; discriminate.
  - intros key [<-|[<-|[<-|[]]]] _;
      (split; [repeat split; try reflexivity; try discriminate; intros ?; discriminate
              |eexists; reflexivity]).
Defined.

(** ** Overrides by extension block *)

Lemma assoc_extend_two h property block k :
  truthy property = true -> truthy block = true ->
  assoc k (extend h [] [property; block]) = overridden h property block k.
Proof.
  intros Tp Tb. unfold extend, overridden. simpl. rewrite Tp, Tb.
  rewrite !assoc_obj_assign.
  destruct (last_binding k (own_entries (deref h block))); [reflexivity|].
  destruct (last_binding k (own_entries (deref h property))); reflexivity.
Qed.

(** X17. An extension block that overrides.  For a property with an
    extension block that brings no reference and no validator,
    [getMongooseSpecific], when it returns, leaves the state as it is and
    returns a descriptor that has not the extension property, has of every
    other field but [type] the value of the block if the block has the
    field and else that of the property, and has as its [type], when the
    overridden type is an allowed one, the storage type the Type Mapper
    gives for the property so overridden (with the [format] and the [items]
    it then has), and the overridden type itself, untouched, when it is
    not. *)
Theorem extension_overrides
  (fuel : nat) (props : obj) (property : val) (st : state) (v : val) (st' : state) :
  let h := heap st in
  let mp := getMongooseProperty st in
  let block := get h property mp in
  truthy block = true ->
  truthy (consulted_reference st property block) = false ->
  truthy (get h block "validator") = false ->
  getMongooseSpecific fuel props property st = Ret v st' ->
  st' = st /\
  exists ret,
    v = VObj ret /\
    assoc mp ret = None /\
    (forall k, k <> mp -> k <> "type" ->
       assoc k ret = overridden h property block k) /\
    match overridden h property block "type" with
    | Some type =>
        if truthy type && isAllowedType type
        then exists t,
               propertyMap fuel h (overriding h property block mp) = Rok t /\
               assoc "type" ret = Some (VType t)
        else assoc "type" ret = Some type
    | None => assoc "type" ret = None
    end.
Proof.
  intros h mp block Tb Tr Tv H.
  assert (Tp : truthy property = true) by (eapply truthy_get; exact Tb).
  assert (Hn : nullish property = false) by (apply truthy_not_nullish, Tp).
  assert (Hb : nullish block = false) by (apply truthy_not_nullish, Tb).
  unfold getMongooseSpecific in H.
  rewrite (bind_Ret mongooseProperty _ st mp st eq_refl) in H.
  rewrite (bind_Ret atLeastSwagger2 _ st (isAtLeastSwagger2 st) st eq_refl) in H.
  rewrite (bind_Ret _ _ _ _ _ (getp_ok property mp st Hn)) in H.
  fold h block in H. rewrite Tb in H. cbn [negb] in H. rewrite andb_true_r in H.
  rewrite (bind_Ret _ _ st (consulted_reference st property block) st) in H.
  2:{ unfold consulted_reference. destruct (isAtLeastSwagger2 st);
        apply getp_ok; assumption. }
  rewrite (bind_Ret (ret false) _ st false st eq_refl) in H. cbv iota in H.
  rewrite (bind_Ret (ret (block, consulted_reference st property block)) _ st
             (block, consulted_reference st property block) st eq_refl) in H.
  cbv iota beta in H. rewrite Tb, Tr in H. cbn [negb] in H. cbv iota in H.
  rewrite (bind_Ret _ _ _ _ _ (getp_ok block "validator" st Hb)) in H.
  fold h in H. rewrite Tv in H. cbv iota in H.
  set (ext := extend h [] [property; block]) in *.
  rewrite (bind_Ret (_extend [] [property; block]) _ st ext st eq_refl) in H.
  cbv zeta in H.
  set (ret' := obj_delete mp ext) in *.
  assert (A : forall k, k <> mp -> assoc k ret' = overridden h property block k).
  { intros k Hk. unfold ret'. rewrite assoc_obj_delete_other by congruence.
    apply assoc_extend_two; assumption. }
  assert (D : assoc mp ret' = None) by apply assoc_obj_delete_same.
  rewrite (bind_Ret (isSimpleSchema (VObj ret')) _ st
             (truthy (get (heap st) (VObj ret') "type")
              && isAllowedType (get (heap st) (VObj ret') "type")) st eq_refl) in H.
  assert (Mne : mp <> "type").
  { unfold mp, getMongooseProperty. destruct (isAtLeastSwagger2 st); discriminate. }
  assert (Ty : get (heap st) (VObj ret') "type"
               = match overridden h property block "type" with
                 | Some type => type
                 | None => VUndef
                 end).
  { unfold get, deref. simpl own_get. rewrite A by congruence. reflexivity. }
  rewrite Ty in H.
  destruct (overridden h property block "type") as [type|] eqn:O.
  - destruct (truthy type && isAllowedType type)%bool.
    + apply bind_inv in H. destruct H as (t & s1 & E & H).
      apply ret_inv in H. destruct H as [-> ->].
      assert (S1 : s1 = st /\ propertyMap fuel (heap st) (VObj ret') = Rok t).
      { unfold propertyMapM, bind, get_heap, lift in E.
        destruct (propertyMap fuel (heap st) (VObj ret')); [|discriminate E].
        apply ret_inv in E. destruct E as [-> ->]. split; reflexivity. }
      destruct S1 as [S1 P].
      split; [exact S1|]. exists (obj_set "type" (VType t) ret').
      split; [reflexivity|]. split.
      { rewrite assoc_obj_set_other by congruence. exact D. }
      split.
      { intros k Hk Ht. rewrite assoc_obj_set_other by congruence. apply A, Hk. }
      exists t. split; [exact P|apply assoc_obj_set_same].
    + apply ret_inv in H. destruct H as [-> ->]. split; [reflexivity|].
      exists ret'. split; [reflexivity|]. split; [exact D|]. split.
      { intros k Hk _. apply A, Hk. }
      rewrite A by congruence. exact O.
  - simpl truthy in H. cbv iota in H. apply ret_inv in H. destruct H as [-> ->].
    split; [reflexivity|]. exists ret'. split; [reflexivity|].
    split; [exact D|]. split.
    { intros k Hk _. apply A, Hk. }
    rewrite A by congruence. exact O.
Qed.

Lemma extension_overrides_witness :
  match getMongooseSpecific 1 []
          (VObj [("type", VStr "string"); ("_mongoose", VObj [("index", VBool true)])])
          initial_state with
  | Ret v _ =>
      exists ret,
        v = VObj ret /\ assoc "_mongoose" ret = None /\
        assoc "index" ret = Some (VBool true) /\
        assoc "type" ret = Some (VType SString)
  | Throw _ _ => False
  end.
Proof.
  destruct (getMongooseSpecific 1 []
              (VObj [("type", VStr "string");
                     ("_mongoose", VObj [("index", VBool true)])])
              initial_state) as [v st'|e st'] eqn:H.
  - destruct (extension_overrides 1 []
                (VObj [("type", VStr "string");
                       ("_mongoose", VObj [("index", VBool true)])])
                initial_state v st' eq_refl eq_refl eq_refl H)
      as (_ & ret & -> & D & A & T).
    exists ret. split; [reflexivity|]. split; [exact D|].
    split; [apply (A "index"); discriminate|].
    cbn in T. destruct T as (t & P & Et). injection P as <-. exact Et.
  - vm_compute in H. discriminate H.
Defined.
